(** * Teleport locomotion of sweethomewebxr (src/main.ts)

    A shallow embedding of the locomotion code of [main.ts]: the ballistic
    arc caster ([Arccaster]), its visualiser ([TeleportationArc]), the
    per-controller state machine ([TeleportationControls]), the reference
    space rebasing ([ThreeXRSession.setOffset]), controller connection
    ([ThreeXRController]) and the per-frame driving policy ([update]);
    then the negotiation of the base reference space
    ([initializeThreeXRSession]), the construction of a controller's rig
    ([createController]) and the desktop camera of [render].

    Modelling conventions.
    - A JavaScript number is a real number ([R]): rounding, NaN and
      infinities of IEEE doubles are outside the model.
    - [THREE.Vector3] and [THREE.Quaternion] are mutable objects that the
      code passes by reference; they live in a store ([heap]) and the
      methods that mutate [this] are store transformers.  Everything the
      program keeps besides these objects is a field of [World].
    - A [throw] is the [Throw] result of the state-and-exception monad [M];
      the store survives a throw, as it does in JavaScript. *)

From Stdlib Require Import Reals Lra Lia.
From stdpp Require Import base option list strings gmap.

Local Open Scope R_scope.

(** ** State and exception monad *)

Inductive Result (A : Type) : Type :=
| Ok (a : A)
| Throw (e : string).
Arguments Ok {A} a.
Arguments Throw {A} e.

Definition M (S A : Type) : Type := S → Result A * S.

Definition ret {S A} (a : A) : M S A := λ s, (Ok a, s).

Definition throw {S A} (e : string) : M S A := λ s, (Throw e, s).

Definition bind {S A B} (m : M S A) (k : A → M S B) : M S B :=
  λ s, match m s with
       | (Ok a, s') => k a s'
       | (Throw e, s') => (Throw e, s')
       end.

Notation "'let*' x := m 'in' k" := (bind m (λ x, k))
  (at level 10, x pattern, m at level 100, k at level 200).

(** ** Vectors, quaternions and the object store *)

Record Vector3 : Type := mkVector3 { vx : R; vy : R; vz : R }.

Record Quaternion : Type := mkQuaternion { qx : R; qy : R; qz : R; qw : R }.

Inductive obj : Type :=
| OVec (v : Vector3)
| OQuat (q : Quaternion).

Abbreviation loc := nat.
Abbreviation heap := (list obj).

Module Vec.
(** The arithmetic that the [THREE.Vector3] methods perform on the
    coordinates. *)
Definition zero : Vector3 := mkVector3 0 0 0.

Definition addScaled (a b : Vector3) (s : R) : Vector3 :=
  mkVector3 (vx a + vx b * s) (vy a + vy b * s) (vz a + vz b * s).

Definition sub (a b : Vector3) : Vector3 :=
  mkVector3 (vx a - vx b) (vy a - vy b) (vz a - vz b).

Definition negate (a : Vector3) : Vector3 :=
  mkVector3 (- vx a) (- vy a) (- vz a).

Definition multiplyScalar (a : Vector3) (s : R) : Vector3 :=
  mkVector3 (vx a * s) (vy a * s) (vz a * s).

Definition length (a : Vector3) : R :=
  sqrt (vx a * vx a + vy a * vy a + vz a * vz a).

(** [normalize] is [divideScalar(length() || 1)], and [divideScalar(s)]
    is [multiplyScalar(1 / s)]. *)
Definition normalize (a : Vector3) : Vector3 :=
  let l := length a in
  multiplyScalar a (1 / (if Req_dec_T l 0 then 1 else l)).

Definition distanceToSquared (a b : Vector3) : R :=
  let dx := vx a - vx b in
  let dy := vy a - vy b in
  let dz := vz a - vz b in
  dx * dx + dy * dy + dz * dz.

Definition distanceTo (a b : Vector3) : R := sqrt (distanceToSquared a b).

(** [Vector3.applyQuaternion]: [v + q.w * t + cross(q.xyz, t)] with
    [t = 2 * cross(q.xyz, v)]. *)
Definition applyQuaternion (v : Vector3) (q : Quaternion) : Vector3 :=
  let tx := 2 * (qy q * vz v - qz q * vy v) in
  let ty := 2 * (qz q * vx v - qx q * vz v) in
  let tz := 2 * (qx q * vy v - qy q * vx v) in
  mkVector3 (vx v + qw q * tx + qy q * tz - qz q * ty)
            (vy v + qw q * ty + qz q * tx - qx q * tz)
            (vz v + qw q * tz + qx q * ty - qy q * tx).
End Vec.

Module Quat.
(** [Quaternion.setFromAxisAngle(axis, angle)]. *)
Definition setFromAxisAngle (axis : Vector3) (angle : R) : Quaternion :=
  let halfAngle := angle / 2 in
  let s := sin halfAngle in
  mkQuaternion (vx axis * s) (vy axis * s) (vz axis * s) (cos halfAngle).

Definition identity : Quaternion := mkQuaternion 0 0 0 1.

Definition length (q : Quaternion) : R :=
  sqrt (qx q * qx q + qy q * qy q + qz q * qz q + qw q * qw q).

Definition conjugate (q : Quaternion) : Quaternion :=
  mkQuaternion (- qx q) (- qy q) (- qz q) (qw q).
End Quat.

(** *** Store primitives

    Dereferencing something that is not an object of the expected class is
    the [TypeError] that JavaScript raises on [undefined.x]. *)

Definition new_obj (o : obj) : M heap loc :=
  λ h, (Ok (length h), h ++ [o]).

Definition get_Vector3 (l : loc) : M heap Vector3 :=
  λ h, match h !! l with
       | Some (OVec v) => (Ok v, h)
       | _ => (Throw "TypeError", h)
       end.

Definition set_Vector3 (l : loc) (v : Vector3) : M heap unit :=
  λ h, match h !! l with
       | Some (OVec _) => (Ok tt, <[l := OVec v]> h)
       | _ => (Throw "TypeError", h)
       end.

Definition get_Quaternion (l : loc) : M heap Quaternion :=
  λ h, match h !! l with
       | Some (OQuat q) => (Ok q, h)
       | _ => (Throw "TypeError", h)
       end.

Definition set_Quaternion (l : loc) (q : Quaternion) : M heap unit :=
  λ h, match h !! l with
       | Some (OQuat _) => (Ok tt, <[l := OQuat q]> h)
       | _ => (Throw "TypeError", h)
       end.

(** *** [THREE.Vector3] and [THREE.Quaternion] methods on references *)

Module Vector3.
Definition new (a b c : R) : M heap loc := new_obj (OVec (mkVector3 a b c)).

Definition clone (this : loc) : M heap loc :=
  let* v := get_Vector3 this in
  new_obj (OVec v).

Definition copy (this v : loc) : M heap unit :=
  let* b := get_Vector3 v in
  set_Vector3 this b.

Definition addScaledVector (this v : loc) (s : R) : M heap unit :=
  let* a := get_Vector3 this in
  let* b := get_Vector3 v in
  set_Vector3 this (Vec.addScaled a b s).

Definition sub (this v : loc) : M heap unit :=
  let* a := get_Vector3 this in
  let* b := get_Vector3 v in
  set_Vector3 this (Vec.sub a b).

Definition negate (this : loc) : M heap unit :=
  let* a := get_Vector3 this in
  set_Vector3 this (Vec.negate a).

Definition normalize (this : loc) : M heap unit :=
  let* a := get_Vector3 this in
  set_Vector3 this (Vec.normalize a).

Definition distanceTo (this v : loc) : M heap R :=
  let* a := get_Vector3 this in
  let* b := get_Vector3 v in
  ret (Vec.distanceTo a b).

Definition applyQuaternion (this q : loc) : M heap unit :=
  let* a := get_Vector3 this in
  let* r := get_Quaternion q in
  set_Vector3 this (Vec.applyQuaternion a r).
End Vector3.

Module Quaternion.
Definition new : M heap loc := new_obj (OQuat Quat.identity).

Definition copy (this q : loc) : M heap unit :=
  let* r := get_Quaternion q in
  set_Quaternion this r.

Definition setFromAxisAngle (this : loc) (axis : Vector3) (angle : R)
  : M heap unit :=
  let* _ := get_Quaternion this in
  set_Quaternion this (Quat.setFromAxisAngle axis angle).
End Quaternion.

(** ** The scene query collaborator

    [THREE.Raycaster.intersectObject(object, true)] is three.js: it answers
    with the hits of the ray on [object] and its descendants whose distance
    lies in [[near, far]], nearest first.  A scene is modelled by that
    answer, one [Hit] per intersection. *)

Record Hit : Type := mkHit {
  hit_distance : R;
  hit_point : Vector3;
  hit_normal : option Vector3;
  hit_object_name : string
}.

Record Object3D : Type := mkObject3D {
  raycast : Vector3 → Vector3 → R → R → list Hit
}.

(** A [THREE.Intersection] as the program holds it: [point] is a
    [Vector3] object, the other fields are only read. *)
Record Intersection : Type := mkIntersection {
  distance : R;
  point : loc;
  normal : option Vector3;
  object_name : string
}.

Record Ray : Type := mkRay { origin : loc; direction : loc }.

Module Ray.
(** [new THREE.Ray()]: origin [(0,0,0)], direction [(0,0,-1)]. *)
Definition new : M heap Ray :=
  let* o := Vector3.new 0 0 0 in
  let* d := Vector3.new 0 0 (-1) in
  ret (mkRay o d).
End Ray.

Module Raycaster.
Fixpoint alloc_intersections (hits : list Hit) : M heap (list Intersection) :=
  match hits with
  | [] => ret []
  | hit :: rest =>
      let* p := new_obj (OVec (hit_point hit)) in
      let* others := alloc_intersections rest in
      ret (mkIntersection (hit_distance hit) p (hit_normal hit)
             (hit_object_name hit) :: others)
  end.

(** [raycaster.ray = ray; raycaster.near = near; raycaster.far = far;
    raycaster.intersectObject(object, true)]. *)
Definition intersectObject (ray : Ray) (near far : R) (object : Object3D)
  : M heap (list Intersection) :=
  let* o := get_Vector3 (origin ray) in
  let* d := get_Vector3 (direction ray) in
  alloc_intersections (raycast object o d near far).
End Raycaster.

(** ** [Arccaster] *)

Module Arccaster.
Definition step : R := 0.2.

Definition steps : nat := 50.

(** The body of [for (let x = 0; x < 50; x++)], with [n] iterations
    left.  A hit leaves the function from inside the loop. *)
Fixpoint loop (n : nat) (gravity : loc) (object : Object3D)
    (position velocity : loc) (ray : Ray) (trace : list loc)
  : M heap (list loc * option Intersection) :=
  match n with
  | O => ret (trace, None)
  | S n' =>
      let* _ := Vector3.addScaledVector velocity gravity step in
      let* _ := Vector3.addScaledVector position velocity step in
      let* found :=
        match last trace with
        | Some lastPosition =>
            let* _ := Vector3.copy (origin ray) lastPosition in
            let* _ := Vector3.copy (direction ray) position in
            let* _ := Vector3.sub (direction ray) lastPosition in
            let* _ := Vector3.normalize (direction ray) in
            let* far := Vector3.distanceTo lastPosition position in
            let* intersections := Raycaster.intersectObject ray 0 far object in
            ret (head intersections)
        | None => ret None
        end in
      match found with
      | Some intersection =>
          ret (trace ++ [point intersection], Some intersection)
      | None =>
          let* sample := Vector3.clone position in
          loop n' gravity object position velocity ray (trace ++ [sample])
      end
  end.

(** [intersectObject(object, position, rotation)] of an [Arccaster]
    whose [gravity] field is the object at [gravity]. *)
Definition intersectObject (gravity : loc) (object : Object3D)
    (position rotation : loc)
  : M heap (list loc * option Intersection) :=
  let* position := Vector3.clone position in
  let* velocity := Vector3.new 0 0 (-1) in
  let* _ := Vector3.applyQuaternion velocity rotation in
  let* first := Vector3.clone position in
  let* ray := Ray.new in
  loop steps gravity object position velocity ray [first].
End Arccaster.

(** ** The trajectory algorithm as the specification words it

    Velocity starts as the forward vector [(0,0,-1)] rotated by the
    starting orientation.  Each of at most 50 steps of 0.2 adds
    [gravity * step] to the velocity and then [velocity * step] to the
    position.  Before the new sample is appended, a ray from the previous
    sample toward the new one, valid up to their distance, is cast; a hit
    ends the trajectory with the hit point as last sample. *)

Module Reference.
Definition forward : Vector3 := mkVector3 0 0 (-1).

Definition nearest_hit (scene : Object3D) (previous next : Vector3)
  : option Hit :=
  head (raycast scene previous (Vec.normalize (Vec.sub next previous))
          0 (Vec.distanceTo previous next)).

Fixpoint simulate (scene : Object3D) (gravity : Vector3) (n : nat)
    (position velocity : Vector3) (samples : list Vector3)
  : list Vector3 * option Hit :=
  match n with
  | O => (samples, None)
  | S n' =>
      let velocity' := Vec.addScaled velocity gravity 0.2 in
      let position' := Vec.addScaled position velocity' 0.2 in
      match last samples with
      | Some previous =>
          match nearest_hit scene previous position' with
          | Some hit => (samples ++ [hit_point hit], Some hit)
          | None =>
              simulate scene gravity n' position' velocity'
                (samples ++ [position'])
          end
      | None =>
          simulate scene gravity n' position' velocity'
            (samples ++ [position'])
      end
  end.

Definition trajectory (gravity : Vector3) (scene : Object3D)
    (position : Vector3) (rotation : Quaternion)
  : list Vector3 * option Hit :=
  simulate scene gravity 50 position (Vec.applyQuaternion forward rotation)
    [position].
End Reference.

(** ** Decisions on numbers and the angles three.js computes *)

#[global] Instance R_eq_dec : EqDecision R := Req_dec_T.
#[global] Instance Rlt_decision (a b : R) : Decision (a < b) := Rlt_dec a b.
#[global] Instance Rgt_decision (a b : R) : Decision (a > b) := Rgt_dec a b.
#[global] Instance Rle_decision (a b : R) : Decision (a <= b) := Rle_dec a b.

(** [Math.atan2(b, a)], signed zeros apart. *)
Definition atan2 (b a : R) : R :=
  if decide (0 < a) then atan (b / a)
  else if decide (a < 0) then
    if decide (0 <= b) then atan (b / a) + PI else atan (b / a) - PI
  else if decide (0 < b) then PI / 2
  else if decide (b < 0) then - (PI / 2)
  else 0.

Module Vector2.
(** [new THREE.Vector2(a, b).angle()] is
    [Math.atan2(-b, -a) + Math.PI]. *)
Definition angle (a b : R) : R := atan2 (- b) (- a) + PI.
End Vector2.

Module Euler.
(** The [y] of [new THREE.Euler().setFromQuaternion(q, "YXZ")]: the
    rotation matrix of [q] (entries [m13], [m23], [m33], [m31], [m11]
    of [Matrix4.makeRotationFromQuaternion]) and the YXZ case of
    [Euler.setFromRotationMatrix]. *)
Definition yaw_YXZ (q : Quaternion) : R :=
  let x2 := qx q + qx q in
  let y2 := qy q + qy q in
  let z2 := qz q + qz q in
  let xx := qx q * x2 in
  let xz := qx q * z2 in
  let yy := qy q * y2 in
  let yz := qy q * z2 in
  let zz := qz q * z2 in
  let wx := qw q * x2 in
  let wy := qw q * y2 in
  let m11 := 1 - (yy + zz) in
  let m13 := xz + wy in
  let m23 := yz - wx in
  let m31 := xz - wy in
  let m33 := 1 - (xx + yy) in
  if decide (Rabs m23 < 0.9999999) then atan2 m13 m33
  else atan2 (- m31) m11.
End Euler.

(** ** WebXR reference spaces

    [XRRigidTransform] and [XRReferenceSpace] belong to the WebXR device
    API.  The constructor of a rigid transform copies the coordinates it is
    given and normalises the orientation (a zero orientation is an
    [InvalidStateError]); [inverse] is the transform whose matrix is the
    inverse matrix; [getOffsetReferenceSpace] derives a space from a base
    space and an origin offset. *)

Record XRRigidTransform : Type := mkXRRigidTransform {
  position : Vector3;
  orientation : Quaternion
}.

Inductive XRReferenceSpace : Type :=
| NativeSpace (type : string)
| OffsetSpace (base : XRReferenceSpace) (originOffset : XRRigidTransform).

Module XRRigidTransform.
Definition new {S} (p : Vector3) (q : Quaternion) : M S XRRigidTransform :=
  let l := Quat.length q in
  if decide (l = 0) then throw "InvalidStateError"
  else ret (mkXRRigidTransform p
              (mkQuaternion (qx q / l) (qy q / l) (qz q / l) (qw q / l))).

Definition inverse (t : XRRigidTransform) : XRRigidTransform :=
  let q := Quat.conjugate (orientation t) in
  mkXRRigidTransform (Vec.applyQuaternion (Vec.negate (position t)) q) q.

(** The image of a point under the transform: rotate, then translate. *)
Definition transformPoint (t : XRRigidTransform) (p : Vector3) : Vector3 :=
  Vec.addScaled (Vec.applyQuaternion p (orientation t)) (position t) 1.
End XRRigidTransform.

(** ** Input devices *)

Record GamepadButton : Type := mkGamepadButton { pressed : bool }.

Record Gamepad : Type := mkGamepad {
  axes : list R;
  buttons : list GamepadButton
}.

Record XRInputSource : Type := mkXRInputSource {
  gamepad : option Gamepad;
  targetRayMode : string
}.

Inductive ControllerMesh : Type :=
| TrackedPointerLine
| GazeRing.

Record ThreeXRConnectedController : Type := mkThreeXRConnectedController {
  connected_gamepad : Gamepad;
  controllerMesh : ControllerMesh
}.

(** ** The state of one controller's locomotion rig

    [createController] builds, for one controller slot, a marker, an arc
    with its line, the teleportation controls and the [ThreeXRController];
    [Rig] holds the references that never change after that, [World] what
    the code mutates.  [setOffset_calls] is a ghost field: it records the
    arguments of every [ThreeXRSession.setOffset] call and nothing reads
    it. *)

Record Rig : Type := mkRig {
  gravity : loc;
  marker_position : loc;
  marker_quaternion : loc;
  arc_position : loc;
  arc_quaternion : loc;
  controller_position : loc;
  controller_quaternion : loc;
  validateIntersection : Hit → bool;
  baseReferenceSpace : XRReferenceSpace
}.

Record World : Type := mkWorld {
  store : heap;
  marker_visible : bool;
  line_visible : bool;
  line_geometry : list Vector3;
  isTeleporting : bool;
  teleportationAngle : R;
  connectedController : option ThreeXRConnectedController;
  referenceSpace : XRReferenceSpace;
  house : Object3D;
  setOffset_calls : list (Vector3 * R)
}.

Definition set_store (h : heap) (w : World) : World :=
  mkWorld h (marker_visible w) (line_visible w) (line_geometry w)
    (isTeleporting w) (teleportationAngle w) (connectedController w)
    (referenceSpace w) (house w) (setOffset_calls w).

Definition set_marker_visible (b : bool) (w : World) : World :=
  mkWorld (store w) b (line_visible w) (line_geometry w)
    (isTeleporting w) (teleportationAngle w) (connectedController w)
    (referenceSpace w) (house w) (setOffset_calls w).

Definition set_line_visible (b : bool) (w : World) : World :=
  mkWorld (store w) (marker_visible w) b (line_geometry w)
    (isTeleporting w) (teleportationAngle w) (connectedController w)
    (referenceSpace w) (house w) (setOffset_calls w).

Definition set_line_geometry (g : list Vector3) (w : World) : World :=
  mkWorld (store w) (marker_visible w) (line_visible w) g
    (isTeleporting w) (teleportationAngle w) (connectedController w)
    (referenceSpace w) (house w) (setOffset_calls w).

Definition set_isTeleporting (b : bool) (w : World) : World :=
  mkWorld (store w) (marker_visible w) (line_visible w) (line_geometry w)
    b (teleportationAngle w) (connectedController w)
    (referenceSpace w) (house w) (setOffset_calls w).

Definition set_teleportationAngle (a : R) (w : World) : World :=
  mkWorld (store w) (marker_visible w) (line_visible w) (line_geometry w)
    (isTeleporting w) a (connectedController w)
    (referenceSpace w) (house w) (setOffset_calls w).

Definition set_connectedController (c : option ThreeXRConnectedController)
    (w : World) : World :=
  mkWorld (store w) (marker_visible w) (line_visible w) (line_geometry w)
    (isTeleporting w) (teleportationAngle w) c
    (referenceSpace w) (house w) (setOffset_calls w).

Definition set_referenceSpace (s : XRReferenceSpace) (w : World) : World :=
  mkWorld (store w) (marker_visible w) (line_visible w) (line_geometry w)
    (isTeleporting w) (teleportationAngle w) (connectedController w)
    s (house w) (setOffset_calls w).

Definition set_house (o : Object3D) (w : World) : World :=
  mkWorld (store w) (marker_visible w) (line_visible w) (line_geometry w)
    (isTeleporting w) (teleportationAngle w) (connectedController w)
    (referenceSpace w) o (setOffset_calls w).

Definition set_setOffset_calls (c : list (Vector3 * R)) (w : World) : World :=
  mkWorld (store w) (marker_visible w) (line_visible w) (line_geometry w)
    (isTeleporting w) (teleportationAngle w) (connectedController w)
    (referenceSpace w) (house w) c.

Definition gets {S A} (f : S → A) : M S A := λ s, (Ok (f s), s).

Definition modify {S} (f : S → S) : M S unit := λ s, (Ok tt, f s).

(** A store computation inside the world. *)
Definition on_store {A} (m : M heap A) : M World A :=
  λ w, let '(r, h) := m (store w) in (r, set_store h w).

(** ** Landing validity *)

(** [(intersection.normal?.y ?? 0) > 0.9]; the [console.log] before it
    only reads. *)
Definition isGroundIntersection (intersection : Hit) : bool :=
  bool_decide (match hit_normal intersection with
               | Some n => vy n
               | None => 0
               end > 0.9).

Module Intersection.
(** What a predicate sees of an intersection object. *)
Definition read (i : Intersection) : M heap Hit :=
  let* p := get_Vector3 (point i) in
  ret (mkHit (distance i) p (normal i) (object_name i)).
End Intersection.

Module Object3D.
(** [house.translateY(d)] for the unrotated house: the geometry, and
    with it every hit, moves by [d] along the vertical axis. *)
Definition translateY (d : R) (o : Object3D) : Object3D :=
  mkObject3D (λ from dir near far,
    map (λ hit, mkHit (hit_distance hit)
                  (Vec.addScaled (hit_point hit) (mkVector3 0 1 0) d)
                  (hit_normal hit) (hit_object_name hit))
        (raycast o (Vec.addScaled from (mkVector3 0 1 0) (- d)) dir near far)).
End Object3D.

(** ** [TeleportationArc] *)

Module TeleportationArc.
Fixpoint read_points (trace : list loc) : M heap (list Vector3) :=
  match trace with
  | [] => ret []
  | l :: rest =>
      let* v := get_Vector3 l in
      let* vs := read_points rest in
      ret (v :: vs)
  end.

(** [update(object, angle)].  The arc is a child of the scene root, so
    [getWorldPosition] and [getWorldQuaternion] copy the arc's own
    position and quaternion into their targets. *)
Definition update (rig : Rig) (object : Object3D) (angle : R)
  : M World unit :=
  let* position := on_store (Vector3.new 0 0 0) in
  let* rotation := on_store Quaternion.new in
  let* _ := on_store (Vector3.copy position (arc_position rig)) in
  let* _ := on_store (Quaternion.copy rotation (arc_quaternion rig)) in
  let* (trace, intersection) :=
    on_store (Arccaster.intersectObject (gravity rig) object
                position rotation) in
  let* points := on_store (read_points trace) in
  let* _ := modify (set_line_geometry points) in
  let* hasIntersection :=
    match intersection with
    | Some i =>
        let* seen := on_store (Intersection.read i) in
        ret (validateIntersection rig seen)
    | None => ret false
    end in
  let* _ :=
    match intersection with
    | Some i =>
        if hasIntersection then
          let* _ := on_store (Vector3.copy (marker_position rig) (point i)) in
          match normal i with
          | Some _ =>
              on_store (Quaternion.setFromAxisAngle (marker_quaternion rig)
                          (mkVector3 0 1 0) angle)
          | None => ret tt
          end
        else ret tt
    | None => ret tt
    end in
  modify (set_marker_visible hasIntersection).
End TeleportationArc.

(** ** [ThreeXRSession] *)

Module ThreeXRSession.
(** [setOffset(_position, angle)].  The first two lines are the ghost
    record of the call.  The statement
    [offset.orientation.matrixTransform()] computes a point that is
    dropped. *)
Definition setOffset (rig : Rig) (_position : loc) (angle : R)
  : M World unit :=
  let* target := on_store (get_Vector3 _position) in
  let* _ := modify (λ w, set_setOffset_calls
                           (setOffset_calls w ++ [(target, angle)]) w) in
  let* rotation := on_store Quaternion.new in
  let* _ := on_store (Quaternion.setFromAxisAngle rotation
                        (mkVector3 0 1 0) (- angle)) in
  let* position := on_store (Vector3.new 0 0 0) in
  let* _ := on_store (Vector3.copy position _position) in
  let* _ := on_store (Vector3.negate position) in
  let* _ := on_store (Vector3.applyQuaternion position rotation) in
  let* p := on_store (get_Vector3 position) in
  let* q := on_store (get_Quaternion rotation) in
  let* offset := XRRigidTransform.new p q in
  let offsetSpace := OffsetSpace (baseReferenceSpace rig) offset in
  modify (set_referenceSpace offsetSpace).
End ThreeXRSession.

(** ** [TeleportationControls] *)

Module TeleportationControls.
Definition start : M World unit := modify (set_isTeleporting true).

(** [update(object, angle)].  [rotation.copy] copies the Euler angles of
    the controller; the quaternion of the arc, which three.js keeps in
    step with them, becomes the controller's. *)
Definition update (rig : Rig) (object : Object3D) (angle : R)
  : M World unit :=
  let* teleporting := gets isTeleporting in
  let* _ :=
    if teleporting then
      let* _ := modify (set_teleportationAngle angle) in
      let* _ := on_store (Vector3.copy (arc_position rig)
                            (controller_position rig)) in
      let* _ := on_store (Quaternion.copy (arc_quaternion rig)
                            (controller_quaternion rig)) in
      TeleportationArc.update rig object angle
    else ret tt in
  let* teleporting := gets isTeleporting in
  modify (set_line_visible teleporting).

Definition _stop : M World unit :=
  let* _ := modify (set_isTeleporting false) in
  let* _ := modify (set_line_visible false) in
  modify (set_marker_visible false).

Definition cancel : M World unit := _stop.

Definition commit (rig : Rig) : M World unit :=
  let* _ := _stop in
  let* angle := gets teleportationAngle in
  ThreeXRSession.setOffset rig (marker_position rig) angle.
End TeleportationControls.

(** ** Controller connection *)

Definition buildController {S} (data : XRInputSource) : M S ControllerMesh :=
  if decide (targetRayMode data = "tracked-pointer") then ret TrackedPointerLine
  else if decide (targetRayMode data = "gaze") then ret GazeRing
  else throw "Unknown controller type".

Module ThreeXRConnectedController.
(** The constructor. *)
Definition new {S} (inputSource : XRInputSource)
  : M S ThreeXRConnectedController :=
  match gamepad inputSource with
  | None => throw "Gamepad not available"
  | Some gamepad =>
      if decide (length (axes gamepad) < 4)%nat
      then throw "Gamepad axes not available"
      else
        let* mesh := buildController inputSource in
        ret (mkThreeXRConnectedController gamepad mesh)
  end.
End ThreeXRConnectedController.

(** [this.add] and [this.remove] of the connected controller object only
    edit the scene graph, which no locomotion code reads; they are left
    out. *)
Module ThreeXRController.
Definition handleControllerConnected (data : XRInputSource) : M World unit :=
  let* current := gets connectedController in
  match current with
  | Some _ => throw "Controller already connected"
  | None =>
      let* c := ThreeXRConnectedController.new data in
      modify (set_connectedController (Some c))
  end.

Definition handleControllerDisconnected : M World unit :=
  let* current := gets connectedController in
  match current with
  | None => ret tt
  | Some _ => modify (set_connectedController None)
  end.
End ThreeXRController.

(** ** The per-frame driving policy

    [update] is the render listener that [createController] registers.
    [const [, , x, y] = gamepad.axes] reads the axes 2 and 3; the
    constructor of [ThreeXRConnectedController] refuses gamepads with
    fewer than four axes, so both reads are in range for a connected
    controller ([axis] answers 0 out of range, where JavaScript has
    [undefined]). *)

Module createController.
Definition axis (g : Gamepad) (i : nat) : R := nth i (axes g) 0.

Definition update (rig : Rig) : M World unit :=
  let* connectedController := gets connectedController in
  match connectedController with
  | None => ret tt
  | Some connectedController =>
      let gamepad := connected_gamepad connectedController in
      let x := axis gamepad 2 in
      let y := axis gamepad 3 in
      let gamepadStickAngle := Vector2.angle (- y) (- x) in
      let* q := on_store (get_Quaternion (controller_quaternion rig)) in
      let controllerAngle := Euler.yaw_YXZ q in
      let teleportAngle := gamepadStickAngle + controllerAngle in
      let* teleporting := gets isTeleporting in
      let* _ :=
        if teleporting then
          if bool_decide (x = 0) && bool_decide (y = 0) then
            let* visible := gets marker_visible in
            if visible then TeleportationControls.commit rig
            else TeleportationControls.cancel
          else
            let* house := gets house in
            TeleportationControls.update rig house teleportAngle
        else
          if bool_decide (sqrt (x * x + y * y) > 0.5)
          then TeleportationControls.start
          else ret tt in
      let buttonStates := map pressed (buttons gamepad) in
      let buttonPressed :=
        imap (λ index button,
                pressed button && negb (nth index buttonStates false))
             (buttons gamepad) in
      let* _ :=
        if nth 5 buttonPressed false
        then modify (λ w, set_house (Object3D.translateY (-2.5) (house w)) w)
        else ret tt in
      if nth 4 buttonPressed false
      then modify (λ w, set_house (Object3D.translateY 2.5 (house w)) w)
      else ret tt
  end.
End createController.

(** ** Negotiating the base reference space

    [session.requestReferenceSpace(type)] is the WebXR API: its promise
    resolves to a space or rejects, with a [DOMException] named
    [NotSupportedError] when the device has no such space.  A session is
    modelled by the outcome of that request for each type, a rejection
    by the name (or message) of what was thrown. *)

Record XRSession : Type := mkXRSession {
  referenceSpaceRequest : string → Result XRReferenceSpace
}.

(** [try { ... } catch (e) { ... }]. *)
Definition try_catch {S A} (m : M S A) (handler : string → M S A) : M S A :=
  λ s, match m s with
       | (Ok a, s') => (Ok a, s')
       | (Throw e, s') => handler e s'
       end.

Module XRSession.
Definition requestReferenceSpace {S} (session : XRSession) (type : string)
  : M S XRReferenceSpace :=
  match referenceSpaceRequest session type with
  | Ok space => ret space
  | Throw e => throw e
  end.
End XRSession.

(** The three overloads of [requestReferenceSpace] share this body; the
    [console.warn] only prints. *)
Definition requestReferenceSpace {S} (session : XRSession) (type : string)
  : M S (option XRReferenceSpace) :=
  try_catch
    (let* space := XRSession.requestReferenceSpace session type in
     ret (Some space))
    (λ e, if decide (e = "NotSupportedError") then ret None else throw e).

Definition defaultEyeHeight : R := 1.6.

Definition requestLocalFloorReferenceSpace {S} (session : XRSession)
  : M S (option XRReferenceSpace) :=
  requestReferenceSpace session "local-floor".

(** [referenceSpace?.getOffsetReferenceSpace(new XRRigidTransform(
    { x: 0, y: -defaultEyeHeight, z: 0 }))]: the orientation of the
    transform defaults to the identity. *)
Definition requestViewerReferenceSpace {S} (session : XRSession)
  : M S (option XRReferenceSpace) :=
  let* referenceSpace := requestReferenceSpace session "viewer" in
  match referenceSpace with
  | Some space =>
      let* offset :=
        XRRigidTransform.new (mkVector3 0 (- defaultEyeHeight) 0)
          Quat.identity in
      ret (Some (OffsetSpace space offset))
  | None => ret None
  end.

(** [initializeThreeXRSession(webxrManager)], given what
    [webxrManager.getSession()] answers; the result is the
    [baseReferenceSpace] of the new [ThreeXRSession]. *)
Definition initializeThreeXRSession {S} (session : option XRSession)
  : M S XRReferenceSpace :=
  match session with
  | None => throw "No session available"
  | Some session =>
      let* localFloor := requestLocalFloorReferenceSpace session in
      let* baseReferenceSpace :=
        match localFloor with
        | Some space => ret (Some space)
        | None => requestViewerReferenceSpace session
        end in
      match baseReferenceSpace with
      | None => throw "No supported reference space available"
      | Some space => ret space
      end
  end.

(** ** Building a controller's rig

    [createController(index, scene, session)] up to the registration of
    the render listener: [controller] is the target-ray space that
    [renderer.xr.getController(index)] answers, an object three.js keeps
    (the function would answer [null] without it); the marker and the arc
    are new scene objects, of which the position and the quaternion are
    modelled, made in the order of the source; a new [THREE.Line] is
    visible and its geometry is empty. *)

Definition createController (controller_position controller_quaternion : loc)
    (session_base : XRReferenceSpace) : M World Rig :=
  let* _ := modify (set_connectedController None) in
  let* marker_position := on_store (Vector3.new 0 0 0) in
  let* marker_quaternion := on_store Quaternion.new in
  let* _ := modify (set_marker_visible false) in
  let* gravity := on_store (Vector3.new 0 (-0.1) 0) in
  let* arc_position := on_store (Vector3.new 0 0 0) in
  let* arc_quaternion := on_store Quaternion.new in
  let* _ := modify (set_line_geometry []) in
  let* _ := modify (set_line_visible true) in
  let* _ := modify (set_isTeleporting false) in
  let* _ := modify (set_teleportationAngle 0) in
  ret (mkRig gravity marker_position marker_quaternion arc_position
         arc_quaternion controller_position controller_quaternion
         isGroundIntersection session_base).

(** ** The desktop camera

    [keyboard] is the object that the key listeners of [run] keep: a key
    is set to [true] while it is down and deleted when it goes up.  The
    [Escape] branch of the keydown listener calls the pointer-lock API of
    the browser and changes nothing here. *)

Definition keydown (key : string) (keyboard : gmap string bool)
  : gmap string bool :=
  <[key := true]> keyboard.

Definition keyup (key : string) (keyboard : gmap string bool)
  : gmap string bool :=
  delete key keyboard.

(** [bsign(keyboard.k)]: a missing key reads [undefined], which is
    falsy. *)
Definition bsign (b : option bool) : R :=
  match b with
  | Some true => 1
  | _ => -1
  end.

Module Camera.
(** [camera.getWorldDirection(target)] for a camera without parent:
    [target.set(-e[8], -e[9], -e[10]).normalize()] on the elements of the
    matrix composed from the camera's quaternion. *)
Definition getWorldDirection (quaternion target : loc) : M heap unit :=
  let* q := get_Quaternion quaternion in
  let x2 := qx q + qx q in
  let y2 := qy q + qy q in
  let z2 := qz q + qz q in
  let xx := qx q * x2 in
  let xz := qx q * z2 in
  let yy := qy q * y2 in
  let yz := qy q * z2 in
  let wx := qw q * x2 in
  let wy := qw q * y2 in
  let e8 := xz + wy in
  let e9 := yz - wx in
  let e10 := 1 - (xx + yy) in
  let* _ := set_Vector3 target (mkVector3 (- e8) (- e9) (- e10)) in
  Vector3.normalize target.
End Camera.

(** The part of [render] that moves the camera, after the listeners and
    the renderer have run. *)
Definition render_camera (keyboard : gmap string bool)
    (camera_position camera_quaternion : loc) : M heap unit :=
  let forward := bsign (keyboard !! "w") - bsign (keyboard !! "s") in
  let right := bsign (keyboard !! "d") - bsign (keyboard !! "a") in
  let* localDirection := Vector3.new forward 0 right in
  let* _ := Vector3.normalize localDirection in
  let* cameraDirection := Vector3.new 0 0 0 in
  let* _ := Camera.getWorldDirection camera_quaternion cameraDirection in
  let* velocity := Vector3.new 0 0 0 in
  let* l := get_Vector3 localDirection in
  let* _ := Vector3.addScaledVector velocity cameraDirection (vx l) in
  let* d := get_Vector3 cameraDirection in
  let* side := Vector3.new (- vz d) 0 (vx d) in
  let* l := get_Vector3 localDirection in
  let* _ := Vector3.addScaledVector velocity side (vz l) in
  Vector3.addScaledVector camera_position velocity 0.1.

(** * Vocabulary of the properties *)

Definition points_to (h : heap) (l : loc) (v : Vector3) : Prop :=
  h !! l = Some (OVec v).

(** Every object of [h0] is still there, unchanged, in [h]. *)
Definition preserves (h0 h : heap) : Prop :=
  ∀ l o, h0 !! l = Some o → h !! l = Some o.

(** The intersection object [i] holds, in store [h], the hit [hit]. *)
Definition represents (h : heap) (i : Intersection) (hit : Hit) : Prop :=
  distance i = hit_distance hit ∧ points_to h (point i) (hit_point hit) ∧
  normal i = hit_normal hit ∧ object_name i = hit_object_name hit.

Definition collision_matches (h : heap) (c : option Intersection)
    (r : option Hit) : Prop :=
  match c, r with
  | Some i, Some hit => represents h i hit
  | None, None => True
  | _, _ => False
  end.

(** What the loop of [Arccaster.intersectObject] relies on between two
    iterations: the objects of the caller's store [h0] are untouched, the
    scratch vectors [p], [v] and those of [ray] are distinct objects made
    after [h0], and the trace holds objects apart from the scratch
    vectors. *)
Record loop_inv (h0 h : heap) (p v : loc) (ray : Ray) (P V : Vector3)
    (trace : list loc) (samples : list Vector3) : Prop := mk_loop_inv {
  inv_preserves : preserves h0 h;
  inv_position : h !! p = Some (OVec P);
  inv_velocity : h !! v = Some (OVec V);
  inv_origin : ∃ a, h !! origin ray = Some (OVec a);
  inv_direction : ∃ a, h !! direction ray = Some (OVec a);
  inv_fresh : (length h0 ≤ p ∧ length h0 ≤ v ∧ length h0 ≤ origin ray
               ∧ length h0 ≤ direction ray)%nat;
  inv_distinct : p ≠ v ∧ p ≠ origin ray ∧ p ≠ direction ray
                 ∧ v ≠ origin ray ∧ v ≠ direction ray
                 ∧ origin ray ≠ direction ray;
  inv_trace : Forall2 (λ l s, h !! l = Some (OVec s) ∧ l ≠ p ∧ l ≠ v
                              ∧ l ≠ origin ray ∧ l ≠ direction ray)
                trace samples
}.

(** The length of the polyline through [samples]. *)
Fixpoint pathLength (samples : list Vector3) : R :=
  match samples with
  | a :: rest =>
      match rest with
      | b :: _ => Vec.distanceTo a b + pathLength rest
      | [] => 0
      end
  | [] => 0
  end.

(** The path length up to each sample is smaller than up to the next. *)
Definition path_strictly_grows (samples : list Vector3) : Prop :=
  ∀ k, (S k < length samples)%nat →
       pathLength (take (S k) samples) < pathLength (take (S (S k)) samples).

(** The velocity after [k] gravity updates. *)
Definition velocity_after (G V0 : Vector3) (k : nat) : Vector3 :=
  Nat.iter k (λ V, Vec.addScaled V G 0.2) V0.

(** Each sample up to the last free-flight one is the previous sample
    moved by [0.2] times the velocity of its step. *)
Definition free_flight (G V0 : Vector3) (samples : list Vector3)
    (c : option Hit) : Prop :=
  ∀ k a b, samples !! k = Some a → samples !! S k = Some b →
    (c = None ∨ S (S k) < length samples)%nat →
    b = Vec.addScaled a (velocity_after G V0 (S k)) 0.2.

Definition yAxis : Vector3 := mkVector3 0 1 0.

(** The offset that [setOffset(P, angle)] installs. *)
Definition offsetOf (P : Vector3) (angle : R) : XRRigidTransform :=
  let rotation := Quat.setFromAxisAngle yAxis (- angle) in
  mkXRRigidTransform (Vec.applyQuaternion (Vec.negate P) rotation) rotation.

(** Whether a collision is a place to land. *)
Definition landing (rig : Rig) (collision : option Hit) : bool :=
  match collision with
  | Some hit => validateIntersection rig hit
  | None => false
  end.

(** The world after [_stop]: idle, line and marker hidden. *)
Definition stopped (w : World) : World :=
  set_marker_visible false (set_line_visible false (set_isTeleporting false w)).

(** The stick of the connected controller is at [(a, b)]. *)
Definition stick_at (w : World) (a b : R) : Prop :=
  ∃ c, connectedController w = Some c ∧
       createController.axis (connected_gamepad c) 2 = a ∧
       createController.axis (connected_gamepad c) 3 = b.

Inductive ControllerState : Type := Idle | Aiming.

(** The state of the controls: [Aiming] while [isTeleporting] is set. *)
Definition state (w : World) : ControllerState :=
  if isTeleporting w then Aiming else Idle.

(** ** Scenes, stores and worlds for the examples *)

(** A scene nothing hits, and a small store for examples: gravity at 0,
    a position at 1, an orientation at 2. *)
Definition empty_scene : Object3D := mkObject3D (λ _ _ _ _, []).

Definition example_store (G P : Vector3) (Q : Quaternion) : heap :=
  [OVec G; OVec P; OQuat Q].

(** A rig over a seven-object store, for examples: gravity, the marker's
    position and quaternion, the arc's, and the controller's. *)
Definition example_rig : Rig :=
  mkRig 0 1 2 3 4 5 6 isGroundIntersection (NativeSpace "local-floor").

Definition example_objects : heap :=
  [OVec (mkVector3 0 (-0.1) 0);
   OVec (mkVector3 5 0 2.5); OQuat Quat.identity;
   OVec (mkVector3 0 1 0); OQuat Quat.identity;
   OVec (mkVector3 0 1 0); OQuat Quat.identity].

Definition example_world (teleporting marker line : bool)
    (c : option ThreeXRConnectedController) : World :=
  mkWorld example_objects marker line [] teleporting (PI / 4) c
    (NativeSpace "local-floor") empty_scene [].

(** A floor under everything: each ray hits it at once, with the normal
    pointing up. *)
Definition floor_scene : Object3D :=
  mkObject3D (λ from _ _ _, [mkHit 0 from (Some (mkVector3 0 1 0)) "floor"]).

(** A wall that reports its hits without a normal. *)
Definition bare_wall : Object3D :=
  mkObject3D (λ from _ _ _, [mkHit 0 from None "wall"]).

Definition example_controller (a b : R) : ThreeXRConnectedController :=
  mkThreeXRConnectedController
    (mkGamepad [0; 0; a; b] [mkGamepadButton false; mkGamepadButton true])
    TrackedPointerLine.

(** ** Vocabulary of the further properties *)

(** The point that [k] steps of free flight reach from [P] with initial
    velocity [V0] under gravity [G]: the velocity after [j] steps is
    [V0 + 0.2 j G], and the position adds [0.2] times each of them. *)
Definition flight_point (G P V0 : Vector3) (k : nat) : Vector3 :=
  mkVector3
    (vx P + 0.2 * INR k * vx V0 + 0.02 * INR k * (INR k + 1) * vx G)
    (vy P + 0.2 * INR k * vy V0 + 0.02 * INR k * (INR k + 1) * vy G)
    (vz P + 0.2 * INR k * vz V0 + 0.02 * INR k * (INR k + 1) * vz G).

(** The offset of the viewer fallback: the eye height, straight down. *)
Definition eyeHeightOffset : XRRigidTransform :=
  mkXRRigidTransform (mkVector3 0 (- defaultEyeHeight) 0) Quat.identity.

(** A session that grants the listed space types and has no other. *)
Definition example_session (granted : list string) : XRSession :=
  mkXRSession (λ type, if decide (type ∈ granted) then Ok (NativeSpace type)
                       else Throw "NotSupportedError").

(** The store holds, at the places the rig names, seven distinct objects
    of the right classes. *)
Record well_formed (rig : Rig) (h : heap) : Prop := mk_well_formed {
  wf_gravity : ∃ v, h !! gravity rig = Some (OVec v);
  wf_marker_position : ∃ v, h !! marker_position rig = Some (OVec v);
  wf_marker_quaternion : ∃ q, h !! marker_quaternion rig = Some (OQuat q);
  wf_arc_position : ∃ v, h !! arc_position rig = Some (OVec v);
  wf_arc_quaternion : ∃ q, h !! arc_quaternion rig = Some (OQuat q);
  wf_controller_position : ∃ v, h !! controller_position rig = Some (OVec v);
  wf_controller_quaternion :
    ∃ q, h !! controller_quaternion rig = Some (OQuat q);
  wf_distinct :
    NoDup [gravity rig; marker_position rig; marker_quaternion rig;
           arc_position rig; arc_quaternion rig;
           controller_position rig; controller_quaternion rig]
}.

(** Where the marker is after [TeleportationArc.update]: on the point of
    a collision that is a place to land, else where it was. *)
Definition placed_position (rig : Rig) (collision : option Hit)
    (before : Vector3) : Vector3 :=
  match collision with
  | Some hit => if validateIntersection rig hit then hit_point hit else before
  | None => before
  end.

(** How the marker is turned after [TeleportationArc.update]: to the
    heading when it landed on a hit that has a normal, else as before. *)
Definition placed_quaternion (rig : Rig) (collision : option Hit)
    (angle : R) (before : Quaternion) : Quaternion :=
  match collision with
  | Some hit =>
      if validateIntersection rig hit then
        match hit_normal hit with
        | Some _ => Quat.setFromAxisAngle (mkVector3 0 1 0) angle
        | None => before
        end
      else before
  | None => before
  end.

(** [hit] is what a ray cast at [scene] reports first. *)
Definition first_hit_of (scene : Object3D) (hit : Hit) : Prop :=
  ∃ origin direction near far,
    head (raycast scene origin direction near far) = Some hit.

(** What happens to the world of one controller.  three.js delivers the
    render event and the connection events to the handlers; a handler
    that throws leaves the world as the exception found it.  Between
    the events the XR runtime moves the tracked controller and refreshes
    the gamepad of a connected one.  The second rig that [run] builds on
    the same session has a world of its own; its [setOffset] calls are
    not among these events, so the log lists the calls of this rig and
    nothing is said of the reference space that is active between
    them. *)
Inductive step (rig : Rig) (w : World) : World → Prop :=
| step_frame r w' :
    createController.update rig w = (r, w') → step rig w w'
| step_connected data r w' :
    ThreeXRController.handleControllerConnected data w = (r, w') →
    step rig w w'
| step_disconnected r w' :
    ThreeXRController.handleControllerDisconnected w = (r, w') →
    step rig w w'
| step_tracked p q :
    step rig w
      (set_store (<[controller_quaternion rig := OQuat q]>
                    (<[controller_position rig := OVec p]> (store w))) w)
| step_gamepad c g :
    connectedController w = Some c →
    step rig w
      (set_connectedController
         (Some (mkThreeXRConnectedController g (controllerMesh c))) w).

Inductive reachable (rig : Rig) (w0 : World) : World → Prop :=
| reachable_start : reachable rig w0 w0
| reachable_step w w' :
    reachable rig w0 w → step rig w w' → reachable rig w0 w'.

(** A [setOffset] call whose target is the point of a hit that a ray
    cast at [scene] reported first and that the rig accepts. *)
Definition lands_on_accepted_hit (rig : Rig) (scene : Object3D)
    (call : Vector3 * R) : Prop :=
  ∃ hit, first_hit_of scene hit ∧ validateIntersection rig hit = true ∧
         call.1 = hit_point hit.

(** What holds of every world the events reach from [w0]. *)
Record sound (rig : Rig) (w0 w : World) : Prop := mk_sound {
  sound_store : well_formed rig (store w);
  sound_house : house w = house w0;
  sound_marker :
    marker_visible w = true →
    isTeleporting w = true ∧
    ∃ hit, first_hit_of (house w0) hit ∧
           validateIntersection rig hit = true ∧
           store w !! marker_position rig = Some (OVec (hit_point hit));
  sound_calls :
    ∃ calls, setOffset_calls w = setOffset_calls w0 ++ calls ∧
             Forall (lands_on_accepted_hit rig (house w0)) calls
}.

(** The world after a handler has run, whether it returned or threw. *)
Definition after {A} (m : M World A) (w : World) : World := (m w).2.

(** ** A run that teleports

    A page whose house is [floor_scene], the rig that [createController]
    builds on it for the controller at 5 and 6, and the world it leaves;
    then a tracked-pointer controller connects with the stick pushed to
    [(0.6, 0)], one frame starts aiming, the next one aims at the floor,
    the stick goes back to rest and a last frame lets go. *)
Definition floor_world : World :=
  mkWorld example_objects false false [] false 0 None
    (NativeSpace "local-floor") floor_scene [].

Definition floor_rig : Rig :=
  mkRig 9 7 8 10 11 5 6 isGroundIntersection (NativeSpace "local-floor").

Definition floor_created : World :=
  mkWorld (example_objects
           ++ [OVec (mkVector3 0 0 0); OQuat Quat.identity;
               OVec (mkVector3 0 (-0.1) 0);
               OVec (mkVector3 0 0 0); OQuat Quat.identity])
    false true [] false 0 None (NativeSpace "local-floor") floor_scene [].

Definition pushed_stick : XRInputSource :=
  mkXRInputSource (Some (mkGamepad [0; 0; 0.6; 0] [])) "tracked-pointer".

Definition teleport_run : World :=
  after (createController.update floor_rig)
    (set_connectedController
       (Some (mkThreeXRConnectedController (mkGamepad [0; 0; 0; 0] [])
                TrackedPointerLine))
       (after (createController.update floor_rig)
          (after (createController.update floor_rig)
             (after (ThreeXRController.handleControllerConnected pushed_stick)
                floor_created)))).

(** The heading of that run: the stick at [(0.6, 0)], the controller
    not turned. *)
Definition teleport_run_heading : R :=
  Vector2.angle (- 0) (- (0.6)) + Euler.yaw_YXZ Quat.identity.

(** * Properties *)

(** ** Running the monad *)

Lemma bind_Ok {S A B} (m : M S A) (k : A → M S B) (s s' : S) (a : A) :
  m s = (Ok a, s') → bind m k s = k a s'.
Proof. intros E. unfold bind. by rewrite E. Qed.

Lemma bind_Throw {S A B} (m : M S A) (k : A → M S B) (s s' : S) (e : string) :
  m s = (Throw e, s') → bind m k s = (Throw e, s').
Proof. intros E. unfold bind. by rewrite E. Qed.

Tactic Notation "run" uconstr(lem) := erewrite (bind_Ok _ _ _ _ _ lem).

(** ** The store *)

Lemma preserves_refl h : preserves h h.
Proof. by intros l o. Qed.

Lemma preserves_trans h0 h1 h2 :
  preserves h0 h1 → preserves h1 h2 → preserves h0 h2.
Proof. intros H1 H2 l o E. auto. Qed.

Lemma preserves_app h o : preserves h (h ++ [o]).
Proof. intros l o' E. by apply lookup_app_l_Some. Qed.

(** A write to a location outside [h0] preserves [h0]. *)
Lemma preserves_insert h0 h l o :
  preserves h0 h → (length h0 ≤ l)%nat → preserves h0 (<[l := o]> h).
Proof.
  intros H L k o' E. rewrite list_lookup_insert_ne; [by apply H|].
  apply lookup_lt_Some in E. lia.
Qed.

Lemma lookup_new (h : heap) o : (h ++ [o]) !! length h = Some o.
Proof. rewrite lookup_app_r; [|lia]. by rewrite Nat.sub_diag. Qed.

Lemma lookup_written (h : heap) l o o' :
  h !! l = Some o' → <[l := o]> h !! l = Some o.
Proof. intros E. apply list_lookup_insert_eq. by eapply lookup_lt_Some. Qed.

Lemma get_Vector3_run h l v :
  h !! l = Some (OVec v) → get_Vector3 l h = (Ok v, h).
Proof. intros E. unfold get_Vector3. by rewrite E. Qed.

Lemma set_Vector3_run h l v v' :
  h !! l = Some (OVec v') → set_Vector3 l v h = (Ok tt, <[l := OVec v]> h).
Proof. intros E. unfold set_Vector3. by rewrite E. Qed.

Lemma get_Quaternion_run h l q :
  h !! l = Some (OQuat q) → get_Quaternion l h = (Ok q, h).
Proof. intros E. unfold get_Quaternion. by rewrite E. Qed.

Lemma set_Quaternion_run h l q q' :
  h !! l = Some (OQuat q') → set_Quaternion l q h = (Ok tt, <[l := OQuat q]> h).
Proof. intros E. unfold set_Quaternion. by rewrite E. Qed.

Lemma clone_run h this v :
  h !! this = Some (OVec v) →
  Vector3.clone this h = (Ok (length h), h ++ [OVec v]).
Proof.
  intros E. unfold Vector3.clone. by run (get_Vector3_run _ _ _ E).
Qed.

Lemma copy_run h this v a b :
  h !! this = Some (OVec a) → h !! v = Some (OVec b) →
  Vector3.copy this v h = (Ok tt, <[this := OVec b]> h).
Proof.
  intros Ea Eb. unfold Vector3.copy. run (get_Vector3_run _ _ _ Eb).
  by eapply set_Vector3_run.
Qed.

Lemma addScaledVector_run h this v s a b :
  h !! this = Some (OVec a) → h !! v = Some (OVec b) →
  Vector3.addScaledVector this v s h
  = (Ok tt, <[this := OVec (Vec.addScaled a b s)]> h).
Proof.
  intros Ea Eb. unfold Vector3.addScaledVector.
  run (get_Vector3_run _ _ _ Ea). run (get_Vector3_run _ _ _ Eb).
  by eapply set_Vector3_run.
Qed.

Lemma sub_run h this v a b :
  h !! this = Some (OVec a) → h !! v = Some (OVec b) →
  Vector3.sub this v h = (Ok tt, <[this := OVec (Vec.sub a b)]> h).
Proof.
  intros Ea Eb. unfold Vector3.sub.
  run (get_Vector3_run _ _ _ Ea). run (get_Vector3_run _ _ _ Eb).
  by eapply set_Vector3_run.
Qed.

Lemma negate_run h this a :
  h !! this = Some (OVec a) →
  Vector3.negate this h = (Ok tt, <[this := OVec (Vec.negate a)]> h).
Proof.
  intros Ea. unfold Vector3.negate. run (get_Vector3_run _ _ _ Ea).
  by eapply set_Vector3_run.
Qed.

Lemma normalize_run h this a :
  h !! this = Some (OVec a) →
  Vector3.normalize this h = (Ok tt, <[this := OVec (Vec.normalize a)]> h).
Proof.
  intros Ea. unfold Vector3.normalize. run (get_Vector3_run _ _ _ Ea).
  by eapply set_Vector3_run.
Qed.

Lemma distanceTo_run h this v a b :
  h !! this = Some (OVec a) → h !! v = Some (OVec b) →
  Vector3.distanceTo this v h = (Ok (Vec.distanceTo a b), h).
Proof.
  intros Ea Eb. unfold Vector3.distanceTo.
  run (get_Vector3_run _ _ _ Ea). by run (get_Vector3_run _ _ _ Eb).
Qed.

Lemma applyQuaternion_run h this q a r :
  h !! this = Some (OVec a) → h !! q = Some (OQuat r) →
  Vector3.applyQuaternion this q h
  = (Ok tt, <[this := OVec (Vec.applyQuaternion a r)]> h).
Proof.
  intros Ea Er. unfold Vector3.applyQuaternion.
  run (get_Vector3_run _ _ _ Ea). run (get_Quaternion_run _ _ _ Er).
  by eapply set_Vector3_run.
Qed.

Lemma Quaternion_copy_run h this q a b :
  h !! this = Some (OQuat a) → h !! q = Some (OQuat b) →
  Quaternion.copy this q h = (Ok tt, <[this := OQuat b]> h).
Proof.
  intros Ea Eb. unfold Quaternion.copy. run (get_Quaternion_run _ _ _ Eb).
  by eapply set_Quaternion_run.
Qed.

Lemma setFromAxisAngle_run h this axis angle a :
  h !! this = Some (OQuat a) →
  Quaternion.setFromAxisAngle this axis angle h
  = (Ok tt, <[this := OQuat (Quat.setFromAxisAngle axis angle)]> h).
Proof.
  intros Ea. unfold Quaternion.setFromAxisAngle.
  run (get_Quaternion_run _ _ _ Ea). by eapply set_Quaternion_run.
Qed.

(** ** The arc caster against the reference algorithm *)

Lemma alloc_intersections_run hits : ∀ h,
  ∃ xs h', Raycaster.alloc_intersections hits h = (Ok xs, h') ∧
           preserves h h' ∧ Forall2 (represents h') xs hits.
Proof.
  induction hits as [|hit rest IH]; intros h; simpl.
  - exists [], h. split; [done|]. split; [apply preserves_refl|constructor].
  - destruct (IH (h ++ [OVec (hit_point hit)])) as (xs & h' & E & Hp & Hr).
    eexists _, h'. unfold new_obj at 1. unfold bind at 1.
    run E. split; [reflexivity|].
    split; [eapply preserves_trans; [apply preserves_app|done]|].
    constructor; [|done].
    repeat split. simpl. apply Hp, lookup_new.
Qed.

Lemma Raycaster_intersectObject_run h ray near far object o d :
  h !! origin ray = Some (OVec o) → h !! direction ray = Some (OVec d) →
  ∃ xs h', Raycaster.intersectObject ray near far object h = (Ok xs, h') ∧
           preserves h h' ∧
           Forall2 (represents h') xs (raycast object o d near far).
Proof.
  intros Eo Ed. unfold Raycaster.intersectObject.
  run (get_Vector3_run _ _ _ Eo). run (get_Vector3_run _ _ _ Ed).
  apply alloc_intersections_run.
Qed.

Lemma Forall2_last {A B} (R : A → B → Prop) (l : list A) (k : list B) :
  Forall2 R l k →
  match last l, last k with
  | Some a, Some b => R a b
  | None, None => True
  | _, _ => False
  end.
Proof.
  induction 1 as [|a b l k Hab Hlk IH]; [done|].
  destruct Hlk as [|a' b' l' k' ? ?]; [done|]. exact IH.
Qed.

Ltac solve_lookup :=
  match goal with
  | |- <[?l := _]> _ !! ?l = Some _ => eapply lookup_written; solve_lookup
  | |- <[_ := _]> _ !! _ = Some _ =>
      rewrite list_lookup_insert_ne by (congruence || lia); solve_lookup
  | |- _ => eassumption
  end.

(** The invariant survives any change of the store that keeps the objects
    other than the scratch vectors. *)
Lemma loop_inv_transfer h0 h h' p v ray P V P' V' trace samples :
  loop_inv h0 h p v ray P V trace samples →
  (∀ l o, l ≠ p → l ≠ v → l ≠ origin ray → l ≠ direction ray →
          h !! l = Some o → h' !! l = Some o) →
  h' !! p = Some (OVec P') → h' !! v = Some (OVec V') →
  (∃ a, h' !! origin ray = Some (OVec a)) →
  (∃ a, h' !! direction ray = Some (OVec a)) →
  loop_inv h0 h' p v ray P' V' trace samples.
Proof.
  intros [Hp _ _ _ _ Hf Hd Ht] Hframe Ep Ev Eo Ed.
  constructor; try done.
  - intros l o E. pose proof (lookup_lt_Some _ _ _ E).
    apply Hframe; [lia..|]. by apply Hp.
  - eapply Forall2_impl; [exact Ht|]. intros l s (E & ? & ? & ? & ?).
    repeat split; try done. by apply Hframe.
Qed.

(** Pushing a fresh clone on the trace. *)
Lemma loop_inv_push h0 h p v ray P V trace samples s :
  loop_inv h0 h p v ray P V trace samples →
  loop_inv h0 (h ++ [OVec s]) p v ray P V
    (trace ++ [length h]) (samples ++ [s]).
Proof.
  intros [Hp Ep Ev [a Eo] [b Ed] Hf Hd Ht].
  constructor; try done.
  - eapply preserves_trans; [exact Hp|apply preserves_app].
  - by apply lookup_app_l_Some.
  - by apply lookup_app_l_Some.
  - exists a. by apply lookup_app_l_Some.
  - exists b. by apply lookup_app_l_Some.
  - apply Forall2_app.
    + eapply Forall2_impl; [exact Ht|]. intros l s' (E & ? & ? & ? & ?).
      repeat split; try done. by apply lookup_app_l_Some.
    + constructor; [|constructor].
      apply lookup_lt_Some in Ep, Ev, Eo, Ed.
      split; [apply lookup_new|lia].
Qed.

Lemma loop_inv_points h0 h p v ray P V trace samples :
  loop_inv h0 h p v ray P V trace samples →
  Forall2 (points_to h) trace samples.
Proof.
  intros [_ _ _ _ _ _ _ Ht]. eapply Forall2_impl; [exact Ht|].
  by intros l s (E & _).
Qed.

Lemma Forall2_points_preserves h h' trace samples :
  preserves h h' → Forall2 (points_to h) trace samples →
  Forall2 (points_to h') trace samples.
Proof.
  intros Hp Ht. eapply Forall2_impl; [exact Ht|]. intros l s E. by apply Hp.
Qed.

(** The loop computes what the reference algorithm computes, and writes
    only to objects it made itself. *)
Lemma loop_run object g G n : ∀ h0 h p v ray P V trace samples,
  h0 !! g = Some (OVec G) →
  loop_inv h0 h p v ray P V trace samples →
  ∃ h' trace' c',
    Arccaster.loop n g object p v ray trace h = (Ok (trace', c'), h') ∧
    preserves h0 h' ∧
    Forall2 (points_to h') trace'
      (Reference.simulate object G n P V samples).1 ∧
    collision_matches h' c' (Reference.simulate object G n P V samples).2.
Proof.
  induction n as [|n IH]; intros h0 h p v ray P V trace samples Eg Inv.
  - exists h, trace, None. simpl. split; [done|].
    split; [by destruct Inv|]. split; [by eapply loop_inv_points|done].
  - pose proof Inv as [Hp Ep Ev [a Eo] [b Ed] Hf Hd Ht].
    destruct Hd as (? & ? & ? & ? & ? & ?).
    assert (Eg' : h !! g = Some (OVec G)) by by apply Hp.
    pose proof (lookup_lt_Some _ _ _ Eg) as Lg.
    set (V' := Vec.addScaled V G 0.2).
    set (P' := Vec.addScaled P V' 0.2).
    cbn [Arccaster.loop Reference.simulate]. fold V' P'.
    unfold Arccaster.step.
    run (addScaledVector_run _ _ _ _ _ _ Ev Eg'). fold V'.
    set (h1 := <[v := OVec V']> h).
    assert (E1p : h1 !! p = Some (OVec P)) by (subst h1; solve_lookup).
    assert (E1v : h1 !! v = Some (OVec V')) by (subst h1; solve_lookup).
    run (addScaledVector_run _ _ _ _ _ _ E1p E1v). fold P'.
    set (h2 := <[p := OVec P']> h1).
    pose proof (Forall2_last _ _ _ Ht) as Hlast.
    destruct (last trace) as [lastPosition|] eqn:Elt;
      destruct (last samples) as [previous|] eqn:Els; try done.
    + destruct Hlast as (El & ? & ? & ? & ?).
      assert (E2l : h2 !! lastPosition = Some (OVec previous))
        by (subst h2 h1; solve_lookup).
      assert (E2o : h2 !! origin ray = Some (OVec a))
        by (subst h2 h1; solve_lookup).
      set (h3 := <[origin ray := OVec previous]> h2).
      assert (E3d : h3 !! direction ray = Some (OVec b))
        by (subst h3 h2 h1; solve_lookup).
      assert (E3p : h3 !! p = Some (OVec P'))
        by (subst h3 h2 h1; solve_lookup).
      set (h4 := <[direction ray := OVec P']> h3).
      assert (E4d : h4 !! direction ray = Some (OVec P'))
        by (subst h4; solve_lookup).
      assert (E4l : h4 !! lastPosition = Some (OVec previous))
        by (subst h4 h3; solve_lookup).
      set (h5 := <[direction ray := OVec (Vec.sub P' previous)]> h4).
      assert (E5d : h5 !! direction ray = Some (OVec (Vec.sub P' previous)))
        by (subst h5; solve_lookup).
      set (D := Vec.normalize (Vec.sub P' previous)).
      set (h6 := <[direction ray := OVec D]> h5).
      assert (E6l : h6 !! lastPosition = Some (OVec previous))
        by (subst h6 h5; solve_lookup).
      assert (E6p : h6 !! p = Some (OVec P'))
        by (subst h6 h5 h4; solve_lookup).
      assert (E6o : h6 !! origin ray = Some (OVec previous))
        by (subst h6 h5 h4 h3; solve_lookup).
      assert (E6d : h6 !! direction ray = Some (OVec D))
        by (subst h6; solve_lookup).
      assert (E6v : h6 !! v = Some (OVec V'))
        by (subst h6 h5 h4 h3 h2; solve_lookup).
      assert (Inv6 : loop_inv h0 h6 p v ray P' V' trace samples).
      { eapply loop_inv_transfer; [exact Inv|..]; eauto.
        intros l o ? ? ? ? E. subst h6 h5 h4 h3 h2 h1. solve_lookup. }
      destruct (Raycaster_intersectObject_run h6 ray 0
                  (Vec.distanceTo previous P') object _ _ E6o E6d)
        as (xs & h7 & Ex & Hp7 & Hx).
      erewrite (bind_Ok _ _ h2).
      2:{ run (copy_run _ _ _ _ _ E2o E2l). fold h3.
          run (copy_run _ _ _ _ _ E3d E3p). fold h4.
          run (sub_run _ _ _ _ _ E4d E4l). fold h5.
          run (normalize_run _ _ _ E5d). fold D h6.
          run (distanceTo_run _ _ _ _ _ E6l E6p).
          run Ex. reflexivity. }
      unfold Reference.nearest_hit. fold D.
      destruct Hx as [|i hit xs hits Hi Hrest]; simpl.
      * assert (Inv7 : loop_inv h0 h7 p v ray P' V' trace samples).
        { eapply loop_inv_transfer; [exact Inv6|..]; eauto. }
        destruct (IH h0 (h7 ++ [OVec P']) p v ray P' V'
                    (trace ++ [length h7]) (samples ++ [P']) Eg)
          as (h' & trace' & c' & E & ? & ? & ?).
        { by apply loop_inv_push. }
        exists h', trace', c'. split; [|done].
        run (clone_run _ _ _ (Hp7 _ _ E6p)). exact E.
      * exists h7, (trace ++ [point i]), (Some i). split; [done|].
        split; [eapply preserves_trans; [by destruct Inv6|done]|].
        split; [|done]. apply Forall2_app.
        -- eapply Forall2_points_preserves; [exact Hp7|].
           by eapply loop_inv_points.
        -- constructor; [|constructor]. by destruct Hi as (_ & ? & _).
    + assert (E2p : h2 !! p = Some (OVec P')) by (subst h2; solve_lookup).
      assert (Inv2 : loop_inv h0 h2 p v ray P' V' trace samples).
      { eapply loop_inv_transfer; [exact Inv|..].
        - intros l o ? ? ? ? E. subst h2 h1. solve_lookup.
        - done.
        - subst h2 h1. solve_lookup.
        - exists a. subst h2 h1. solve_lookup.
        - exists b. subst h2 h1. solve_lookup. }
      destruct (IH h0 (h2 ++ [OVec P']) p v ray P' V'
                  (trace ++ [length h2]) (samples ++ [P']) Eg)
        as (h' & trace' & c' & E & ? & ? & ?).
      { by apply loop_inv_push. }
      exists h', trace', c'. split; [|done].
      erewrite (bind_Ok _ _ h2); [|reflexivity]. cbv iota.
      run (clone_run _ _ _ E2p). exact E.
Qed.

Ltac heap_lookup :=
  repeat first
    [ apply lookup_new
    | eapply lookup_written
    | apply lookup_app_l_Some
    | rewrite list_lookup_insert_ne
        by (repeat (rewrite length_app || rewrite length_insert); simpl; lia)
    | eassumption ].

Ltac heap_lengths :=
  repeat match goal with
         | E : _ !! _ = Some _ |- _ => apply lookup_lt_Some in E
         end;
  repeat (rewrite length_app || rewrite length_insert); simpl; lia.

(** [Arccaster.intersectObject] returns, computes the reference
    trajectory, and leaves every object of the caller's store as it
    was. *)
Lemma intersectObject_run h g G object p P r Q :
  h !! g = Some (OVec G) → h !! p = Some (OVec P) → h !! r = Some (OQuat Q) →
  ∃ h' trace c,
    Arccaster.intersectObject g object p r h = (Ok (trace, c), h') ∧
    preserves h h' ∧
    Forall2 (points_to h') trace (Reference.trajectory G object P Q).1 ∧
    collision_matches h' c (Reference.trajectory G object P Q).2.
Proof.
  intros Eg Ep Er. unfold Arccaster.intersectObject, Reference.trajectory.
  run (clone_run _ _ _ Ep).
  unfold Vector3.new at 1, new_obj at 1. unfold bind at 1.
  set (h1 := h ++ [OVec P]).
  set (h2 := h1 ++ [OVec (mkVector3 0 0 (-1))]).
  assert (E2v : h2 !! length h1 = Some (OVec Reference.forward))
    by (subst h2; heap_lookup).
  assert (E2r : h2 !! r = Some (OQuat Q)) by (subst h2 h1; heap_lookup).
  run (applyQuaternion_run _ _ _ _ _ E2v E2r).
  set (V0 := Vec.applyQuaternion Reference.forward Q).
  set (h3 := <[length h1 := OVec V0]> h2).
  assert (E3p : h3 !! length h = Some (OVec P)).
  { subst h3 h2 h1. heap_lookup. }
  run (clone_run _ _ _ E3p).
  unfold Ray.new, Vector3.new, new_obj. unfold bind at 1. unfold bind at 1.
  unfold bind at 1. unfold ret at 1.
  set (h4 := h3 ++ [OVec P]).
  set (h5 := h4 ++ [OVec (mkVector3 0 0 0)]).
  set (h6 := h5 ++ [OVec (mkVector3 0 0 (-1))]).
  apply (loop_run object g G Arccaster.steps h h6); [done|].
  constructor; cbn [origin direction].
  - subst h6 h5 h4 h3 h2 h1. intros l o E.
    pose proof (lookup_lt_Some _ _ _ E). heap_lookup.
  - subst h6 h5 h4. heap_lookup.
  - subst h6 h5 h4 h3. heap_lookup.
  - eexists. subst h6 h5. heap_lookup.
  - eexists. subst h6. heap_lookup.
  - subst h5 h4 h3 h2 h1. heap_lengths.
  - subst h5 h4 h3 h2 h1. heap_lengths.
  - constructor; [|constructor]. split.
    + subst h6 h5 h4. heap_lookup.
    + subst h5 h4 h3 h2 h1. heap_lengths.
Qed.

(** C1. For every gravity vector, target scene, starting position and
    starting orientation, [Arccaster.intersectObject] returns, and what it
    returns is the trajectory of the reference algorithm: the samples it
    holds are the reference samples, in order, and its intersection is the
    reference collision (none when the 50 steps pass without a hit). *)
Theorem intersectObject_follows_reference
    (h : heap) (g p r : loc) (G P : Vector3) (Q : Quaternion)
    (object : Object3D) :
  h !! g = Some (OVec G) → h !! p = Some (OVec P) → h !! r = Some (OQuat Q) →
  ∃ h' trace c,
    Arccaster.intersectObject g object p r h = (Ok (trace, c), h') ∧
    Forall2 (points_to h') trace (Reference.trajectory G object P Q).1 ∧
    collision_matches h' c (Reference.trajectory G object P Q).2.
Proof.
  intros Eg Ep Er.
  destruct (intersectObject_run h g G object p P r Q Eg Ep Er)
    as (h' & trace & c & E & _ & Ht & Hc).
  by exists h', trace, c.
Qed.

Lemma intersectObject_follows_reference_witness :
  ∃ h' trace c,
    Arccaster.intersectObject 0 empty_scene 1 2
      (example_store (mkVector3 0 (-0.1) 0) (mkVector3 0 1 0) Quat.identity)
    = (Ok (trace, c), h') ∧
    Forall2 (points_to h') trace
      (Reference.trajectory (mkVector3 0 (-0.1) 0) empty_scene
         (mkVector3 0 1 0) Quat.identity).1 ∧
    collision_matches h' c
      (Reference.trajectory (mkVector3 0 (-0.1) 0) empty_scene
         (mkVector3 0 1 0) Quat.identity).2.
Proof.
  apply (intersectObject_follows_reference
           (example_store (mkVector3 0 (-0.1) 0) (mkVector3 0 1 0)
              Quat.identity) 0%nat 1%nat 2%nat); reflexivity.
Defined.

(** ** Length and growth of the sampled path *)

Lemma distanceTo_nonneg a b : 0 <= Vec.distanceTo a b.
Proof. apply sqrt_pos. Qed.

Lemma pathLength_take_step samples : ∀ k a b,
  samples !! k = Some a → samples !! S k = Some b →
  pathLength (take (S (S k)) samples)
  = pathLength (take (S k) samples) + Vec.distanceTo a b.
Proof.
  induction samples as [|s0 rest IH]; intros k a b Ea Eb; [done|].
  destruct rest as [|s1 rest]; [done|].
  destruct k as [|k].
  - simpl in Ea, Eb. simplify_eq. simpl. destruct rest; simpl; lra.
  - specialize (IH k a b Ea Eb).
    change (take (S (S (S k))) (s0 :: s1 :: rest))
      with (s0 :: take (S (S k)) (s1 :: rest)).
    change (take (S (S k)) (s0 :: s1 :: rest))
      with (s0 :: take (S k) (s1 :: rest)).
    change (take (S (S k)) (s1 :: rest)) with (s1 :: take (S k) rest) in *.
    change (take (S k) (s1 :: rest)) with (s1 :: take k rest) in *.
    cbn [pathLength] in *. lra.
Qed.

Lemma pathLength_take_mono samples k :
  pathLength (take (S k) samples) <= pathLength (take (S (S k)) samples).
Proof.
  destruct (samples !! k) as [a|] eqn:Ea.
  - destruct (samples !! S k) as [b|] eqn:Eb.
    + rewrite (pathLength_take_step _ _ _ _ Ea Eb).
      pose proof (distanceTo_nonneg a b). lra.
    + apply lookup_ge_None in Eb. rewrite !take_ge by lia. lra.
  - apply lookup_ge_None in Ea. rewrite !take_ge by lia. lra.
Qed.

Lemma distanceTo_step_pos a V :
  V ≠ Vec.zero → 0 < Vec.distanceTo a (Vec.addScaled a V 0.2).
Proof.
  intros HV. apply sqrt_lt_R0. unfold Vec.distanceToSquared. simpl.
  destruct V as [u v w]. simpl.
  assert (N : u ≠ 0 ∨ v ≠ 0 ∨ w ≠ 0).
  { destruct (Req_dec u 0) as [->|]; [|by left].
    destruct (Req_dec v 0) as [->|]; [|by right; left].
    destruct (Req_dec w 0) as [->|]; [|by right; right].
    by destruct HV. }
  assert (0 <= u * u ∧ 0 <= v * v ∧ 0 <= w * w) as (? & ? & ?)
    by (repeat split; nra).
  destruct N as [N|[N|N]]; nra.
Qed.

Lemma simulate_length scene G n : ∀ P V samples,
  (length (Reference.simulate scene G n P V samples).1
   ≤ length samples + n)%nat.
Proof.
  induction n as [|n IH]; intros P V samples; simpl; [lia|].
  destruct (last samples) as [previous|].
  - destruct (Reference.nearest_hit _ _ _).
    + simpl. rewrite length_app. simpl. lia.
    + etrans; [apply IH|]. rewrite length_app. simpl. lia.
  - etrans; [apply IH|]. rewrite length_app. simpl. lia.
Qed.

Lemma simulate_prefix scene G n : ∀ P V samples,
  ∃ rest, (Reference.simulate scene G n P V samples).1 = samples ++ rest.
Proof.
  induction n as [|n IH]; intros P V samples; simpl.
  - exists []. by rewrite app_nil_r.
  - destruct (last samples) as [previous|].
    + destruct (Reference.nearest_hit _ _ _).
      * by eexists.
      * destruct (IH (Vec.addScaled P (Vec.addScaled V G 0.2) 0.2)
                    (Vec.addScaled V G 0.2)
                    (samples ++ [Vec.addScaled P (Vec.addScaled V G 0.2) 0.2]))
          as [rest ->].
        rewrite <- app_assoc. by eexists.
    + destruct (IH (Vec.addScaled P (Vec.addScaled V G 0.2) 0.2)
                  (Vec.addScaled V G 0.2)
                  (samples ++ [Vec.addScaled P (Vec.addScaled V G 0.2) 0.2]))
        as [rest ->].
      rewrite <- app_assoc. by eexists.
Qed.

(** One step of the reference algorithm when the segment hits nothing. *)
Lemma simulate_step_no_hit scene G n P V samples previous :
  Reference.nearest_hit scene previous
    (Vec.addScaled P (Vec.addScaled V G 0.2) 0.2) = None →
  Reference.simulate scene G (S n) P V (samples ++ [previous])
  = Reference.simulate scene G n
      (Vec.addScaled P (Vec.addScaled V G 0.2) 0.2) (Vec.addScaled V G 0.2)
      (samples ++ [previous] ++ [Vec.addScaled P (Vec.addScaled V G 0.2) 0.2]).
Proof.
  intros E. cbn [Reference.simulate]. rewrite last_snoc, E.
  by rewrite <- app_assoc.
Qed.

Lemma simulate_free_flight scene G V0 n : ∀ P V samples,
  last samples = Some P →
  V = velocity_after G V0 (length samples - 1) →
  free_flight G V0 samples None →
  free_flight G V0 (Reference.simulate scene G n P V samples).1
    (Reference.simulate scene G n P V samples).2.
Proof.
  induction n as [|n IH]; intros P V samples Hl HV Hf; [done|].
  cbn [Reference.simulate]. rewrite Hl.
  assert (Hlen : (0 < length samples)%nat)
    by (destruct samples; [done|simpl; lia]).
  destruct (Reference.nearest_hit _ _ _) as [hit|].
  - cbn [fst snd]. intros k a b Ea Eb [?|Hk]; [done|].
    rewrite length_app in Hk. simpl in Hk.
    rewrite lookup_app_l in Ea, Eb by lia. eapply Hf; eauto.
  - set (V' := Vec.addScaled V G 0.2).
    set (P' := Vec.addScaled P V' 0.2).
    assert (HV' : V' = velocity_after G V0 (length samples)).
    { subst V'. rewrite HV. unfold velocity_after.
      destruct (length samples) as [|m]; [lia|].
      simpl. by rewrite Nat.sub_0_r. }
    apply IH.
    + by rewrite last_snoc.
    + rewrite length_app. simpl.
      by replace (length samples + 1 - 1)%nat with (length samples) by lia.
    + intros k a b Ea Eb _.
      destruct (decide (S k < length samples)%nat) as [Hk|Hk].
      * rewrite lookup_app_l in Ea, Eb by lia. eapply Hf; eauto.
      * assert (S k = length samples) as Ek.
        { apply lookup_lt_Some in Eb. rewrite length_app in Eb.
          simpl in Eb. lia. }
        rewrite Ek in Eb. rewrite lookup_app_r in Eb by lia.
        rewrite Nat.sub_diag in Eb. simpl in Eb. simplify_eq.
        rewrite lookup_app_l in Ea by lia.
        rewrite last_lookup in Hl.
        replace (Nat.pred (length samples)) with k in Hl by lia.
        rewrite Ek, <- HV'. congruence.
Qed.

Lemma trajectory_free_flight G scene P Q :
  free_flight G (Vec.applyQuaternion Reference.forward Q)
    (Reference.trajectory G scene P Q).1 (Reference.trajectory G scene P Q).2.
Proof.
  apply simulate_free_flight; [done..|].
  intros k a b Ea Eb _. by destruct k.
Qed.

Lemma trajectory_length G scene P Q :
  (length (Reference.trajectory G scene P Q).1 ≤ 51)%nat.
Proof.
  unfold Reference.trajectory.
  etrans; [apply simulate_length|]. simpl. lia.
Qed.

Lemma collision_matches_None h r : collision_matches h None r → r = None.
Proof. by destruct r. Qed.

Lemma free_flight_grows G V0 samples c :
  free_flight G V0 samples c →
  ∀ k, (c = None ∧ S k < length samples ∨ S (S k) < length samples)%nat →
       velocity_after G V0 (S k) ≠ Vec.zero →
       pathLength (take (S k) samples) < pathLength (take (S (S k)) samples).
Proof.
  intros Hf k Hk HV.
  assert (Hk' : (S k < length samples)%nat) by lia.
  destruct (lookup_lt_is_Some_2 samples k) as [a Ea]; [lia|].
  destruct (lookup_lt_is_Some_2 samples (S k)) as [b Eb]; [lia|].
  rewrite (pathLength_take_step _ _ _ _ Ea Eb).
  assert (Hb : b = Vec.addScaled a (velocity_after G V0 (S k)) 0.2).
  { apply (Hf k a b Ea Eb). destruct Hk as [[-> _]|Hk]; [by left|by right]. }
  rewrite Hb. pose proof (distanceTo_step_pos a _ HV). lra.
Qed.

(** C5, as amended.  For every gravity vector and starting orientation
    the returned sample sequence has at most 51 points, its cumulative
    path length never decreases, and it grows strictly across every
    free-flight step whose velocity, after the gravity update of that
    step, is not zero. *)
Theorem trajectory_bounded_and_growing
    (h : heap) (g p r : loc) (G P : Vector3) (Q : Quaternion)
    (object : Object3D) :
  h !! g = Some (OVec G) → h !! p = Some (OVec P) → h !! r = Some (OQuat Q) →
  ∃ h' trace c samples,
    Arccaster.intersectObject g object p r h = (Ok (trace, c), h') ∧
    Forall2 (points_to h') trace samples ∧
    (length samples ≤ 51)%nat ∧
    (∀ k, pathLength (take (S k) samples)
          <= pathLength (take (S (S k)) samples)) ∧
    (∀ k, (c = None ∧ S k < length samples ∨ S (S k) < length samples)%nat →
          velocity_after G (Vec.applyQuaternion Reference.forward Q) (S k)
          ≠ Vec.zero →
          pathLength (take (S k) samples)
          < pathLength (take (S (S k)) samples)).
Proof.
  intros Eg Ep Er.
  destruct (intersectObject_run h g G object p P r Q Eg Ep Er)
    as (h' & trace & c & E & _ & Ht & Hc).
  exists h', trace, c, (Reference.trajectory G object P Q).1.
  split; [exact E|]. split; [exact Ht|].
  split; [apply trajectory_length|].
  split; [intros k; apply pathLength_take_mono|].
  intros k Hk.
  apply (free_flight_grows G _ _ _ (trajectory_free_flight G object P Q)).
  destruct Hk as [[-> Hk]|Hk]; [left|by right].
  split; [|exact Hk]. by eapply collision_matches_None.
Qed.

(** Forward flight without gravity through an empty scene: every step
    has the velocity [(0,0,-1)]. *)
Lemma trajectory_bounded_and_growing_witness :
  ∃ h' trace c samples,
    Arccaster.intersectObject 0 empty_scene 1 2
      (example_store Vec.zero Vec.zero Quat.identity)
    = (Ok (trace, c), h') ∧
    Forall2 (points_to h') trace samples ∧
    (length samples ≤ 51)%nat ∧
    (∀ k, pathLength (take (S k) samples)
          <= pathLength (take (S (S k)) samples)) ∧
    (∀ k, (c = None ∧ S k < length samples ∨ S (S k) < length samples)%nat →
          velocity_after Vec.zero
            (Vec.applyQuaternion Reference.forward Quat.identity) (S k)
          ≠ Vec.zero →
          pathLength (take (S k) samples)
          < pathLength (take (S (S k)) samples)).
Proof.
  apply (trajectory_bounded_and_growing
           (example_store Vec.zero Vec.zero Quat.identity) 0%nat 1%nat 2%nat
           Vec.zero Vec.zero Quat.identity empty_scene);
    reflexivity.
Defined.

(** C5 as stated fails: with gravity [(0,0,5)] and the identity
    orientation the first gravity update cancels the velocity, the second
    sample is the first one again, and the path length does not grow
    from the first sample to the second. *)
Lemma trajectory_growth_counterexample :
  ∃ h' trace c samples,
    Arccaster.intersectObject 0 empty_scene 1 2
      (example_store (mkVector3 0 0 5) Vec.zero Quat.identity)
    = (Ok (trace, c), h') ∧
    Forall2 (points_to h') trace samples ∧
    ¬ path_strictly_grows samples.
Proof.
  set (G := mkVector3 0 0 5).
  destruct (intersectObject_run (example_store G Vec.zero Quat.identity)
              0%nat G empty_scene 1%nat Vec.zero 2%nat Quat.identity
              eq_refl eq_refl eq_refl)
    as (h' & trace & c & E & _ & Ht & _).
  exists h', trace, c, (Reference.trajectory G empty_scene Vec.zero
                          Quat.identity).1.
  split; [done|]. split; [done|].
  unfold Reference.trajectory.
  rewrite (simulate_step_no_hit empty_scene G 49 _ _ [] Vec.zero eq_refl).
  set (V' := Vec.addScaled _ G 0.2).
  set (P' := Vec.addScaled Vec.zero V' 0.2).
  assert (EP : P' = Vec.zero).
  { subst P' V' G. unfold Vec.addScaled, Vec.applyQuaternion, Vec.zero,
      Reference.forward, Quat.identity. simpl. f_equal; lra. }
  destruct (simulate_prefix empty_scene G 49 P' V' ([] ++ [Vec.zero] ++ [P']))
    as [rest ->].
  rewrite EP. intros Hgrow. specialize (Hgrow 0%nat).
  simpl in Hgrow. unfold Vec.distanceTo, Vec.distanceToSquared in Hgrow.
  simpl in Hgrow.
  replace ((0 - 0) * (0 - 0) + (0 - 0) * (0 - 0) + (0 - 0) * (0 - 0))
    with 0 in Hgrow by lra.
  rewrite sqrt_0 in Hgrow.
  assert (0 < 0 + 0); [apply Hgrow; lia|lra].
Qed.

(** ** Running world computations *)

Lemma on_store_bind {A B} (m : M heap A) (k : A → M World B) w a h' :
  m (store w) = (Ok a, h') →
  bind (on_store m) k w = k a (set_store h' w).
Proof. intros E. unfold bind, on_store. by rewrite E. Qed.

Lemma modify_bind {S B} (f : S → S) (k : unit → M S B) s :
  bind (modify f) k s = k tt (f s).
Proof. done. Qed.

Lemma gets_bind {S A B} (f : S → A) (k : A → M S B) s :
  bind (gets f) k s = k (f s) s.
Proof. done. Qed.

Lemma bind_assoc {S A B C} (m : M S A) (f : A → M S B) (g : B → M S C) s :
  bind (bind m f) g s = bind m (λ a, bind (f a) g) s.
Proof. unfold bind. by destruct (m s) as [[a|e] s']. Qed.

Lemma ret_bind {S A B} (a : A) (k : A → M S B) s :
  bind (ret a) k s = k a s.
Proof. done. Qed.

Ltac wsimpl :=
  cbn [store marker_visible line_visible line_geometry isTeleporting
       teleportationAngle connectedController referenceSpace house
       setOffset_calls set_store set_marker_visible set_line_visible
       set_line_geometry set_isTeleporting set_teleportationAngle
       set_connectedController set_referenceSpace set_house
       set_setOffset_calls] in *.

Tactic Notation "wrun" uconstr(lem) :=
  rewrite ?bind_assoc;
  match goal with
  | |- context [bind (on_store ?m) ?k ?w] =>
      erewrite (on_store_bind m k w _ _ lem)
  end; wsimpl.

Ltac wpure :=
  rewrite ?bind_assoc, ?modify_bind, ?gets_bind, ?ret_bind; wsimpl.

(** ** Rebasing the reference space *)

Lemma yaw_quaternion_unit angle :
  Quat.length (Quat.setFromAxisAngle yAxis angle) = 1.
Proof.
  unfold Quat.length, Quat.setFromAxisAngle, yAxis. simpl.
  pose proof (sin2_cos2 (angle / 2)) as H. unfold Rsqr in H.
  replace (0 * sin (angle / 2) * (0 * sin (angle / 2))
           + 1 * sin (angle / 2) * (1 * sin (angle / 2))
           + 0 * sin (angle / 2) * (0 * sin (angle / 2))
           + cos (angle / 2) * cos (angle / 2)) with 1 by lra.
  apply sqrt_1.
Qed.

Lemma XRRigidTransform_new_unit {S} (p : Vector3) (q : Quaternion) (s : S) :
  Quat.length q = 1 →
  XRRigidTransform.new p q s = (Ok (mkXRRigidTransform p q), s).
Proof.
  intros E. unfold XRRigidTransform.new. rewrite E.
  destruct (decide (1 = 0)) as [N|_]; [lra|].
  unfold ret. do 3 f_equal. destruct q. simpl. f_equal; lra.
Qed.

(** [setOffset] returns; it installs the base space offset by
    [offsetOf P angle], records the call, and leaves every object of the
    caller's store as it was. *)
Lemma setOffset_run rig w _position P angle :
  store w !! _position = Some (OVec P) →
  ∃ h', preserves (store w) h' ∧
    ThreeXRSession.setOffset rig _position angle w
    = (Ok tt,
       set_referenceSpace
         (OffsetSpace (baseReferenceSpace rig) (offsetOf P angle))
         (set_store h'
            (set_setOffset_calls (setOffset_calls w ++ [(P, angle)]) w))).
Proof.
  destruct w as [h mv lv lg it ta cc rs ho calls]. wsimpl. intros EP.
  set (q := Quat.setFromAxisAngle yAxis (- angle)).
  set (h1 := h ++ [OQuat Quat.identity]).
  set (h2 := <[length h := OQuat q]> h1).
  set (h3 := h2 ++ [OVec (mkVector3 0 0 0)]).
  set (h4 := <[length h2 := OVec P]> h3).
  set (h5 := <[length h2 := OVec (Vec.negate P)]> h4).
  set (h6 := <[length h2 := OVec (Vec.applyQuaternion (Vec.negate P) q)]> h5).
  assert (L2 : length h2 = S (length h)).
  { subst h2 h1. rewrite length_insert, length_app. simpl. lia. }
  assert (E1 : h1 !! length h = Some (OQuat Quat.identity))
    by (subst h1; heap_lookup).
  assert (E3 : h3 !! length h2 = Some (OVec (mkVector3 0 0 0)))
    by (subst h3; heap_lookup).
  assert (E3P : h3 !! _position = Some (OVec P)).
  { pose proof (lookup_lt_Some _ _ _ EP). subst h3 h2 h1. heap_lookup. }
  assert (E4 : h4 !! length h2 = Some (OVec P)) by (subst h4; heap_lookup).
  assert (E5 : h5 !! length h2 = Some (OVec (Vec.negate P)))
    by (subst h5; heap_lookup).
  assert (E5q : h5 !! length h = Some (OQuat q)).
  { subst h5 h4 h3. rewrite !list_lookup_insert_ne by lia.
    subst h2. heap_lookup. }
  assert (E6 : h6 !! length h2
               = Some (OVec (Vec.applyQuaternion (Vec.negate P) q)))
    by (subst h6; heap_lookup).
  assert (E6q : h6 !! length h = Some (OQuat q)).
  { subst h6. rewrite list_lookup_insert_ne by lia. done. }
  exists h6. split.
  { subst h6 h5 h4. do 3 (apply preserves_insert; [|lia]).
    subst h3 h2. eapply preserves_trans; [|apply preserves_app].
    apply preserves_insert; [|lia]. subst h1. apply preserves_app. }
  unfold ThreeXRSession.setOffset.
  wrun (get_Vector3_run _ _ _ EP). wpure.
  unfold Quaternion.new, Vector3.new.
  erewrite (on_store_bind (new_obj _)); [|reflexivity]. wsimpl. fold h1.
  wrun (setFromAxisAngle_run _ _ _ _ _ E1). fold yAxis q h2.
  erewrite (on_store_bind (new_obj _)); [|reflexivity]. wsimpl. fold h3.
  wrun (copy_run _ _ _ _ _ E3 E3P). fold h4.
  wrun (negate_run _ _ _ E4). fold h5.
  wrun (applyQuaternion_run _ _ _ _ _ E5 E5q). fold h6.
  wrun (get_Vector3_run _ _ _ E6).
  wrun (get_Quaternion_run _ _ _ E6q).
  erewrite bind_Ok;
    [|apply XRRigidTransform_new_unit, yaw_quaternion_unit].
  reflexivity.
Qed.

(** ** Angles *)

Lemma sin_cos_period_Z t (k : Z) :
  sin (t + 2 * PI * IZR k) = sin t ∧ cos (t + 2 * PI * IZR k) = cos t.
Proof.
  destruct (Z_le_gt_dec 0 k) as [Hk|Hk].
  - rewrite <- (Z2Nat.id k Hk), <- INR_IZR_INZ.
    replace (t + 2 * PI * INR (Z.to_nat k))
      with (t + 2 * INR (Z.to_nat k) * PI) by ring.
    split; [apply sin_period|apply cos_period].
  - assert (Hk' : (0 <= - k)%Z) by lia.
    set (u := t + 2 * PI * IZR k).
    replace t with (u + 2 * INR (Z.to_nat (- k)) * PI).
    + split; [by rewrite sin_period|by rewrite cos_period].
    + rewrite INR_IZR_INZ, (Z2Nat.id _ Hk'), opp_IZR. subst u. ring.
Qed.

Lemma range_reduction t : ∃ k : Z, - PI <= t - 2 * PI * IZR k < PI.
Proof.
  pose proof PI_RGT_0 as HPI.
  set (x := (t + PI) / (2 * PI)).
  assert (Hx : x * (2 * PI) = t + PI) by (subst x; field; lra).
  exists (up x - 1)%Z. rewrite minus_IZR.
  destruct (archimed x) as [H1 H2]. split; nra.
Qed.

Lemma atan2_tan_right u :
  - (PI / 2) < u < PI / 2 → atan (sin u / cos u) = u.
Proof. intros H. by apply atan_tan. Qed.

(** On one turn, [atan2 (sin t) (cos t)] is [t], or [t + 2 * PI] at the
    lower end. *)
Lemma atan2_sin_cos_turn t :
  - PI <= t < PI →
  atan2 (sin t) (cos t) = t ∨ atan2 (sin t) (cos t) = t + 2 * PI.
Proof.
  pose proof PI_RGT_0 as HPI. intros [Hl Hu]. unfold atan2.
  destruct (Rtotal_order t (- (PI / 2))) as [Hlt|[Heq|Hgt]].
  - destruct (Req_dec t (- PI)) as [->|Hne].
    + right. rewrite sin_neg, cos_neg, sin_PI, cos_PI.
      repeat case_decide; try lra.
      replace (- 0 / -1) with 0 by lra. rewrite atan_0. lra.
    + left. assert (Hs : sin t < 0) by (apply sin_lt_0_var; lra).
      assert (Hc : cos t < 0).
      { rewrite <- cos_neg. apply cos_lt_0; lra. }
      repeat case_decide; try lra.
      set (u := t + PI).
      assert (Es : sin t = - sin u) by (subst u; rewrite neg_sin; lra).
      assert (Ec : cos t = - cos u) by (subst u; rewrite neg_cos; lra).
      assert (cos u ≠ 0) by lra.
      replace (sin t / cos t) with (sin u / cos u)
        by (rewrite Es, Ec; field; lra).
      rewrite atan2_tan_right by (subst u; lra). subst u. lra.
  - left. subst t. rewrite sin_neg, cos_neg, sin_PI2, cos_PI2.
    repeat case_decide; lra.
  - destruct (Rtotal_order t (PI / 2)) as [Hlt|[Heq|Hgt']].
    + left. assert (Hc : 0 < cos t) by (apply cos_gt_0; lra).
      repeat case_decide; try lra. apply atan2_tan_right. lra.
    + left. subst t. rewrite sin_PI2, cos_PI2. repeat case_decide; lra.
    + left. assert (Hs : 0 <= sin t) by (apply sin_ge_0; lra).
      assert (Hc : cos t < 0) by (apply cos_lt_0; lra).
      repeat case_decide; try lra.
      set (u := t - PI).
      assert (Es : sin t = - sin u).
      { replace t with (u + PI) by (subst u; ring). apply neg_sin. }
      assert (Ec : cos t = - cos u).
      { replace t with (u + PI) by (subst u; ring). apply neg_cos. }
      assert (cos u ≠ 0) by lra.
      replace (sin t / cos t) with (sin u / cos u)
        by (rewrite Es, Ec; field; lra).
      rewrite atan2_tan_right by (subst u; lra). subst u. lra.
Qed.

(** [atan2 (sin t) (cos t)] is [t] modulo a full turn. *)
Lemma atan2_sin_cos t :
  ∃ k : Z, atan2 (sin t) (cos t) = t + 2 * PI * IZR k.
Proof.
  destruct (range_reduction t) as [k Hk].
  set (u := t - 2 * PI * IZR k) in *.
  destruct (sin_cos_period_Z u k) as [Es Ec].
  replace (u + 2 * PI * IZR k) with t in Es, Ec by (subst u; ring).
  rewrite Es, Ec.
  destruct (atan2_sin_cos_turn u Hk) as [->| ->].
  - exists (- k)%Z. rewrite opp_IZR. subst u. ring.
  - exists (1 - k)%Z. rewrite minus_IZR. subst u. ring.
Qed.

(** ** The round trip through the installed offset *)

Lemma yaw_quaternion_components angle :
  Quat.setFromAxisAngle yAxis angle
  = mkQuaternion 0 (sin (angle / 2)) 0 (cos (angle / 2)).
Proof. unfold Quat.setFromAxisAngle, yAxis. simpl. f_equal; lra. Qed.

(** Rotation about the vertical axis, as [applyQuaternion] computes it. *)
Lemma applyQuaternion_about_y v s c :
  Vec.applyQuaternion v (mkQuaternion 0 s 0 c)
  = mkVector3 (vx v + 2 * c * s * vz v - 2 * s * s * vx v)
              (vy v)
              (vz v - 2 * c * s * vx v - 2 * s * s * vz v).
Proof. unfold Vec.applyQuaternion. simpl. f_equal; lra. Qed.

Lemma inverse_offset_origin P angle :
  XRRigidTransform.transformPoint
    (XRRigidTransform.inverse (offsetOf P angle)) Vec.zero = P.
Proof.
  unfold XRRigidTransform.transformPoint, XRRigidTransform.inverse, offsetOf.
  cbn [position orientation]. rewrite yaw_quaternion_components.
  pose proof (sin2_cos2 (- angle / 2)) as H. unfold Rsqr in H.
  generalize dependent (sin (- angle / 2)).
  generalize dependent (cos (- angle / 2)). intros c s H.
  replace (Quat.conjugate (mkQuaternion 0 s 0 c))
    with (mkQuaternion 0 (- s) 0 c)
    by (unfold Quat.conjugate; simpl; f_equal; lra).
  rewrite !applyQuaternion_about_y.
  destruct P as [a b d]. unfold Vec.addScaled, Vec.negate, Vec.zero.
  cbn [vx vy vz].
  assert (Ha : 4 * s * s * a * (s * s + c * c) = 4 * s * s * a)
    by (rewrite H; ring).
  assert (Hd : 4 * s * s * d * (s * s + c * c) = 4 * s * s * d)
    by (rewrite H; ring).
  f_equal; lra.
Qed.

Lemma yaw_inverse_offset P angle :
  Euler.yaw_YXZ (orientation (XRRigidTransform.inverse (offsetOf P angle)))
  = atan2 (sin angle) (cos angle).
Proof.
  unfold Euler.yaw_YXZ, XRRigidTransform.inverse, offsetOf, Quat.conjugate,
    Quat.setFromAxisAngle, yAxis.
  cbn [position orientation vx vy vz qx qy qz qw].
  replace (- angle / 2) with (- (angle / 2)) by lra.
  rewrite sin_neg, cos_neg.
  pose proof (sin_2a (angle / 2)) as Hs.
  pose proof (cos_2a_sin (angle / 2)) as Hc.
  replace (2 * (angle / 2)) with angle in Hs, Hc by lra.
  set (s := sin (angle / 2)) in *. set (c := cos (angle / 2)) in *.
  destruct (decide (Rabs _ < 0.9999999)) as [_|N].
  - f_equal; lra.
  - exfalso. apply N.
    replace (- (1 * - s) * (- (0 * - s) + - (0 * - s))
             - c * (- (0 * - s) + - (0 * - s))) with 0 by lra.
    rewrite Rabs_R0. lra.
Qed.

(** C2. After [setOffset(P, angle)] the active frame is the base frame
    offset by the rigid transform made of the yaw rotation by [- angle]
    and of [- P] rotated by it; the inverse of that transform sends the
    origin to [P] (exactly, hence within [0.001] on every coordinate), and
    the yaw of its orientation is [angle] up to a whole number of turns. *)
Theorem setOffset_round_trip
    (rig : Rig) (w : World) (_position : loc) (P : Vector3) (angle : R) :
  store w !! _position = Some (OVec P) →
  ∃ w' offset,
    ThreeXRSession.setOffset rig _position angle w = (Ok tt, w') ∧
    referenceSpace w' = OffsetSpace (baseReferenceSpace rig) offset ∧
    orientation offset = Quat.setFromAxisAngle (mkVector3 0 1 0) (- angle) ∧
    position offset = Vec.applyQuaternion (Vec.negate P) (orientation offset) ∧
    let back := XRRigidTransform.inverse offset in
    let recovered := XRRigidTransform.transformPoint back Vec.zero in
    recovered = P ∧
    Rabs (vx recovered - vx P) <= 0.001 ∧
    Rabs (vy recovered - vy P) <= 0.001 ∧
    Rabs (vz recovered - vz P) <= 0.001 ∧
    ∃ k : Z,
      Rabs (Euler.yaw_YXZ (orientation back) - (angle + 2 * PI * IZR k))
      <= 0.001.
Proof.
  intros EP. destruct (setOffset_run rig w _position P angle EP)
    as (h' & _ & E).
  eexists _, (offsetOf P angle). split; [exact E|].
  split; [done|]. split; [done|]. split; [done|].
  cbv zeta. rewrite inverse_offset_origin, yaw_inverse_offset.
  split; [done|].
  rewrite !Rminus_diag, Rabs_R0.
  do 3 (split; [lra|]).
  destruct (atan2_sin_cos angle) as [k ->]. exists k.
  rewrite Rminus_diag, Rabs_R0. lra.
Qed.

Lemma setOffset_round_trip_witness :
  ∃ w' offset,
    ThreeXRSession.setOffset example_rig 1 (PI / 4)
      (example_world false false true None) = (Ok tt, w') ∧
    referenceSpace w'
    = OffsetSpace (baseReferenceSpace example_rig) offset ∧
    orientation offset
    = Quat.setFromAxisAngle (mkVector3 0 1 0) (- (PI / 4)) ∧
    position offset
    = Vec.applyQuaternion (Vec.negate (mkVector3 5 0 2.5))
        (orientation offset) ∧
    let back := XRRigidTransform.inverse offset in
    let recovered := XRRigidTransform.transformPoint back Vec.zero in
    recovered = mkVector3 5 0 2.5 ∧
    Rabs (vx recovered - 5) <= 0.001 ∧
    Rabs (vy recovered - 0) <= 0.001 ∧
    Rabs (vz recovered - 2.5) <= 0.001 ∧
    ∃ k : Z,
      Rabs (Euler.yaw_YXZ (orientation back) - (PI / 4 + 2 * PI * IZR k))
      <= 0.001.
Proof.
  apply (setOffset_round_trip example_rig
           (example_world false false true None) 1%nat
           (mkVector3 5 0 2.5) (PI / 4)).
  reflexivity.
Defined.

(** ** The arc visualiser *)

Lemma read_points_run h trace samples :
  Forall2 (points_to h) trace samples →
  TeleportationArc.read_points trace h = (Ok samples, h).
Proof.
  induction 1 as [|l v trace samples Hv _ IH]; [done|].
  cbn [TeleportationArc.read_points].
  run (get_Vector3_run _ _ _ Hv). by run IH.
Qed.

Lemma Intersection_read_run h i hit :
  represents h i hit → Intersection.read i h = (Ok hit, h).
Proof.
  intros (Ed & Ep & En & Eo). unfold Intersection.read.
  run (get_Vector3_run _ _ _ Ep). unfold ret.
  destruct hit. simpl in *. by rewrite Ed, En, Eo.
Qed.

(** [TeleportationArc.update] returns: the line is rebuilt from the
    samples of the trajectory from the arc's pose, and the marker is shown
    exactly when the trajectory's collision is a place to land; nothing
    else of the world changes outside the store. *)
Lemma TeleportationArc_update_run rig w object angle G P Q Mp Mq :
  store w !! gravity rig = Some (OVec G) →
  store w !! arc_position rig = Some (OVec P) →
  store w !! arc_quaternion rig = Some (OQuat Q) →
  store w !! marker_position rig = Some (OVec Mp) →
  store w !! marker_quaternion rig = Some (OQuat Mq) →
  ∃ h',
    TeleportationArc.update rig object angle w
    = (Ok tt,
       set_marker_visible (landing rig (Reference.trajectory G object P Q).2)
         (set_line_geometry (Reference.trajectory G object P Q).1
            (set_store h' w))).
Proof.
  destruct w as [h mv lv lg it ta cc rs ho calls]. wsimpl.
  intros Eg EP EQ EMp EMq.
  pose proof (lookup_lt_Some _ _ _ Eg).
  pose proof (lookup_lt_Some _ _ _ EP).
  pose proof (lookup_lt_Some _ _ _ EQ).
  pose proof (lookup_lt_Some _ _ _ EMp).
  pose proof (lookup_lt_Some _ _ _ EMq).
  set (h1 := h ++ [OVec (mkVector3 0 0 0)]).
  set (h2 := h1 ++ [OQuat Quat.identity]).
  set (h3 := <[length h := OVec P]> h2).
  set (h4 := <[length h1 := OQuat Q]> h3).
  assert (L1 : length h1 = S (length h))
    by (subst h1; rewrite length_app; simpl; lia).
  assert (E2p : h2 !! length h = Some (OVec (mkVector3 0 0 0)))
    by (subst h2 h1; heap_lookup).
  assert (E2a : h2 !! arc_position rig = Some (OVec P))
    by (subst h2 h1; heap_lookup).
  assert (E3r : h3 !! length h1 = Some (OQuat Quat.identity)).
  { subst h3. rewrite list_lookup_insert_ne by lia. subst h2. heap_lookup. }
  assert (E3a : h3 !! arc_quaternion rig = Some (OQuat Q)).
  { subst h3. rewrite list_lookup_insert_ne by lia. subst h2 h1. heap_lookup. }
  assert (E4g : h4 !! gravity rig = Some (OVec G)).
  { subst h4 h3. rewrite !list_lookup_insert_ne by lia.
    subst h2 h1. heap_lookup. }
  assert (E4p : h4 !! length h = Some (OVec P)).
  { subst h4. rewrite list_lookup_insert_ne by lia. subst h3. heap_lookup. }
  assert (E4r : h4 !! length h1 = Some (OQuat Q)) by (subst h4; heap_lookup).
  assert (Hp4 : preserves h h4).
  { subst h4 h3. do 2 (apply preserves_insert; [|lia]).
    subst h2 h1. eapply preserves_trans; apply preserves_app. }
  destruct (intersectObject_run h4 _ G object _ P _ Q E4g E4p E4r)
    as (h5 & trace & c & E5 & Hp5 & Ht & Hc).
  unfold TeleportationArc.update, Vector3.new, Quaternion.new.
  erewrite (on_store_bind (new_obj _)); [|reflexivity]. wsimpl. fold h1.
  erewrite (on_store_bind (new_obj _)); [|reflexivity]. wsimpl. fold h2.
  wrun (copy_run _ _ _ _ _ E2p E2a). fold h3.
  wrun (Quaternion_copy_run _ _ _ _ _ E3r E3a). fold h4.
  wrun E5. wrun (read_points_run _ _ _ Ht). wpure.
  destruct (Reference.trajectory G object P Q) as [samples c0].
  cbn [fst snd] in *. destruct c as [i|], c0 as [hit|]; try done.
  - cbn [collision_matches landing] in *.
    wrun (Intersection_read_run _ _ _ Hc). wpure.
    destruct (validateIntersection rig hit); [|by eexists].
    assert (E5m : h5 !! marker_position rig = Some (OVec Mp))
      by by apply Hp5, Hp4.
    destruct Hc as (_ & Epi & _).
    wrun (copy_run _ _ _ _ _ E5m Epi).
    destruct (normal i); [|by eexists].
    assert (marker_quaternion rig ≠ marker_position rig) by congruence.
    assert (E6q : <[marker_position rig := OVec (hit_point hit)]> h5
                  !! marker_quaternion rig = Some (OQuat Mq)).
    { rewrite list_lookup_insert_ne by done. by apply Hp5, Hp4. }
    erewrite (on_store_bind (Quaternion.setFromAxisAngle _ _ _));
      [|exact (setFromAxisAngle_run _ _ _ _ _ E6q)].
    wsimpl. by eexists.
  - wpure. by eexists.
Qed.

(** C4. After every [TeleportationArc.update] the marker is visible
    exactly when the trajectory produced a collision that passes the
    landing-validity predicate of the arc; the default predicate accepts
    exactly the hits whose normal has a [y] above [0.9], so it accepts
    [y = 0.91] and rejects [y = 0.89]. *)
Theorem marker_visible_iff_valid_collision
    (rig : Rig) (w : World) (object : Object3D) (angle : R)
    (G P Mp : Vector3) (Q Mq : Quaternion) :
  store w !! gravity rig = Some (OVec G) →
  store w !! arc_position rig = Some (OVec P) →
  store w !! arc_quaternion rig = Some (OQuat Q) →
  store w !! marker_position rig = Some (OVec Mp) →
  store w !! marker_quaternion rig = Some (OQuat Mq) →
  (∃ w', TeleportationArc.update rig object angle w = (Ok tt, w') ∧
     (marker_visible w' = true ↔
      ∃ hit, (Reference.trajectory G object P Q).2 = Some hit ∧
             validateIntersection rig hit = true)) ∧
  (∀ hit, isGroundIntersection hit = true ↔
          ∃ n, hit_normal hit = Some n ∧ vy n > 0.9) ∧
  (∀ d p a c name,
     isGroundIntersection (mkHit d p (Some (mkVector3 a 0.91 c)) name) = true ∧
     isGroundIntersection (mkHit d p (Some (mkVector3 a 0.89 c)) name) = false).
Proof.
  intros Eg EP EQ EMp EMq. split; [|split].
  - destruct (TeleportationArc_update_run rig w object angle G P Q Mp Mq
                Eg EP EQ EMp EMq) as [h' E].
    eexists. split; [exact E|]. wsimpl. unfold landing.
    destruct (Reference.trajectory G object P Q).2 as [hit|].
    + split; [by exists hit|]. by intros (? & [= <-] & ?).
    + split; [done|]. by intros (? & ? & _).
  - intros hit. unfold isGroundIntersection. rewrite bool_decide_eq_true.
    destruct (hit_normal hit) as [n|].
    + split; [by exists n|]. by intros (? & [= <-] & ?).
    + split; [lra|]. by intros (? & ? & _).
  - intros d p a c name. unfold isGroundIntersection. simpl. split.
    + apply bool_decide_eq_true. lra.
    + apply bool_decide_eq_false. lra.
Qed.

Lemma marker_visible_iff_valid_collision_witness :
  (∃ w', TeleportationArc.update example_rig floor_scene 0
           (example_world true false true None) = (Ok tt, w') ∧
     (marker_visible w' = true ↔
      ∃ hit, (Reference.trajectory (mkVector3 0 (-0.1) 0) floor_scene
                (mkVector3 0 1 0) Quat.identity).2 = Some hit ∧
             validateIntersection example_rig hit = true)) ∧
  (∀ hit, isGroundIntersection hit = true ↔
          ∃ n, hit_normal hit = Some n ∧ vy n > 0.9) ∧
  (∀ d p a c name,
     isGroundIntersection (mkHit d p (Some (mkVector3 a 0.91 c)) name) = true ∧
     isGroundIntersection (mkHit d p (Some (mkVector3 a 0.89 c)) name) = false).
Proof.
  apply (marker_visible_iff_valid_collision example_rig
           (example_world true false true None) floor_scene 0
           (mkVector3 0 (-0.1) 0) (mkVector3 0 1 0) (mkVector3 5 0 2.5)
           Quat.identity Quat.identity); reflexivity.
Defined.

(** C9. The default predicate rejects a hit without a normal (the
    missing [y] counts as 0), so [TeleportationArc.update] on a trajectory
    that ends on such a hit returns normally and leaves the marker
    hidden. *)
Theorem hit_without_normal_hides_marker
    (rig : Rig) (w : World) (object : Object3D) (angle : R)
    (G P Mp : Vector3) (Q Mq : Quaternion) (hit : Hit) :
  validateIntersection rig = isGroundIntersection →
  store w !! gravity rig = Some (OVec G) →
  store w !! arc_position rig = Some (OVec P) →
  store w !! arc_quaternion rig = Some (OQuat Q) →
  store w !! marker_position rig = Some (OVec Mp) →
  store w !! marker_quaternion rig = Some (OQuat Mq) →
  (Reference.trajectory G object P Q).2 = Some hit →
  hit_normal hit = None →
  isGroundIntersection hit = false ∧
  ∃ w', TeleportationArc.update rig object angle w = (Ok tt, w') ∧
        marker_visible w' = false.
Proof.
  intros Ev Eg EP EQ EMp EMq Ec En.
  assert (Er : isGroundIntersection hit = false).
  { unfold isGroundIntersection. rewrite En. apply bool_decide_eq_false. lra. }
  split; [done|].
  destruct (TeleportationArc_update_run rig w object angle G P Q Mp Mq
              Eg EP EQ EMp EMq) as [h' E].
  eexists. split; [exact E|]. wsimpl. rewrite Ec. cbn [landing].
  by rewrite Ev.
Qed.

Lemma bare_wall_collision G P Q :
  (Reference.trajectory G bare_wall P Q).2 = Some (mkHit 0 P None "wall").
Proof. reflexivity. Qed.

Lemma hit_without_normal_hides_marker_witness :
  isGroundIntersection (mkHit 0 (mkVector3 0 1 0) None "wall") = false ∧
  ∃ w', TeleportationArc.update example_rig bare_wall 0
          (example_world true false true None) = (Ok tt, w') ∧
        marker_visible w' = false.
Proof.
  apply (hit_without_normal_hides_marker example_rig
           (example_world true false true None) bare_wall 0
           (mkVector3 0 (-0.1) 0) (mkVector3 0 1 0) (mkVector3 5 0 2.5)
           Quat.identity Quat.identity
           (mkHit 0 (mkVector3 0 1 0) None "wall"));
    reflexivity.
Defined.

(** ** The teleportation controls *)

Lemma _stop_run w : TeleportationControls._stop w = (Ok tt, stopped w).
Proof. reflexivity. Qed.

Lemma cancel_run w : TeleportationControls.cancel w = (Ok tt, stopped w).
Proof. reflexivity. Qed.

Lemma start_run w :
  TeleportationControls.start w = (Ok tt, set_isTeleporting true w).
Proof. reflexivity. Qed.

(** [commit] stops and then calls [setOffset] once, with the marker's
    position and the stored heading. *)
Lemma commit_run rig w Mp :
  store w !! marker_position rig = Some (OVec Mp) →
  ∃ h', preserves (store w) h' ∧
    TeleportationControls.commit rig w
    = (Ok tt,
       set_referenceSpace
         (OffsetSpace (baseReferenceSpace rig)
            (offsetOf Mp (teleportationAngle w)))
         (set_store h'
            (set_setOffset_calls
               (setOffset_calls w ++ [(Mp, teleportationAngle w)])
               (stopped w)))).
Proof.
  intros EM.
  destruct (setOffset_run rig (stopped w) (marker_position rig) Mp
              (teleportationAngle w)) as (h' & Hp & E); [by destruct w|].
  exists h'. split; [by destruct w|].
  unfold TeleportationControls.commit.
  erewrite bind_Ok; [|apply _stop_run].
  rewrite gets_bind. by destruct w.
Qed.

Lemma update_idle_run rig w object angle :
  isTeleporting w = false →
  TeleportationControls.update rig object angle w
  = (Ok tt, set_line_visible false w).
Proof.
  intros E. unfold TeleportationControls.update.
  rewrite gets_bind, E, ret_bind, gets_bind, E. reflexivity.
Qed.

(** ** The driving policy *)

(** No button ever counts as pressed: [buttonPressed] compares each
    button with the state read in the same frame. *)
Lemma buttonPressed_never (bs : list GamepadButton) k :
  nth k (imap (λ index button,
                 pressed button && negb (nth index (map pressed bs) false))
           bs) false = false.
Proof.
  rewrite nth_lookup, list_lookup_imap.
  destruct (bs !! k) as [b|] eqn:E; [|done]. simpl.
  rewrite nth_lookup, list_lookup_fmap, E. simpl. by destruct (pressed b).
Qed.

Lemma magnitude_small : ¬ sqrt (0.1 * 0.1 + 0.1 * 0.1) > 0.5.
Proof.
  assert (sqrt (0.1 * 0.1 + 0.1 * 0.1) < sqrt (0.5 * 0.5))
    by (apply sqrt_lt_1; lra).
  rewrite sqrt_square in *; lra.
Qed.

Lemma magnitude_large : sqrt (0.4 * 0.4 + 0.4 * 0.4) > 0.5.
Proof.
  assert (sqrt (0.5 * 0.5) < sqrt (0.4 * 0.4 + 0.4 * 0.4))
    by (apply sqrt_lt_1; lra).
  rewrite sqrt_square in *; lra.
Qed.

(** What a frame does once the controller pose is read: the branch on the
    state and the stick, then the buttons, which do nothing. *)
Lemma update_frame rig w c q :
  connectedController w = Some c →
  store w !! controller_quaternion rig = Some (OQuat q) →
  createController.update rig w
  = (let a := createController.axis (connected_gamepad c) 2 in
     let b := createController.axis (connected_gamepad c) 3 in
     let* _ :=
       if isTeleporting w then
         if bool_decide (a = 0) && bool_decide (b = 0) then
           if marker_visible w then TeleportationControls.commit rig
           else TeleportationControls.cancel
         else
           TeleportationControls.update rig (house w)
             (Vector2.angle (- b) (- a) + Euler.yaw_YXZ q)
       else
         if bool_decide (sqrt (a * a + b * b) > 0.5)
         then TeleportationControls.start
         else ret tt in
     ret tt) w.
Proof.
  intros Ec Eq. unfold createController.update.
  rewrite gets_bind, Ec. cbv zeta.
  erewrite on_store_bind; [|by apply get_Quaternion_run].
  replace (set_store (store w) w) with w by by destruct w.
  rewrite gets_bind. rewrite !buttonPressed_never.
  assert (Hk : ∀ (m : M World unit) s,
             bind m (λ _, bind (ret tt) (λ _, ret tt)) s
             = bind m (λ _, ret tt) s) by done.
  destruct (isTeleporting w); [|apply Hk].
  destruct (_ && _).
  - rewrite bind_assoc, gets_bind. apply Hk.
  - rewrite bind_assoc, gets_bind. apply Hk.
Qed.

(** C3, as amended.  One frame of the driving policy: an idle controller stays idle
    with the stick at [(0.1, 0.1)] and starts aiming at [(0.4, 0.4)]; an
    aiming controller with the stick at exactly [(0, 0)] becomes idle, with
    one [setOffset] call when the marker is visible and none when it is
    hidden; [cancel] on an idle controller keeps it idle, calls nothing,
    touches neither the frame nor the store, hides the line and the
    marker, and changes nothing at all exactly when both were hidden
    already, as [_stop] leaves them. *)
Theorem driving_policy
    (rig : Rig) (w : World) (q : Quaternion) (Mp : Vector3) :
  store w !! controller_quaternion rig = Some (OQuat q) →
  store w !! marker_position rig = Some (OVec Mp) →
  (state w = Idle → stick_at w 0.1 0.1 →
   createController.update rig w = (Ok tt, w)) ∧
  (state w = Idle → stick_at w 0.4 0.4 →
   ∃ w', createController.update rig w = (Ok tt, w') ∧ state w' = Aiming ∧
         setOffset_calls w' = setOffset_calls w) ∧
  (state w = Aiming → stick_at w 0 0 → marker_visible w = true →
   ∃ w', createController.update rig w = (Ok tt, w') ∧ state w' = Idle ∧
         setOffset_calls w'
         = setOffset_calls w ++ [(Mp, teleportationAngle w)]) ∧
  (state w = Aiming → stick_at w 0 0 → marker_visible w = false →
   ∃ w', createController.update rig w = (Ok tt, w') ∧ state w' = Idle ∧
         setOffset_calls w' = setOffset_calls w) ∧
  (state w = Idle →
   ∃ w', TeleportationControls.cancel w = (Ok tt, w') ∧ state w' = Idle ∧
         setOffset_calls w' = setOffset_calls w ∧
         referenceSpace w' = referenceSpace w ∧
         store w' = store w ∧
         teleportationAngle w' = teleportationAngle w ∧
         marker_visible w' = false ∧ line_visible w' = false ∧
         (w' = w ↔ marker_visible w = false ∧ line_visible w = false)).
Proof.
  intros Eq EM.
  assert (St : ∀ b : bool, state w = (if b then Aiming else Idle) →
                           isTeleporting w = b).
  { unfold state. by destruct (isTeleporting w), b. }
  repeat split.
  - intros Hs%(St false) (c & Ec & Ha & Hb).
    rewrite (update_frame rig w c q Ec Eq). cbv zeta.
    rewrite Ha, Hb, Hs.
    by rewrite (bool_decide_eq_false_2 _ magnitude_small).
  - intros Hs%(St false) (c & Ec & Ha & Hb).
    rewrite (update_frame rig w c q Ec Eq). cbv zeta.
    rewrite Ha, Hb, Hs.
    rewrite (bool_decide_eq_true_2 _ magnitude_large).
    exists (set_isTeleporting true w). by destruct w.
  - intros Hs%(St true) (c & Ec & Ha & Hb) Hv.
    rewrite (update_frame rig w c q Ec Eq). cbv zeta.
    rewrite Ha, Hb, Hs, Hv.
    rewrite !bool_decide_eq_true_2 by done. cbn [andb].
    destruct (commit_run rig w Mp EM) as (h' & _ & E).
    eexists. split; [by erewrite bind_Ok by exact E|]. by destruct w.
  - intros Hs%(St true) (c & Ec & Ha & Hb) Hv.
    rewrite (update_frame rig w c q Ec Eq). cbv zeta.
    rewrite Ha, Hb, Hs, Hv.
    rewrite !bool_decide_eq_true_2 by done. cbn [andb].
    exists (stopped w). by destruct w.
  - intros Hs%(St false). exists (stopped w).
    destruct w as [h mv lv lg it ta cc rs ho calls]. simpl in *.
    split; [done|]. split; [by rewrite Hs|]. do 6 (split; [done|]).
    split.
    + by intros [= <- <-].
    + intros [-> ->]. by rewrite Hs.
Qed.

Lemma driving_policy_witness :
  let idle a b :=
    example_world false false false (Some (example_controller a b)) in
  let aiming marker :=
    example_world true marker true (Some (example_controller 0 0)) in
  createController.update example_rig (idle 0.1 0.1)
  = (Ok tt, idle 0.1 0.1) ∧
  (∃ w', createController.update example_rig (idle 0.4 0.4) = (Ok tt, w') ∧
         state w' = Aiming) ∧
  (∃ w', createController.update example_rig (aiming true) = (Ok tt, w') ∧
         state w' = Idle ∧
         setOffset_calls w' = [(mkVector3 5 0 2.5, PI / 4)]) ∧
  (∃ w', createController.update example_rig (aiming false) = (Ok tt, w') ∧
         state w' = Idle ∧ setOffset_calls w' = []) ∧
  TeleportationControls.cancel (idle 0 0) = (Ok tt, idle 0 0).
Proof.
  intros idle aiming.
  assert (Hs : ∀ a b, stick_at (idle a b) a b)
    by (intros a b; by eexists).
  assert (Ha : ∀ m, stick_at (aiming m) 0 0) by (intros m; by eexists).
  split; [|split; [|split; [|split]]].
  - by apply (driving_policy example_rig (idle 0.1 0.1) Quat.identity
                (mkVector3 5 0 2.5) eq_refl eq_refl).
  - destruct (driving_policy example_rig (idle 0.4 0.4) Quat.identity
                (mkVector3 5 0 2.5) eq_refl eq_refl)
      as (_ & H & _).
    destruct (H eq_refl (Hs _ _)) as (w' & E & S' & _). by exists w'.
  - destruct (driving_policy example_rig (aiming true) Quat.identity
                (mkVector3 5 0 2.5) eq_refl eq_refl)
      as (_ & _ & H & _).
    destruct (H eq_refl (Ha _) eq_refl) as (w' & E & S' & C). by exists w'.
  - destruct (driving_policy example_rig (aiming false) Quat.identity
                (mkVector3 5 0 2.5) eq_refl eq_refl)
      as (_ & _ & _ & H & _).
    destruct (H eq_refl (Ha _) eq_refl) as (w' & E & S' & C). by exists w'.
  - destruct (driving_policy example_rig (idle 0 0) Quat.identity
                (mkVector3 5 0 2.5) eq_refl eq_refl)
      as (_ & _ & _ & _ & H).
    destruct (H eq_refl) as (w' & E & _ & _ & _ & _ & _ & _ & _ & N).
    by rewrite <- (proj2 N (conj eq_refl eq_refl)) at 2.
Defined.

(** The idle world that [createController] builds shows its line, and
    [cancel] hides it: on that idle controller [cancel] changes the
    world. *)
Lemma cancel_on_idle_counterexample :
  createController 5%nat 6%nat (NativeSpace "local-floor") floor_world
  = (Ok floor_rig, floor_created) ∧
  state floor_created = Idle ∧ line_visible floor_created = true ∧
  ∃ w', TeleportationControls.cancel floor_created = (Ok tt, w') ∧
        state w' = Idle ∧ line_visible w' = false ∧ w' ≠ floor_created.
Proof.
  split; [reflexivity|]. split; [reflexivity|]. split; [reflexivity|].
  exists (stopped floor_created).
  split; [reflexivity|]. split; [reflexivity|]. split; [reflexivity|].
  intros E. apply (f_equal line_visible) in E. discriminate E.
Qed.

(** ** Disconnecting *)

(** C6, as amended.  A disconnect while aiming only clears the connected
    controller: the controls stay [Aiming], line and marker keep their
    visibility, and the store, the heading and the active reference space
    are untouched; from then on a frame of the driving policy does
    nothing. *)
Theorem disconnect_while_aiming_freezes (rig : Rig) (w : World) :
  state w = Aiming →
  ∃ w', ThreeXRController.handleControllerDisconnected w = (Ok tt, w') ∧
        w' = set_connectedController None w ∧
        state w' = Aiming ∧
        line_visible w' = line_visible w ∧
        marker_visible w' = marker_visible w ∧
        referenceSpace w' = referenceSpace w ∧
        setOffset_calls w' = setOffset_calls w ∧
        createController.update rig w' = (Ok tt, w').
Proof.
  intros Hs. exists (set_connectedController None w).
  destruct w as [h mv lv lg it ta cc rs ho calls].
  unfold state in *. simpl in *. repeat split; try done.
  unfold ThreeXRController.handleControllerDisconnected.
  rewrite gets_bind. simpl. by destruct cc.
Qed.

Lemma disconnect_while_aiming_freezes_witness :
  let w := example_world true true true (Some (example_controller 0 0)) in
  ∃ w', ThreeXRController.handleControllerDisconnected w = (Ok tt, w') ∧
        w' = set_connectedController None w ∧
        state w' = Aiming ∧
        line_visible w' = line_visible w ∧
        marker_visible w' = marker_visible w ∧
        referenceSpace w' = referenceSpace w ∧
        setOffset_calls w' = setOffset_calls w ∧
        createController.update example_rig w' = (Ok tt, w').
Proof.
  intros w. apply (disconnect_while_aiming_freezes example_rig w).
  reflexivity.
Defined.

(** C6 as stated fails: after a disconnect while aiming, with line and
    marker shown, the controls are not idle and nothing is hidden, and the
    next frame of the driving policy does not change that. *)
Lemma disconnect_counterexample :
  let w := example_world true true true (Some (example_controller 0 0)) in
  let w' := (ThreeXRController.handleControllerDisconnected w).2 in
  let w'' := (createController.update example_rig w').2 in
  ¬ (state w' = Idle ∧ line_visible w' = false ∧ marker_visible w' = false) ∧
  ¬ (state w'' = Idle ∧ line_visible w'' = false ∧
     marker_visible w'' = false).
Proof. intros w w' w''. split; intros (H & _); discriminate H. Qed.

(** ** Updating while idle *)

(** C7, as amended.  While idle, [TeleportationControls.update] neither
    runs the trajectory simulation nor stores the heading: its whole
    effect is to hide the line.  The marker keeps the visibility it had,
    which is hidden whenever the controls became idle through [_stop]. *)
Theorem update_while_idle_hides_line
    (rig : Rig) (w : World) (object : Object3D) (angle : R) :
  state w = Idle →
  TeleportationControls.update rig object angle w
  = (Ok tt, set_line_visible false w) ∧
  (∀ w0, w = stopped w0 →
         TeleportationControls.update rig object angle w = (Ok tt, w)).
Proof.
  intros Hs.
  assert (E : isTeleporting w = false)
    by (unfold state in Hs; by destruct (isTeleporting w)).
  split; [by apply update_idle_run|].
  intros w0 ->. by rewrite update_idle_run.
Qed.

Lemma update_while_idle_hides_line_witness :
  let w := example_world false true true None in
  TeleportationControls.update example_rig floor_scene 1 w
  = (Ok tt, set_line_visible false w) ∧
  (∀ w0, w = stopped w0 →
         TeleportationControls.update example_rig floor_scene 1 w
         = (Ok tt, w)).
Proof.
  intros w. apply (update_while_idle_hides_line example_rig w floor_scene 1).
  reflexivity.
Defined.

(** C7 as stated fails: an idle controller whose marker is visible (the
    default of a three.js object) keeps it visible through [update]. *)
Lemma update_while_idle_counterexample :
  let w := example_world false true true None in
  let w' := (TeleportationControls.update example_rig floor_scene 1 w).2 in
  ¬ (line_visible w' = false ∧ marker_visible w' = false).
Proof. intros w w' (_ & H). discriminate H. Qed.

(** ** Connecting *)

(** C8. The constructor of the connected controller throws for an input
    source without a gamepad and for one whose gamepad has fewer than
    four axes, so the connected handler throws for them and connects
    nothing; a connected event on a slot that already has a controller
    throws and leaves that controller in place. *)
Theorem connection_fails_fast (data : XRInputSource) (w : World) :
  (gamepad data = None →
   ThreeXRConnectedController.new data w = (Throw "Gamepad not available", w)) ∧
  (∀ g, gamepad data = Some g → (length (axes g) < 4)%nat →
        ThreeXRConnectedController.new data w
        = (Throw "Gamepad axes not available", w)) ∧
  (connectedController w = None →
   gamepad data = None
   ∨ (∃ g, gamepad data = Some g ∧ (length (axes g) < 4)%nat) →
   ∃ e, ThreeXRController.handleControllerConnected data w = (Throw e, w)) ∧
  (∀ c, connectedController w = Some c →
        ThreeXRController.handleControllerConnected data w
        = (Throw "Controller already connected", w)).
Proof.
  assert (H1 : gamepad data = None →
               ThreeXRConnectedController.new data w
               = (Throw "Gamepad not available", w)).
  { intros E. unfold ThreeXRConnectedController.new. by rewrite E. }
  assert (H2 : ∀ g, gamepad data = Some g → (length (axes g) < 4)%nat →
                    ThreeXRConnectedController.new data w
                    = (Throw "Gamepad axes not available", w)).
  { intros g E L. unfold ThreeXRConnectedController.new. rewrite E.
    by destruct (decide (length (axes g) < 4)%nat). }
  split; [done|]. split; [done|]. split.
  - intros Ec Hbad. unfold ThreeXRController.handleControllerConnected.
    rewrite gets_bind, Ec. destruct Hbad as [E|(g & E & L)].
    + eexists. by erewrite bind_Throw by by apply H1.
    + eexists. by erewrite bind_Throw by by eapply H2.
  - intros c Ec. unfold ThreeXRController.handleControllerConnected.
    by rewrite gets_bind, Ec.
Qed.

Lemma connection_fails_fast_witness :
  let two_axes := mkXRInputSource (Some (mkGamepad [0; 0] [])) "gaze" in
  let no_gamepad := mkXRInputSource None "tracked-pointer" in
  let free := example_world false false true None in
  let taken := example_world false false true (Some (example_controller 0 0)) in
  ThreeXRConnectedController.new no_gamepad free
  = (Throw "Gamepad not available", free) ∧
  ThreeXRConnectedController.new two_axes free
  = (Throw "Gamepad axes not available", free) ∧
  (∃ e, ThreeXRController.handleControllerConnected two_axes free
        = (Throw e, free)) ∧
  ThreeXRController.handleControllerConnected no_gamepad taken
  = (Throw "Controller already connected", taken).
Proof.
  intros two_axes no_gamepad free taken.
  split; [|split; [|split]].
  - by apply (connection_fails_fast no_gamepad free).
  - destruct (connection_fails_fast two_axes free) as (_ & H & _).
    apply (H (mkGamepad [0; 0] [])); [reflexivity|simpl; lia].
  - destruct (connection_fails_fast two_axes free) as (_ & _ & H & _).
    apply H; [reflexivity|]. right. eexists. split; [reflexivity|simpl; lia].
  - destruct (connection_fails_fast no_gamepad taken) as (_ & _ & _ & H).
    by apply (H (example_controller 0 0)).
Defined.

(** A gamepad with four axes and a known targeting mode does connect. *)
Lemma connection_succeeds w g mode :
  connectedController w = None → (4 ≤ length (axes g))%nat →
  mode = "tracked-pointer" ∨ mode = "gaze" →
  ∃ c, ThreeXRController.handleControllerConnected
         (mkXRInputSource (Some g) mode) w
       = (Ok tt, set_connectedController (Some c) w) ∧
       connected_gamepad c = g.
Proof.
  intros Ec L Hm. unfold ThreeXRController.handleControllerConnected.
  rewrite gets_bind, Ec.
  unfold ThreeXRConnectedController.new, buildController. simpl.
  destruct (decide (length (axes g) < 4)%nat); [lia|].
  destruct Hm as [-> | ->]; simpl; by eexists.
Qed.

(** ** Arguments passed by reference *)

(** C10. Neither [Arccaster.intersectObject] nor
    [ThreeXRSession.setOffset] changes an object of the caller: after the
    call the starting position, the orientation and the gravity hold what
    they held, and so does the target position of [setOffset]; hence the
    marker position handed over at [commit] is unchanged. *)
Theorem caller_vectors_not_mutated
    (h : heap) (g p r : loc) (G P : Vector3) (Q : Quaternion)
    (object : Object3D)
    (rig : Rig) (w : World) (_position : loc) (T : Vector3) (angle : R) :
  h !! g = Some (OVec G) → h !! p = Some (OVec P) → h !! r = Some (OQuat Q) →
  store w !! _position = Some (OVec T) →
  (∃ h' result,
     Arccaster.intersectObject g object p r h = (Ok result, h') ∧
     h' !! p = Some (OVec P) ∧ h' !! r = Some (OQuat Q) ∧
     h' !! g = Some (OVec G) ∧ preserves h h') ∧
  (∃ w', ThreeXRSession.setOffset rig _position angle w = (Ok tt, w') ∧
         store w' !! _position = Some (OVec T) ∧
         preserves (store w) (store w')) ∧
  (_position = marker_position rig →
   ∃ w', TeleportationControls.commit rig w = (Ok tt, w') ∧
         store w' !! marker_position rig = Some (OVec T)).
Proof.
  intros Eg Ep Er ET. split; [|split].
  - destruct (intersectObject_run h g G object p P r Q Eg Ep Er)
      as (h' & trace & c & E & Hp & _).
    exists h', (trace, c). repeat split; try done; by apply Hp.
  - destruct (setOffset_run rig w _position T angle ET) as (h' & Hp & E).
    eexists. split; [exact E|]. wsimpl. split; [by apply Hp|done].
  - intros ->. destruct (commit_run rig w T ET) as (h' & Hp & E).
    eexists. split; [exact E|]. wsimpl. by apply Hp.
Qed.

Lemma caller_vectors_not_mutated_witness :
  let w := example_world true true true None in
  (∃ h' result,
     Arccaster.intersectObject 0 floor_scene 3 4 example_objects
     = (Ok result, h') ∧
     h' !! 3%nat = Some (OVec (mkVector3 0 1 0)) ∧
     h' !! 4%nat = Some (OQuat Quat.identity) ∧
     h' !! 0%nat = Some (OVec (mkVector3 0 (-0.1) 0)) ∧
     preserves example_objects h') ∧
  (∃ w', ThreeXRSession.setOffset example_rig 1 (PI / 4) w = (Ok tt, w') ∧
         store w' !! 1%nat = Some (OVec (mkVector3 5 0 2.5)) ∧
         preserves (store w) (store w')) ∧
  (1%nat = marker_position example_rig →
   ∃ w', TeleportationControls.commit example_rig w = (Ok tt, w') ∧
         store w' !! marker_position example_rig
         = Some (OVec (mkVector3 5 0 2.5))).
Proof.
  intros w.
  apply (caller_vectors_not_mutated example_objects 0%nat 3%nat 4%nat
           (mkVector3 0 (-0.1) 0) (mkVector3 0 1 0) Quat.identity floor_scene
           example_rig w 1%nat (mkVector3 5 0 2.5) (PI / 4));
    reflexivity.
Defined.

(** * Further properties of the code *)

(** ** Shape of the trajectory *)

Lemma simulate_shape scene G n : ∀ P V samples,
  ((Reference.simulate scene G n P V samples).2 = None →
   length (Reference.simulate scene G n P V samples).1
   = (length samples + n)%nat) ∧
  (∀ hit, (Reference.simulate scene G n P V samples).2 = Some hit →
          last (Reference.simulate scene G n P V samples).1
          = Some (hit_point hit)) ∧
  ((0 < n)%nat →
   (length samples < length (Reference.simulate scene G n P V samples).1)%nat).
Proof.
  induction n as [|n IH]; intros P V samples.
  - cbn [Reference.simulate fst snd]. repeat split; [lia|done|lia].
  - cbn [Reference.simulate].
    set (V' := Vec.addScaled V G 0.2). set (P' := Vec.addScaled P V' 0.2).
    specialize (IH P' V' (samples ++ [P'])).
    pose proof (simulate_prefix scene G n P' V' (samples ++ [P']))
      as [rest Hrest].
    assert (Hrec :
      ((Reference.simulate scene G n P' V' (samples ++ [P'])).2 = None →
       length (Reference.simulate scene G n P' V' (samples ++ [P'])).1
       = (length samples + S n)%nat) ∧
      (∀ hit, (Reference.simulate scene G n P' V' (samples ++ [P'])).2
              = Some hit →
              last (Reference.simulate scene G n P' V' (samples ++ [P'])).1
              = Some (hit_point hit)) ∧
      ((0 < S n)%nat →
       (length samples
        < length (Reference.simulate scene G n P' V' (samples ++ [P'])).1)%nat)).
    { destruct IH as (I1 & I2 & I3). repeat split.
      - intros E. rewrite (I1 E), length_app. simpl. lia.
      - exact I2.
      - intros _. rewrite Hrest, !length_app. simpl. lia. }
    destruct (last samples) as [previous|]; [|exact Hrec].
    destruct (Reference.nearest_hit scene previous P') as [hit|];
      [|exact Hrec].
    cbn [fst snd]. repeat split.
    + done.
    + intros ? [= <-]. by rewrite last_snoc.
    + intros _. rewrite length_app. simpl. lia.
Qed.

Lemma trajectory_first G scene P Q :
  (Reference.trajectory G scene P Q).1 !! 0%nat = Some P.
Proof.
  unfold Reference.trajectory.
  by destruct (simulate_prefix scene G 50 P
                 (Vec.applyQuaternion Reference.forward Q) [P]) as [rest ->].
Qed.

Lemma trajectory_full G scene P Q :
  (Reference.trajectory G scene P Q).2 = None →
  length (Reference.trajectory G scene P Q).1 = 51%nat.
Proof.
  unfold Reference.trajectory. intros E.
  by rewrite (proj1 (simulate_shape scene G 50 P _ [P]) E).
Qed.

Lemma trajectory_ends_on_hit G scene P Q hit :
  (Reference.trajectory G scene P Q).2 = Some hit →
  last (Reference.trajectory G scene P Q).1 = Some (hit_point hit).
Proof.
  unfold Reference.trajectory.
  apply (proj1 (proj2 (simulate_shape scene G 50 P _ [P]))).
Qed.

Lemma trajectory_two_points G scene P Q :
  (2 ≤ length (Reference.trajectory G scene P Q).1)%nat.
Proof.
  unfold Reference.trajectory.
  exact (proj2 (proj2 (simulate_shape scene G 50 P
                         (Vec.applyQuaternion Reference.forward Q) [P]))
           (Nat.lt_0_succ 49)).
Qed.

(** What a trace that holds the samples [samples] inherits from them. *)
Lemma trace_shape_of h' trace c (samples : list Vector3) c0 P :
  Forall2 (points_to h') trace samples → collision_matches h' c c0 →
  (2 ≤ length samples ≤ 51)%nat → samples !! 0%nat = Some P →
  (c0 = None → length samples = 51%nat) →
  (∀ hit, c0 = Some hit → last samples = Some (hit_point hit)) →
  (2 ≤ length trace ≤ 51)%nat ∧
  (∃ first, trace !! 0%nat = Some first ∧ h' !! first = Some (OVec P)) ∧
  (c = None → length trace = 51%nat) ∧
  (∀ i, c = Some i → ∃ l, last trace = Some l ∧ h' !! l = h' !! point i).
Proof.
  intros Ht Hc Hlen Hfirst Hnone Hhit.
  pose proof (Forall2_length _ _ _ Ht) as L.
  split; [lia|]. split; [|split].
  - destruct Ht as [|first v trace samples Hv _]; [done|].
    exists first. split; [done|]. simpl in Hfirst. by simplify_eq.
  - intros ->. destruct c0; [done|]. rewrite L. by apply Hnone.
  - intros i ->. destruct c0 as [hit|]; [|done].
    destruct Hc as (_ & Hpt & _).
    pose proof (Forall2_last _ _ _ Ht) as Hl.
    rewrite (Hhit hit eq_refl) in Hl.
    destruct (last trace) as [l|]; [|done]. exists l. split; [done|].
    unfold points_to in *. congruence.
Qed.

(** X1. The polyline that [Arccaster.intersectObject] returns starts
    with a copy of the starting position, has between 2 and 51 points,
    has exactly 51 when no collision is returned, and ends on the point of
    the collision when one is returned. *)
Theorem trace_shape
    (h : heap) (g p r : loc) (G P : Vector3) (Q : Quaternion)
    (object : Object3D) :
  h !! g = Some (OVec G) → h !! p = Some (OVec P) → h !! r = Some (OQuat Q) →
  ∃ h' trace c,
    Arccaster.intersectObject g object p r h = (Ok (trace, c), h') ∧
    (2 ≤ length trace ≤ 51)%nat ∧
    (∃ first, trace !! 0%nat = Some first ∧ h' !! first = Some (OVec P)) ∧
    (c = None → length trace = 51%nat) ∧
    (∀ i, c = Some i → ∃ l, last trace = Some l ∧ h' !! l = h' !! point i).
Proof.
  intros Eg Ep Er.
  destruct (intersectObject_run h g G object p P r Q Eg Ep Er)
    as (h' & trace & c & E & Hp & Ht & Hc).
  exists h', trace, c. split; [exact E|].
  apply (trace_shape_of h' trace c _ _ P Ht Hc).
  - split; [apply trajectory_two_points|apply trajectory_length].
  - apply trajectory_first.
  - apply trajectory_full.
  - apply trajectory_ends_on_hit.
Qed.

Lemma trace_shape_witness :
  ∃ h' trace c,
    Arccaster.intersectObject 0 empty_scene 1 2
      (example_store (mkVector3 0 (-0.1) 0) (mkVector3 0 1 0) Quat.identity)
    = (Ok (trace, c), h') ∧
    (2 ≤ length trace ≤ 51)%nat ∧
    (∃ first, trace !! 0%nat = Some first ∧
              h' !! first = Some (OVec (mkVector3 0 1 0))) ∧
    (c = None → length trace = 51%nat) ∧
    (∀ i, c = Some i → ∃ l, last trace = Some l ∧ h' !! l = h' !! point i).
Proof.
  apply (trace_shape
           (example_store (mkVector3 0 (-0.1) 0) (mkVector3 0 1 0)
              Quat.identity) 0%nat 1%nat 2%nat (mkVector3 0 (-0.1) 0)
           (mkVector3 0 1 0) Quat.identity empty_scene); reflexivity.
Defined.

Lemma Forall2_points_lookup h trace samples k l :
  Forall2 (points_to h) trace samples → trace !! k = Some l →
  ∃ v, samples !! k = Some v ∧ h !! l = Some (OVec v).
Proof.
  intros H E. destruct (Forall2_lookup_l _ _ _ _ _ H E) as (v & Ev & Hv).
  by exists v.
Qed.

(** ** The arc is a sampled parabola *)

Lemma flight_point_start G P V0 : flight_point G P V0 0 = P.
Proof. destruct P. unfold flight_point. simpl. f_equal; lra. Qed.

Lemma velocity_after_closed G V0 k :
  velocity_after G V0 k
  = mkVector3 (vx V0 + 0.2 * INR k * vx G) (vy V0 + 0.2 * INR k * vy G)
              (vz V0 + 0.2 * INR k * vz G).
Proof.
  induction k as [|k IH].
  - destruct V0. simpl. f_equal; lra.
  - change (velocity_after G V0 (S k))
      with (Vec.addScaled (velocity_after G V0 k) G 0.2).
    rewrite IH, S_INR. unfold Vec.addScaled. cbn [vx vy vz]. f_equal; lra.
Qed.

Lemma free_flight_closed G V0 P samples c :
  free_flight G V0 samples c → samples !! 0%nat = Some P →
  ∀ k p, samples !! k = Some p → (c = None ∨ S k < length samples)%nat →
         p = flight_point G P V0 k.
Proof.
  intros Hf H0. induction k as [|k IH]; intros p Ek Hk.
  - rewrite flight_point_start. congruence.
  - destruct (lookup_lt_is_Some_2 samples k) as [a Ea].
    { apply lookup_lt_Some in Ek. lia. }
    assert (Ha : a = flight_point G P V0 k).
    { apply IH; [done|]. destruct Hk; [by left|right; lia]. }
    rewrite (Hf k a p Ea Ek Hk), Ha, velocity_after_closed.
    unfold Vec.addScaled, flight_point. cbn [vx vy vz]. rewrite !S_INR.
    f_equal; lra.
Qed.

(** X2. Every sample of the returned polyline, the point of a collision
    apart, lies on the discrete parabola of the start: sample [k] is
    [P + 0.2 k V0 + 0.02 k (k + 1) G], with [V0] the forward vector
    rotated by the orientation. *)
Theorem samples_on_parabola
    (h : heap) (g p r : loc) (G P : Vector3) (Q : Quaternion)
    (object : Object3D) :
  h !! g = Some (OVec G) → h !! p = Some (OVec P) → h !! r = Some (OQuat Q) →
  ∃ h' trace c,
    Arccaster.intersectObject g object p r h = (Ok (trace, c), h') ∧
    ∀ k l, trace !! k = Some l → (c = None ∨ S k < length trace)%nat →
           h' !! l
           = Some (OVec (flight_point G P
                           (Vec.applyQuaternion (mkVector3 0 0 (-1)) Q) k)).
Proof.
  intros Eg Ep Er.
  destruct (intersectObject_run h g G object p P r Q Eg Ep Er)
    as (h' & trace & c & E & Hp & Ht & Hc).
  exists h', trace, c. split; [exact E|]. intros k l El Hk.
  destruct (Forall2_points_lookup _ _ _ _ _ Ht El) as (v & Ev & Hv).
  rewrite Hv. do 2 f_equal.
  apply (free_flight_closed G _ P _ _
           (trajectory_free_flight G object P Q)
           (trajectory_first G object P Q) k v Ev).
  rewrite <- (Forall2_length _ _ _ Ht).
  destruct Hk as [->|Hk]; [left|by right].
  by eapply collision_matches_None.
Qed.

Lemma samples_on_parabola_witness :
  ∃ h' trace c,
    Arccaster.intersectObject 0 floor_scene 1 2
      (example_store (mkVector3 0 (-0.1) 0) (mkVector3 0 1 0) Quat.identity)
    = (Ok (trace, c), h') ∧
    ∀ k l, trace !! k = Some l → (c = None ∨ S k < length trace)%nat →
           h' !! l
           = Some (OVec (flight_point (mkVector3 0 (-0.1) 0)
                           (mkVector3 0 1 0)
                           (Vec.applyQuaternion (mkVector3 0 0 (-1))
                              Quat.identity) k)).
Proof.
  apply (samples_on_parabola
           (example_store (mkVector3 0 (-0.1) 0) (mkVector3 0 1 0)
              Quat.identity) 0%nat 1%nat 2%nat (mkVector3 0 (-0.1) 0)
           (mkVector3 0 1 0) Quat.identity floor_scene); reflexivity.
Defined.

(** ** Negotiating the base reference space *)

Lemma requestReferenceSpace_run {S} (session : XRSession) type (s : S) :
  requestReferenceSpace session type s
  = match referenceSpaceRequest session type with
    | Ok space => (Ok (Some space), s)
    | Throw e =>
        if decide (e = "NotSupportedError") then (Ok None, s)
        else (Throw e, s)
    end.
Proof.
  unfold requestReferenceSpace, try_catch, XRSession.requestReferenceSpace,
    bind.
  destruct (referenceSpaceRequest session type) as [space|e]; [done|].
  unfold throw. by destruct (decide (e = "NotSupportedError")).
Qed.

Lemma identity_unit : Quat.length Quat.identity = 1.
Proof.
  unfold Quat.length, Quat.identity. simpl.
  replace (0 * 0 + 0 * 0 + 0 * 0 + 1 * 1) with 1 by lra. apply sqrt_1.
Qed.

Lemma requestViewerReferenceSpace_run {S} (session : XRSession) (s : S) :
  requestViewerReferenceSpace session s
  = match referenceSpaceRequest session "viewer" with
    | Ok space => (Ok (Some (OffsetSpace space eyeHeightOffset)), s)
    | Throw e =>
        if decide (e = "NotSupportedError") then (Ok None, s)
        else (Throw e, s)
    end.
Proof.
  unfold requestViewerReferenceSpace, bind.
  rewrite requestReferenceSpace_run.
  destruct (referenceSpaceRequest session "viewer") as [space|e].
  - unfold bind. rewrite (XRRigidTransform_new_unit _ _ _ identity_unit).
    done.
  - by destruct (decide (e = "NotSupportedError")).
Qed.

Lemma initializeThreeXRSession_run {S} (session : XRSession) (s : S) :
  initializeThreeXRSession (Some session) s
  = match referenceSpaceRequest session "local-floor" with
    | Ok space => (Ok space, s)
    | Throw e =>
        if decide (e = "NotSupportedError") then
          match referenceSpaceRequest session "viewer" with
          | Ok viewer => (Ok (OffsetSpace viewer eyeHeightOffset), s)
          | Throw e' =>
              if decide (e' = "NotSupportedError")
              then (Throw "No supported reference space available", s)
              else (Throw e', s)
          end
        else (Throw e, s)
    end.
Proof.
  unfold initializeThreeXRSession, requestLocalFloorReferenceSpace, bind.
  rewrite requestReferenceSpace_run.
  destruct (referenceSpaceRequest session "local-floor") as [space|e];
    [done|].
  destruct (decide (e = "NotSupportedError")); [|done].
  rewrite requestViewerReferenceSpace_run.
  destruct (referenceSpaceRequest session "viewer") as [viewer|e']; [done|].
  by destruct (decide (e' = "NotSupportedError")).
Qed.

(** X3. [initializeThreeXRSession] answers a base space in exactly two
    cases: the device grants a local-floor space, which is then the base
    whatever a viewer request would do; or it reports local-floor as not
    supported and grants a viewer space, and the base is that space
    offset by the eye height (1.6 down, no rotation). *)
Theorem negotiation_succeeds {S} (session : XRSession) (s : S)
    (base : XRReferenceSpace) :
  initializeThreeXRSession (Some session) s = (Ok base, s) ↔
  referenceSpaceRequest session "local-floor" = Ok base ∨
  (referenceSpaceRequest session "local-floor" = Throw "NotSupportedError" ∧
   ∃ viewer, referenceSpaceRequest session "viewer" = Ok viewer ∧
             base = OffsetSpace viewer eyeHeightOffset).
Proof.
  rewrite initializeThreeXRSession_run.
  destruct (referenceSpaceRequest session "local-floor") as [space|e].
  - split.
    + intros [= ->]. by left.
    + intros [[= ->]|[[=] _]]. done.
  - destruct (decide (e = "NotSupportedError")) as [->|Ne].
    + destruct (referenceSpaceRequest session "viewer") as [viewer|e'].
      * split.
        -- intros [= <-]. right. split; [done|]. by exists viewer.
        -- intros [[=]|(_ & v & [= <-] & ->)]. done.
      * split.
        -- destruct (decide (e' = "NotSupportedError")); by intros [=].
        -- by intros [[=]|(_ & v & [=] & _)].
    + split; [by intros [=]|].
      intros [[=]|([= ->] & _)]. done.
Qed.

(** X4. [initializeThreeXRSession] fails in these ways and no state
    changes: without a session; with "No supported reference space
    available" when both space types are reported as not supported; and
    with the device's own error, unchanged, when a request is rejected
    for another reason (a rejected local-floor request ends the
    negotiation, the viewer space is not tried). *)
Theorem negotiation_fails {S} (session : XRSession) (s : S) (e : string) :
  initializeThreeXRSession (S := S) None s
  = (Throw "No session available", s) ∧
  (referenceSpaceRequest session "local-floor" = Throw "NotSupportedError" →
   referenceSpaceRequest session "viewer" = Throw "NotSupportedError" →
   initializeThreeXRSession (Some session) s
   = (Throw "No supported reference space available", s)) ∧
  (e ≠ "NotSupportedError" →
   referenceSpaceRequest session "local-floor" = Throw e →
   initializeThreeXRSession (Some session) s = (Throw e, s)) ∧
  (e ≠ "NotSupportedError" →
   referenceSpaceRequest session "local-floor" = Throw "NotSupportedError" →
   referenceSpaceRequest session "viewer" = Throw e →
   initializeThreeXRSession (Some session) s = (Throw e, s)).
Proof.
  split; [done|]. rewrite initializeThreeXRSession_run. repeat split.
  - by intros -> ->.
  - intros Ne ->. by destruct (decide (e = "NotSupportedError")).
  - intros Ne -> ->. simpl.
    by destruct (decide (e = "NotSupportedError")).
Qed.

Lemma negotiation_fails_witness :
  initializeThreeXRSession (S := unit) None tt
  = (Throw "No session available", tt) ∧
  initializeThreeXRSession (Some (example_session [])) tt
  = (Throw "No supported reference space available", tt) ∧
  initializeThreeXRSession
    (Some (mkXRSession (λ _, Throw "SecurityError"))) tt
  = (Throw "SecurityError", tt) ∧
  initializeThreeXRSession
    (Some (mkXRSession (λ type, if decide (type = "local-floor")
                                then Throw "NotSupportedError"
                                else Throw "SecurityError"))) tt
  = (Throw "SecurityError", tt).
Proof.
  split; [|split; [|split]].
  - apply (negotiation_fails (example_session []) tt "").
  - destruct (negotiation_fails (example_session []) tt "") as (_ & H & _).
    by apply H.
  - destruct (negotiation_fails (mkXRSession (λ _, Throw "SecurityError"))
                tt "SecurityError") as (_ & _ & H & _).
    by apply H.
  - destruct (negotiation_fails
                (mkXRSession (λ type, if decide (type = "local-floor")
                                      then Throw "NotSupportedError"
                                      else Throw "SecurityError"))
                tt "SecurityError") as (_ & _ & _ & H).
    by apply H.
Defined.

(** ** Connecting and disconnecting *)

Lemma set_connectedController_id w :
  set_connectedController (connectedController w) w = w.
Proof. by destruct w. Qed.

Lemma buildController_run {S} (data : XRInputSource) (s : S) :
  buildController data s
  = if decide (targetRayMode data = "tracked-pointer")
    then (Ok TrackedPointerLine, s)
    else if decide (targetRayMode data = "gaze") then (Ok GazeRing, s)
    else (Throw "Unknown controller type", s).
Proof. unfold buildController. by repeat case_decide. Qed.

(** The outcomes of [handleControllerConnected]. *)
Lemma handleControllerConnected_cases (data : XRInputSource) (w : World) :
  (∀ w', ThreeXRController.handleControllerConnected data w = (Ok tt, w') ↔
         connectedController w = None ∧
         ∃ g mesh, gamepad data = Some g ∧ (4 ≤ length (axes g))%nat ∧
                   (targetRayMode data = "tracked-pointer"
                    ∧ mesh = TrackedPointerLine
                    ∨ targetRayMode data = "gaze" ∧ mesh = GazeRing) ∧
                   w' = set_connectedController
                          (Some (mkThreeXRConnectedController g mesh)) w) ∧
  (∀ e w', ThreeXRController.handleControllerConnected data w = (Throw e, w') →
           w' = w) ∧
  (∀ g, connectedController w = None → gamepad data = Some g →
        (4 ≤ length (axes g))%nat →
        targetRayMode data ≠ "tracked-pointer" → targetRayMode data ≠ "gaze" →
        ThreeXRController.handleControllerConnected data w
        = (Throw "Unknown controller type", w)).
Proof.
  unfold ThreeXRController.handleControllerConnected.
  rewrite gets_bind.
  destruct (connectedController w) as [c|] eqn:Ec.
  { split; [|split]; try done.
    - intros w'. split; [done|]. by intros ([=] & _).
    - by intros e w' [= _ <-]. }
  unfold ThreeXRConnectedController.new, bind.
  destruct (gamepad data) as [g|] eqn:Eg.
  2:{ split; [|split]; try done.
      - intros w'. split; [done|]. by intros (_ & ? & ? & [=] & _).
      - by intros e w' [= _ <-]. }
  destruct (decide (length (axes g) < 4)%nat) as [Hs|Hl].
  { split; [|split].
    - intros w'. split; [done|]. intros (_ & ? & ? & [= <-] & ? & _). lia.
    - by intros e w' [= _ <-].
    - intros ? _ [= <-] ?. lia. }
  rewrite buildController_run.
  destruct (decide (targetRayMode data = "tracked-pointer")) as [Em|Nm];
    [|destruct (decide (targetRayMode data = "gaze")) as [Em'|Nm']].
  - split; [|split]; try done.
    intros w'. unfold ret, modify. split.
    + intros [= <-]. split; [done|]. exists g, TrackedPointerLine.
      repeat split; try done; [lia|by left].
    + intros (_ & ? & ? & [= <-] & _ & [[_ ->]|[E' _]] & ->); [done|].
      congruence.
  - split; [|split]; try done.
    intros w'. unfold ret, modify. split.
    + intros [= <-]. split; [done|]. exists g, GazeRing.
      repeat split; try done; [lia|by right].
    + intros (_ & ? & ? & [= <-] & _ & [[E' _]|[_ ->]] & ->); done.
  - split; [|split].
    + intros w'. split; [done|].
      by intros (_ & ? & ? & _ & _ & [[? _]|[? _]] & _).
    + by intros e w' [= _ <-].
    + done.
Qed.

(** X5. A connected event connects exactly when the slot is free, the
    input source has a gamepad with at least four axes and its targeting
    mode is tracked-pointer or gaze; the slot then holds that gamepad and
    the mesh of the mode.  In every other case the handler throws and the
    world is as before; an unknown mode throws "Unknown controller
    type". *)
Theorem connect_outcome (data : XRInputSource) (w : World) :
  (∀ w', ThreeXRController.handleControllerConnected data w = (Ok tt, w') ↔
         connectedController w = None ∧
         ∃ g mesh, gamepad data = Some g ∧ (4 ≤ length (axes g))%nat ∧
                   (targetRayMode data = "tracked-pointer"
                    ∧ mesh = TrackedPointerLine
                    ∨ targetRayMode data = "gaze" ∧ mesh = GazeRing) ∧
                   w' = set_connectedController
                          (Some (mkThreeXRConnectedController g mesh)) w) ∧
  (∀ e w', ThreeXRController.handleControllerConnected data w = (Throw e, w') →
           w' = w) ∧
  (∀ g, connectedController w = None → gamepad data = Some g →
        (4 ≤ length (axes g))%nat →
        targetRayMode data ≠ "tracked-pointer" → targetRayMode data ≠ "gaze" →
        ThreeXRController.handleControllerConnected data w
        = (Throw "Unknown controller type", w)).
Proof. apply handleControllerConnected_cases. Qed.

Lemma connect_outcome_witness :
  let free := example_world false false true None in
  let screen :=
    mkXRInputSource (Some (mkGamepad [0; 0; 0; 0] [])) "screen" in
  ThreeXRController.handleControllerConnected screen free
  = (Throw "Unknown controller type", free).
Proof.
  intros free screen.
  destruct (connect_outcome screen free) as (_ & _ & H).
  apply (H (mkGamepad [0; 0; 0; 0] [])); try done; simpl; lia.
Defined.

(** X6. Connecting and then disconnecting gives back the world with the
    free slot, a disconnected event on a free slot changes nothing, and
    the same input source connects again afterwards. *)
Theorem connect_disconnect_round_trip
    (data : XRInputSource) (w w1 : World) :
  connectedController w = None →
  ThreeXRController.handleControllerConnected data w = (Ok tt, w1) →
  ThreeXRController.handleControllerDisconnected w = (Ok tt, w) ∧
  ThreeXRController.handleControllerDisconnected w1 = (Ok tt, w) ∧
  ∀ w2, ThreeXRController.handleControllerDisconnected w1 = (Ok tt, w2) →
        ThreeXRController.handleControllerConnected data w2 = (Ok tt, w1).
Proof.
  intros Ec E1.
  destruct (proj1 (proj1 (handleControllerConnected_cases data w) w1) E1)
    as (_ & g & mesh & _ & _ & _ & ->).
  assert (Hd : ThreeXRController.handleControllerDisconnected
                 (set_connectedController
                    (Some (mkThreeXRConnectedController g mesh)) w)
               = (Ok tt, w)).
  { unfold ThreeXRController.handleControllerDisconnected.
    rewrite gets_bind. destruct w. simpl in *. by subst. }
  split; [|split; [exact Hd|]].
  - unfold ThreeXRController.handleControllerDisconnected.
    by rewrite gets_bind, Ec.
  - intros w2. rewrite Hd. by intros [= <-].
Qed.

Lemma connect_disconnect_round_trip_witness :
  let w := example_world false false true None in
  let data := mkXRInputSource (Some (mkGamepad [0; 0; 0.3; 0.4] [])) "gaze" in
  let w1 := set_connectedController
              (Some (mkThreeXRConnectedController
                       (mkGamepad [0; 0; 0.3; 0.4] []) GazeRing)) w in
  ThreeXRController.handleControllerDisconnected w = (Ok tt, w) ∧
  ThreeXRController.handleControllerDisconnected w1 = (Ok tt, w) ∧
  ∀ w2, ThreeXRController.handleControllerDisconnected w1 = (Ok tt, w2) →
        ThreeXRController.handleControllerConnected data w2 = (Ok tt, w1).
Proof.
  intros w data w1.
  apply (connect_disconnect_round_trip data w w1); reflexivity.
Defined.

(** ** Where the marker goes *)

(** [TeleportationArc.update] with its whole effect on the store: the
    marker is placed, every other object that was there is as before. *)
Lemma TeleportationArc_update_effect rig w object angle G P Q Mp Mq :
  store w !! gravity rig = Some (OVec G) →
  store w !! arc_position rig = Some (OVec P) →
  store w !! arc_quaternion rig = Some (OQuat Q) →
  store w !! marker_position rig = Some (OVec Mp) →
  store w !! marker_quaternion rig = Some (OQuat Mq) →
  ∃ h',
    TeleportationArc.update rig object angle w
    = (Ok tt,
       set_marker_visible (landing rig (Reference.trajectory G object P Q).2)
         (set_line_geometry (Reference.trajectory G object P Q).1
            (set_store h' w))) ∧
    (∀ l o, l ≠ marker_position rig → l ≠ marker_quaternion rig →
            store w !! l = Some o → h' !! l = Some o) ∧
    h' !! marker_position rig
    = Some (OVec (placed_position rig
                    (Reference.trajectory G object P Q).2 Mp)) ∧
    h' !! marker_quaternion rig
    = Some (OQuat (placed_quaternion rig
                     (Reference.trajectory G object P Q).2 angle Mq)).
Proof.
  destruct w as [h mv lv lg it ta cc rs ho calls]. wsimpl.
  intros Eg EP EQ EMp EMq.
  pose proof (lookup_lt_Some _ _ _ Eg).
  pose proof (lookup_lt_Some _ _ _ EP).
  pose proof (lookup_lt_Some _ _ _ EQ).
  assert (Nmq : marker_quaternion rig ≠ marker_position rig) by congruence.
  set (h1 := h ++ [OVec (mkVector3 0 0 0)]).
  set (h2 := h1 ++ [OQuat Quat.identity]).
  set (h3 := <[length h := OVec P]> h2).
  set (h4 := <[length h1 := OQuat Q]> h3).
  assert (L1 : length h1 = S (length h))
    by (subst h1; rewrite length_app; simpl; lia).
  assert (E2p : h2 !! length h = Some (OVec (mkVector3 0 0 0)))
    by (subst h2 h1; heap_lookup).
  assert (E2a : h2 !! arc_position rig = Some (OVec P))
    by (subst h2 h1; heap_lookup).
  assert (E3r : h3 !! length h1 = Some (OQuat Quat.identity)).
  { subst h3. rewrite list_lookup_insert_ne by lia. subst h2. heap_lookup. }
  assert (E3a : h3 !! arc_quaternion rig = Some (OQuat Q)).
  { subst h3. rewrite list_lookup_insert_ne by lia. subst h2 h1. heap_lookup. }
  assert (E4g : h4 !! gravity rig = Some (OVec G)).
  { subst h4 h3. rewrite !list_lookup_insert_ne by lia.
    subst h2 h1. heap_lookup. }
  assert (E4p : h4 !! length h = Some (OVec P)).
  { subst h4. rewrite list_lookup_insert_ne by lia. subst h3. heap_lookup. }
  assert (E4r : h4 !! length h1 = Some (OQuat Q)) by (subst h4; heap_lookup).
  assert (Hp4 : preserves h h4).
  { subst h4 h3. do 2 (apply preserves_insert; [|lia]).
    subst h2 h1. eapply preserves_trans; apply preserves_app. }
  destruct (intersectObject_run h4 _ G object _ P _ Q E4g E4p E4r)
    as (h5 & trace & c & E5 & Hp5 & Ht & Hc).
  assert (Hp : preserves h h5) by (by eapply preserves_trans).
  unfold TeleportationArc.update, Vector3.new, Quaternion.new.
  erewrite (on_store_bind (new_obj _)); [|reflexivity]. wsimpl. fold h1.
  erewrite (on_store_bind (new_obj _)); [|reflexivity]. wsimpl. fold h2.
  wrun (copy_run _ _ _ _ _ E2p E2a). fold h3.
  wrun (Quaternion_copy_run _ _ _ _ _ E3r E3a). fold h4.
  wrun E5. wrun (read_points_run _ _ _ Ht). wpure.
  destruct (Reference.trajectory G object P Q) as [samples c0].
  cbn [fst snd] in *. destruct c as [i|], c0 as [hit|]; try done.
  - cbn [collision_matches landing placed_position placed_quaternion] in *.
    wrun (Intersection_read_run _ _ _ Hc). wpure.
    destruct Hc as (_ & Epi & En & _).
    destruct (validateIntersection rig hit).
    + wrun (copy_run _ _ _ _ _ (Hp _ _ EMp) Epi).
      set (h6 := <[marker_position rig := OVec (hit_point hit)]> h5).
      assert (E6m : h6 !! marker_position rig = Some (OVec (hit_point hit)))
        by (subst h6; eapply lookup_written; by apply Hp).
      assert (E6q : h6 !! marker_quaternion rig = Some (OQuat Mq)).
      { subst h6. rewrite list_lookup_insert_ne by done. by apply Hp. }
      rewrite <- En. destruct (normal i).
      * erewrite (on_store_bind (Quaternion.setFromAxisAngle _ _ _));
          [|exact (setFromAxisAngle_run _ _ _ _ _ E6q)].
        wsimpl.
        exists (<[marker_quaternion rig :=
                    OQuat (Quat.setFromAxisAngle (mkVector3 0 1 0) angle)]> h6).
        split; [reflexivity|]. split; [|split].
        -- intros l o ? ? E. subst h6. rewrite !list_lookup_insert_ne by done.
           by apply Hp.
        -- by rewrite list_lookup_insert_ne.
        -- by eapply lookup_written.
      * wpure. exists h6. split; [reflexivity|]. split; [|done].
        intros l o ? ? E. subst h6. rewrite list_lookup_insert_ne by done.
        by apply Hp.
    + wpure. exists h5. split; [reflexivity|].
      split; [|split]; [|by apply Hp..]. intros l o _ _ E. by apply Hp.
  - cbn [landing placed_position placed_quaternion]. wpure.
    exists h5. split; [reflexivity|].
    split; [|split]; [|by apply Hp..]. intros l o _ _ E. by apply Hp.
Qed.

(** X7. [TeleportationArc.update] moves the marker onto the point of the
    collision exactly when that collision is a place to land, and then
    turns it to the heading only if the hit has a normal; otherwise the
    marker keeps its position and rotation.  Every other object of the
    store is as before. *)
Theorem marker_placement
    (rig : Rig) (w : World) (object : Object3D) (angle : R)
    (G P Mp : Vector3) (Q Mq : Quaternion) :
  store w !! gravity rig = Some (OVec G) →
  store w !! arc_position rig = Some (OVec P) →
  store w !! arc_quaternion rig = Some (OQuat Q) →
  store w !! marker_position rig = Some (OVec Mp) →
  store w !! marker_quaternion rig = Some (OQuat Mq) →
  ∃ w', TeleportationArc.update rig object angle w = (Ok tt, w') ∧
    store w' !! marker_position rig
    = Some (OVec (placed_position rig
                    (Reference.trajectory G object P Q).2 Mp)) ∧
    store w' !! marker_quaternion rig
    = Some (OQuat (placed_quaternion rig
                     (Reference.trajectory G object P Q).2 angle Mq)) ∧
    (marker_visible w' = false →
     store w' !! marker_position rig = Some (OVec Mp) ∧
     store w' !! marker_quaternion rig = Some (OQuat Mq)) ∧
    (∀ l o, l ≠ marker_position rig → l ≠ marker_quaternion rig →
            store w !! l = Some o → store w' !! l = Some o).
Proof.
  intros Eg EP EQ EMp EMq.
  destruct (TeleportationArc_update_effect rig w object angle G P Q Mp Mq
              Eg EP EQ EMp EMq) as (h' & E & Hf & Hm & Hq).
  eexists. split; [exact E|]. wsimpl.
  split; [done|]. split; [done|]. split; [|done].
  rewrite Hm, Hq. unfold landing, placed_position, placed_quaternion.
  destruct (Reference.trajectory G object P Q).2 as [hit|]; [|done].
  by intros ->.
Qed.

Lemma marker_placement_witness :
  ∃ w', TeleportationArc.update example_rig floor_scene 1
          (example_world true false true None) = (Ok tt, w') ∧
    store w' !! marker_position example_rig
    = Some (OVec (placed_position example_rig
                    (Reference.trajectory (mkVector3 0 (-0.1) 0) floor_scene
                       (mkVector3 0 1 0) Quat.identity).2
                    (mkVector3 5 0 2.5))) ∧
    store w' !! marker_quaternion example_rig
    = Some (OQuat (placed_quaternion example_rig
                     (Reference.trajectory (mkVector3 0 (-0.1) 0) floor_scene
                        (mkVector3 0 1 0) Quat.identity).2 1
                     Quat.identity)) ∧
    (marker_visible w' = false →
     store w' !! marker_position example_rig
     = Some (OVec (mkVector3 5 0 2.5)) ∧
     store w' !! marker_quaternion example_rig
     = Some (OQuat Quat.identity)) ∧
    (∀ l o, l ≠ marker_position example_rig →
            l ≠ marker_quaternion example_rig →
            store (example_world true false true None) !! l = Some o →
            store w' !! l = Some o).
Proof.
  apply (marker_placement example_rig (example_world true false true None)
           floor_scene 1 (mkVector3 0 (-0.1) 0) (mkVector3 0 1 0)
           (mkVector3 5 0 2.5) Quat.identity Quat.identity); reflexivity.
Defined.

(** ** An aiming frame *)

Ltac nodup_facts H :=
  repeat match type of H with
         | NoDup (_ :: _) =>
             let A := fresh in
             pose proof (proj1 (proj1 (NoDup_cons _ _) H)) as A;
             apply (λ N, proj2 (proj1 (NoDup_cons _ _) N)) in H
         end;
  repeat match goal with
         | Hn : _ ∉ _ :: _ |- _ =>
             let A := fresh in
             pose proof (proj1 (proj1 (not_elem_of_cons _ _ _) Hn)) as A;
             apply (λ N, proj2 (proj1 (not_elem_of_cons _ _ _) N)) in Hn
         end.

(** World expressions down to their fields. *)
Ltac wnorm :=
  cbv beta iota delta
    [store marker_visible line_visible line_geometry isTeleporting
     teleportationAngle connectedController referenceSpace house
     setOffset_calls set_store set_marker_visible set_line_visible
     set_line_geometry set_isTeleporting set_teleportationAngle
     set_connectedController set_referenceSpace set_house
     set_setOffset_calls stopped] in *.

Lemma well_formed_transfer rig h h' :
  well_formed rig h →
  (∀ l o, l ≠ marker_position rig → l ≠ marker_quaternion rig →
          l ≠ arc_position rig → l ≠ arc_quaternion rig →
          h !! l = Some o → h' !! l = Some o) →
  (∃ v, h' !! marker_position rig = Some (OVec v)) →
  (∃ q, h' !! marker_quaternion rig = Some (OQuat q)) →
  (∃ v, h' !! arc_position rig = Some (OVec v)) →
  (∃ q, h' !! arc_quaternion rig = Some (OQuat q)) →
  well_formed rig h'.
Proof.
  intros [[G Eg] _ _ _ _ [Cp Ecp] [Cq Ecq] Hnd] Hf Hmp Hmq Hap Haq.
  pose proof Hnd as Hnd'. nodup_facts Hnd'.
  constructor; try done.
  - exists G. apply Hf; congruence.
  - exists Cp. apply Hf; congruence.
  - exists Cq. apply Hf; congruence.
Qed.

(** [TeleportationControls.update] while aiming: the heading is stored,
    the arc takes the pose of the controller, and the trajectory from
    that pose decides about line, marker and placement. *)
Lemma update_aiming_effect rig w object angle G Cp Cq Mp Mq :
  well_formed rig (store w) → isTeleporting w = true →
  store w !! gravity rig = Some (OVec G) →
  store w !! controller_position rig = Some (OVec Cp) →
  store w !! controller_quaternion rig = Some (OQuat Cq) →
  store w !! marker_position rig = Some (OVec Mp) →
  store w !! marker_quaternion rig = Some (OQuat Mq) →
  ∃ h',
    TeleportationControls.update rig object angle w
    = (Ok tt,
       set_line_visible true
         (set_marker_visible
            (landing rig (Reference.trajectory G object Cp Cq).2)
            (set_line_geometry (Reference.trajectory G object Cp Cq).1
               (set_store h' (set_teleportationAngle angle w))))) ∧
    well_formed rig h' ∧
    h' !! gravity rig = Some (OVec G) ∧
    h' !! controller_position rig = Some (OVec Cp) ∧
    h' !! controller_quaternion rig = Some (OQuat Cq) ∧
    h' !! arc_position rig = Some (OVec Cp) ∧
    h' !! arc_quaternion rig = Some (OQuat Cq) ∧
    h' !! marker_position rig
    = Some (OVec (placed_position rig
                    (Reference.trajectory G object Cp Cq).2 Mp)) ∧
    h' !! marker_quaternion rig
    = Some (OQuat (placed_quaternion rig
                     (Reference.trajectory G object Cp Cq).2 angle Mq)).
Proof.
  intros Hwf Ht Eg Ecp Ecq Emp Emq.
  pose proof Hwf as [_ _ _ [Ap Eap] [Aq Eaq] _ _ Hnd]. nodup_facts Hnd.
  destruct w as [h mv lv lg it ta cc rs ho calls]. wsimpl. subst it.
  set (hA := <[arc_position rig := OVec Cp]> h).
  set (hB := <[arc_quaternion rig := OQuat Cq]> hA).
  assert (EAq : hA !! arc_quaternion rig = Some (OQuat Aq)).
  { subst hA. by rewrite list_lookup_insert_ne by congruence. }
  assert (EAc : hA !! controller_quaternion rig = Some (OQuat Cq)).
  { subst hA. by rewrite list_lookup_insert_ne by congruence. }
  assert (HB : ∀ l o, l ≠ arc_position rig → l ≠ arc_quaternion rig →
                      h !! l = Some o → hB !! l = Some o).
  { intros l o ? ? E. subst hB hA.
    by rewrite !list_lookup_insert_ne by congruence. }
  assert (EBp : hB !! arc_position rig = Some (OVec Cp)).
  { subst hB hA. rewrite list_lookup_insert_ne by congruence.
    by eapply lookup_written. }
  assert (EBq : hB !! arc_quaternion rig = Some (OQuat Cq))
    by (subst hB; by eapply lookup_written).
  destruct (TeleportationArc_update_effect rig
              (mkWorld hB mv lv lg true angle cc rs ho calls) object angle
              G Cp Cq Mp Mq) as (h' & E & Hf & Hm & Hq); wsimpl.
  { apply HB; congruence. } { done. } { done. }
  { apply HB; congruence. } { apply HB; congruence. }
  exists h'. split.
  { unfold TeleportationControls.update. do 2 wpure.
    wrun (copy_run _ _ _ _ _ Eap Ecp). fold hA.
    wrun (Quaternion_copy_run _ _ _ _ _ EAq EAc). fold hB.
    erewrite bind_Ok; [|exact E]. wpure. by wnorm. }
  assert (Hframe : ∀ l o, l ≠ marker_position rig →
                          l ≠ marker_quaternion rig →
                          l ≠ arc_position rig → l ≠ arc_quaternion rig →
                          h !! l = Some o → h' !! l = Some o).
  { intros l o ? ? ? ? El. apply Hf; [done..|]. by apply HB. }
  assert (Eap' : h' !! arc_position rig = Some (OVec Cp))
    by (apply Hf; congruence).
  assert (Eaq' : h' !! arc_quaternion rig = Some (OQuat Cq))
    by (apply Hf; congruence).
  split.
  { eapply well_formed_transfer; eauto. }
  repeat split; try done; apply Hframe; congruence.
Qed.

Lemma not_released (a b : R) :
  ¬ (a = 0 ∧ b = 0) → bool_decide (a = 0) && bool_decide (b = 0) = false.
Proof.
  intros N. destruct (decide (a = 0)) as [->|Na].
  - rewrite bool_decide_eq_true_2 by done. simpl.
    apply bool_decide_eq_false_2. intros ->. by apply N.
  - by rewrite (bool_decide_eq_false_2 _ Na).
Qed.

Lemma example_well_formed t m l c :
  well_formed example_rig (store (example_world t m l c)).
Proof.
  constructor; try by eexists.
  by apply (bool_decide_unpack _).
Qed.

(** X8. A frame of an aiming controller whose stick is not exactly at
    rest stores the stick angle plus the controller's yaw as heading,
    keeps aiming, shows the line, rebuilds it from the trajectory that
    starts at the controller's position with its orientation, shows the
    marker exactly when that trajectory ends on a place to land, and
    leaves the controller's pose and the gravity as they were. *)
Theorem aiming_frame
    (rig : Rig) (w : World) (c : ThreeXRConnectedController) (a b : R)
    (G Cp Mp : Vector3) (Cq Mq : Quaternion) :
  well_formed rig (store w) → state w = Aiming →
  connectedController w = Some c →
  createController.axis (connected_gamepad c) 2 = a →
  createController.axis (connected_gamepad c) 3 = b →
  ¬ (a = 0 ∧ b = 0) →
  store w !! gravity rig = Some (OVec G) →
  store w !! controller_position rig = Some (OVec Cp) →
  store w !! controller_quaternion rig = Some (OQuat Cq) →
  store w !! marker_position rig = Some (OVec Mp) →
  store w !! marker_quaternion rig = Some (OQuat Mq) →
  ∃ w', createController.update rig w = (Ok tt, w') ∧
    state w' = Aiming ∧
    teleportationAngle w' = Vector2.angle (- b) (- a) + Euler.yaw_YXZ Cq ∧
    line_visible w' = true ∧
    line_geometry w' = (Reference.trajectory G (house w) Cp Cq).1 ∧
    line_geometry w' !! 0%nat = Some Cp ∧
    marker_visible w' = landing rig (Reference.trajectory G (house w) Cp Cq).2 ∧
    store w' !! marker_position rig
    = Some (OVec (placed_position rig
                    (Reference.trajectory G (house w) Cp Cq).2 Mp)) ∧
    store w' !! controller_position rig = Some (OVec Cp) ∧
    store w' !! controller_quaternion rig = Some (OQuat Cq) ∧
    store w' !! gravity rig = Some (OVec G) ∧
    setOffset_calls w' = setOffset_calls w ∧
    referenceSpace w' = referenceSpace w.
Proof.
  intros Hwf Hs Ec Ea Eb Hab Eg Ecp Ecq Emp Emq.
  assert (Ht : isTeleporting w = true)
    by (unfold state in Hs; by destruct (isTeleporting w)).
  rewrite (update_frame rig w c Cq Ec Ecq). cbv zeta.
  rewrite Ea, Eb, Ht, (not_released a b Hab).
  destruct (update_aiming_effect rig w (house w)
              (Vector2.angle (- b) (- a) + Euler.yaw_YXZ Cq)
              G Cp Cq Mp Mq Hwf Ht Eg Ecp Ecq Emp Emq)
    as (h' & E & _ & Hg & Hcp & Hcq & _ & _ & Hm & _).
  pose proof (trajectory_first G (house w) Cp Cq) as Hfirst.
  revert E Hm Hfirst.
  generalize (Reference.trajectory G (house w) Cp Cq) as traj.
  intros traj E Hm Hfirst.
  eexists. split; [erewrite bind_Ok by exact E; reflexivity|].
  destruct w as [h mv lv lg it ta cc rs ho calls]. unfold state. wnorm.
  subst it.
  split; [reflexivity|]. split; [reflexivity|]. split; [reflexivity|].
  split; [reflexivity|]. split; [exact Hfirst|].
  split; [reflexivity|]. split; [exact Hm|]. split; [exact Hcp|].
  split; [exact Hcq|]. split; [exact Hg|]. split; reflexivity.
Qed.

Lemma aiming_frame_witness :
  let w := example_world true false true (Some (example_controller 0.6 0)) in
  ∃ w', createController.update example_rig w = (Ok tt, w') ∧
    state w' = Aiming ∧
    teleportationAngle w'
    = Vector2.angle (- 0) (- (0.6)) + Euler.yaw_YXZ Quat.identity ∧
    line_visible w' = true ∧
    line_geometry w'
    = (Reference.trajectory (mkVector3 0 (-0.1) 0) (house w)
         (mkVector3 0 1 0) Quat.identity).1 ∧
    line_geometry w' !! 0%nat = Some (mkVector3 0 1 0) ∧
    marker_visible w'
    = landing example_rig
        (Reference.trajectory (mkVector3 0 (-0.1) 0) (house w)
           (mkVector3 0 1 0) Quat.identity).2 ∧
    store w' !! marker_position example_rig
    = Some (OVec (placed_position example_rig
                    (Reference.trajectory (mkVector3 0 (-0.1) 0) (house w)
                       (mkVector3 0 1 0) Quat.identity).2
                    (mkVector3 5 0 2.5))) ∧
    store w' !! controller_position example_rig
    = Some (OVec (mkVector3 0 1 0)) ∧
    store w' !! controller_quaternion example_rig
    = Some (OQuat Quat.identity) ∧
    store w' !! gravity example_rig = Some (OVec (mkVector3 0 (-0.1) 0)) ∧
    setOffset_calls w' = setOffset_calls w ∧
    referenceSpace w' = referenceSpace w.
Proof.
  intros w.
  apply (aiming_frame example_rig w (example_controller 0.6 0) 0.6 0
           (mkVector3 0 (-0.1) 0) (mkVector3 0 1 0) (mkVector3 5 0 2.5)
           Quat.identity Quat.identity); try reflexivity.
  - apply example_well_formed.
  - intros [H _]. lra.
Defined.

(** ** Every frame *)

Lemma well_formed_preserves rig h h' :
  well_formed rig h → preserves h h' → well_formed rig h'.
Proof.
  intros [[? ?] [? ?] [? ?] [? ?] [? ?] [? ?] [? ?] Hnd] Hp.
  constructor; eauto.
Qed.

Lemma magnitude_threshold (a b : R) :
  sqrt (a * a + b * b) > 0.5 ↔ a * a + b * b > 0.25.
Proof.
  assert (H0 : 0 <= a * a + b * b) by nra.
  assert (E : sqrt 0.25 = 0.5).
  { replace 0.25 with (0.5 * 0.5) by lra. apply sqrt_square. lra. }
  rewrite <- E. split; intros H.
  - apply Rnot_le_gt. intros Hle. apply sqrt_le_1_alt in Hle. lra.
  - apply sqrt_lt_1; lra.
Qed.

Lemma simulate_collision_first_hit scene G n : ∀ P V samples hit,
  (Reference.simulate scene G n P V samples).2 = Some hit →
  first_hit_of scene hit.
Proof.
  induction n as [|n IH]; intros P V samples hit; [done|].
  cbn [Reference.simulate]. cbv zeta.
  destruct (last samples) as [previous|]; [|apply IH].
  destruct (Reference.nearest_hit scene previous _) as [hit'|] eqn:En;
    [|apply IH].
  intros [= <-]. unfold Reference.nearest_hit in En. by do 4 eexists.
Qed.

Lemma trajectory_collision_first_hit G scene P Q hit :
  (Reference.trajectory G scene P Q).2 = Some hit → first_hit_of scene hit.
Proof. apply simulate_collision_first_hit. Qed.

(** The five things a frame of a connected controller can do. *)
Lemma frame_outcome rig w c :
  well_formed rig (store w) → connectedController w = Some c →
  ∃ w', createController.update rig w = (Ok tt, w') ∧
    well_formed rig (store w') ∧ house w' = house w ∧
    connectedController w' = Some c ∧
    ((isTeleporting w = false ∧
      ¬ sqrt (createController.axis (connected_gamepad c) 2
              * createController.axis (connected_gamepad c) 2
              + createController.axis (connected_gamepad c) 3
                * createController.axis (connected_gamepad c) 3) > 0.5 ∧
      w' = w) ∨
     (isTeleporting w = false ∧
      sqrt (createController.axis (connected_gamepad c) 2
            * createController.axis (connected_gamepad c) 2
            + createController.axis (connected_gamepad c) 3
              * createController.axis (connected_gamepad c) 3) > 0.5 ∧
      w' = set_isTeleporting true w) ∨
     (isTeleporting w = true ∧ stick_at w 0 0 ∧ marker_visible w = true ∧
      ∃ Mp h', store w !! marker_position rig = Some (OVec Mp) ∧
        preserves (store w) h' ∧
        w' = set_referenceSpace
               (OffsetSpace (baseReferenceSpace rig)
                  (offsetOf Mp (teleportationAngle w)))
               (set_store h'
                  (set_setOffset_calls
                     (setOffset_calls w ++ [(Mp, teleportationAngle w)])
                     (stopped w)))) ∨
     (isTeleporting w = true ∧ stick_at w 0 0 ∧ marker_visible w = false ∧
      w' = stopped w) ∨
     (isTeleporting w = true ∧ ¬ stick_at w 0 0 ∧
      isTeleporting w' = true ∧ line_visible w' = true ∧
      setOffset_calls w' = setOffset_calls w ∧
      referenceSpace w' = referenceSpace w ∧
      (marker_visible w' = true →
       ∃ hit, first_hit_of (house w) hit ∧
              validateIntersection rig hit = true ∧
              store w' !! marker_position rig
              = Some (OVec (hit_point hit))))).
Proof.
  intros Hwf Ec.
  pose proof Hwf as [[G Eg] [Mp Emp] [Mq Emq] _ _ [Cp Ecp] [Cq Ecq] _].
  rewrite (update_frame rig w c Cq Ec Ecq). cbv zeta.
  set (a := createController.axis (connected_gamepad c) 2).
  set (b := createController.axis (connected_gamepad c) 3).
  assert (Hstick : ∀ x y, stick_at w x y ↔ a = x ∧ b = y).
  { intros x y. unfold stick_at. rewrite Ec. split.
    - by intros (? & [= <-] & ?).
    - intros ?. by exists c. }
  destruct (isTeleporting w) eqn:Ht.
  - destruct (decide (a = 0 ∧ b = 0)) as [[Ea Eb]|Hab].
    + rewrite Ea, Eb, !bool_decide_eq_true_2 by done. cbn [andb].
      destruct (marker_visible w) eqn:Hv.
      * destruct (commit_run rig w Mp Emp) as (h' & Hp & E).
        eexists. split; [by erewrite bind_Ok by exact E|].
        split; [destruct w; by eapply well_formed_preserves|].
        split; [by destruct w|]. split; [by destruct w|].
        right; right; left. repeat split; try done; [by apply Hstick|].
        by exists Mp, h'.
      * exists (stopped w).
        split; [done|]. split; [by destruct w|].
        split; [by destruct w|]. split; [by destruct w|].
        do 3 right; left. repeat split; try done. by apply Hstick.
    + rewrite (not_released a b Hab).
      destruct (update_aiming_effect rig w (house w)
                  (Vector2.angle (- b) (- a) + Euler.yaw_YXZ Cq)
                  G Cp Cq Mp Mq Hwf Ht Eg Ecp Ecq Emp Emq)
        as (h' & E & Hwf' & _ & _ & _ & _ & _ & Hm & _).
      pose proof (trajectory_collision_first_hit G (house w) Cp Cq) as Hfirst.
      revert E Hm Hfirst.
      generalize (Reference.trajectory G (house w) Cp Cq).
      intros T E Hm Hfirst.
      eexists. split; [erewrite bind_Ok by exact E; reflexivity|].
      clear E. destruct w as [h mv lv lg it ta cc rs ho calls]. wnorm.
      split; [exact Hwf'|]. split; [reflexivity|]. split; [exact Ec|].
      do 4 right. split; [done|]. split; [by rewrite Hstick|].
      split; [done|]. split; [reflexivity|]. split; [reflexivity|].
      split; [reflexivity|].
      intros Hl. unfold landing in Hl. unfold placed_position in Hm.
      destruct T.2 as [hit|]; [|done]. rewrite Hl in Hm.
      exists hit. split; [by apply Hfirst|]. by split.
  - destruct (decide (sqrt (a * a + b * b) > 0.5)) as [Hm|Hm].
    + rewrite (bool_decide_eq_true_2 _ Hm).
      exists (set_isTeleporting true w).
      split; [done|]. split; [by destruct w|].
      split; [by destruct w|]. split; [by destruct w|].
      right; left. done.
    + rewrite (bool_decide_eq_false_2 _ Hm).
      exists w. split; [done|]. split; [done|]. split; [done|].
      split; [done|]. left. done.
Qed.

(** X9. No frame of the driving policy throws on a world whose store
    holds the rig's objects, whoever is connected and whatever the stick
    and the buttons report; the store still holds the rig's objects
    afterwards, and the frame neither connects nor disconnects. *)
Theorem frame_never_throws (rig : Rig) (w : World) :
  well_formed rig (store w) →
  ∃ w', createController.update rig w = (Ok tt, w') ∧
        well_formed rig (store w') ∧
        connectedController w' = connectedController w.
Proof.
  intros Hwf. destruct (connectedController w) as [c|] eqn:Ec.
  - destruct (frame_outcome rig w c Hwf Ec) as (w' & E & Hwf' & _ & Ec' & _).
    by exists w'.
  - exists w. split; [|done].
    unfold createController.update. by rewrite gets_bind, Ec.
Qed.

Lemma frame_never_throws_witness :
  let w := example_world true true true (Some (example_controller 0.3 0.4)) in
  ∃ w', createController.update example_rig w = (Ok tt, w') ∧
        well_formed example_rig (store w') ∧
        connectedController w' = connectedController w.
Proof.
  intros w. apply (frame_never_throws example_rig w).
  apply example_well_formed.
Defined.

(** X10. No frame moves the house, whatever the buttons report:
    [buttonPressed] compares each button with the state read in the same
    frame, so it is false for every button and neither [translateY] call
    is reached. *)
Theorem house_never_moves (rig : Rig) (w : World) :
  well_formed rig (store w) →
  ∃ w', createController.update rig w = (Ok tt, w') ∧ house w' = house w.
Proof.
  intros Hwf. destruct (connectedController w) as [c|] eqn:Ec.
  - destruct (frame_outcome rig w c Hwf Ec) as (w' & E & _ & Hh & _).
    by exists w'.
  - exists w. split; [|done].
    unfold createController.update. by rewrite gets_bind, Ec.
Qed.

Lemma house_never_moves_witness :
  let pressed_all :=
    mkThreeXRConnectedController
      (mkGamepad [0; 0; 0; 0]
         [mkGamepadButton true; mkGamepadButton true; mkGamepadButton true;
          mkGamepadButton true; mkGamepadButton true; mkGamepadButton true])
      TrackedPointerLine in
  let w := example_world false false true (Some pressed_all) in
  ∃ w', createController.update example_rig w = (Ok tt, w') ∧
        house w' = house w.
Proof.
  intros pressed_all w. apply (house_never_moves example_rig w).
  apply example_well_formed.
Defined.

(** X11. A frame calls [setOffset] only for an aiming controller whose
    stick is exactly at rest while the marker is visible, and then once,
    with the marker's position and the stored heading, installing the base
    space offset for them; any other frame leaves the log of calls and the
    active reference space as they were. *)
Theorem teleport_only_on_release (rig : Rig) (w : World) :
  well_formed rig (store w) →
  ∃ w', createController.update rig w = (Ok tt, w') ∧
    ((state w = Aiming ∧ stick_at w 0 0 ∧ marker_visible w = true ∧
      ∃ Mp, store w !! marker_position rig = Some (OVec Mp) ∧
            setOffset_calls w'
            = setOffset_calls w ++ [(Mp, teleportationAngle w)] ∧
            referenceSpace w'
            = OffsetSpace (baseReferenceSpace rig)
                (offsetOf Mp (teleportationAngle w))) ∨
     (¬ (state w = Aiming ∧ stick_at w 0 0 ∧ marker_visible w = true) ∧
      setOffset_calls w' = setOffset_calls w ∧
      referenceSpace w' = referenceSpace w)).
Proof.
  intros Hwf. destruct (connectedController w) as [c|] eqn:Ec.
  - destruct (frame_outcome rig w c Hwf Ec)
      as (w' & E & _ & _ & _ & Hcase).
    exists w'. split; [exact E|]. unfold state.
    destruct Hcase as [(Ht & _ & ->)|[(Ht & _ & ->)
      |[(Ht & Hs & Hv & Mp & h' & Em & _ & ->)
      |[(Ht & Hs & Hv & ->)|(Ht & Hs & _ & _ & Hc & Hr & _)]]]]; rewrite Ht.
    + right. split; [by intros ([=] & _)|done].
    + right. split; [by intros ([=] & _)|by destruct w].
    + left. repeat split; try done. exists Mp. by destruct w.
    + right. split; [intros (_ & _ & ?); congruence|by destruct w].
    + right. split; [by intros (_ & ? & _)|done].
  - exists w. split.
    { unfold createController.update. by rewrite gets_bind, Ec. }
    right. split; [|done]. intros (_ & (? & ? & _) & _). congruence.
Qed.

Lemma teleport_only_on_release_witness :
  let w := example_world true true true (Some (example_controller 0 0)) in
  ∃ w', createController.update example_rig w = (Ok tt, w') ∧
    ((state w = Aiming ∧ stick_at w 0 0 ∧ marker_visible w = true ∧
      ∃ Mp, store w !! marker_position example_rig = Some (OVec Mp) ∧
            setOffset_calls w'
            = setOffset_calls w ++ [(Mp, teleportationAngle w)] ∧
            referenceSpace w'
            = OffsetSpace (baseReferenceSpace example_rig)
                (offsetOf Mp (teleportationAngle w))) ∨
     (¬ (state w = Aiming ∧ stick_at w 0 0 ∧ marker_visible w = true) ∧
      setOffset_calls w' = setOffset_calls w ∧
      referenceSpace w' = referenceSpace w)).
Proof.
  intros w. apply (teleport_only_on_release example_rig w).
  apply example_well_formed.
Defined.

(** X12. An idle connected controller starts aiming exactly when the
    stick is further than 0.5 from rest, that is when [x * x + y * y]
    exceeds 0.25; the starting frame changes nothing else (the line is
    not shown before the next frame), and below the threshold the frame
    changes nothing at all. *)
Theorem start_threshold
    (rig : Rig) (w : World) (c : ThreeXRConnectedController) (a b : R) :
  well_formed rig (store w) → state w = Idle →
  connectedController w = Some c →
  createController.axis (connected_gamepad c) 2 = a →
  createController.axis (connected_gamepad c) 3 = b →
  (a * a + b * b > 0.25 →
   createController.update rig w = (Ok tt, set_isTeleporting true w)) ∧
  (a * a + b * b <= 0.25 → createController.update rig w = (Ok tt, w)).
Proof.
  intros Hwf Hs Ec Ea Eb.
  assert (Ht : isTeleporting w = false)
    by (unfold state in Hs; by destruct (isTeleporting w)).
  destruct (frame_outcome rig w c Hwf Ec) as (w' & E & _ & _ & _ & Hcase).
  rewrite Ea, Eb, magnitude_threshold in Hcase. rewrite E.
  destruct Hcase as [(_ & Hm & ->)|[(_ & Hm & ->)|[(? & _)|[(? & _)|(? & _)]]]];
    try congruence; split; intros; try done; lra.
Qed.

Lemma start_threshold_witness :
  let w a b :=
    example_world false false true (Some (example_controller a b)) in
  createController.update example_rig (w 0.3 0.4) = (Ok tt, w 0.3 0.4) ∧
  createController.update example_rig (w 0.3 0.5)
  = (Ok tt, set_isTeleporting true (w 0.3 0.5)).
Proof.
  intros w. split.
  - apply (start_threshold example_rig (w 0.3 0.4) (example_controller 0.3 0.4)
             0.3 0.4 (example_well_formed _ _ _ _) eq_refl eq_refl eq_refl
             eq_refl). lra.
  - apply (start_threshold example_rig (w 0.3 0.5) (example_controller 0.3 0.5)
             0.3 0.5 (example_well_formed _ _ _ _) eq_refl eq_refl eq_refl
             eq_refl). lra.
Defined.

(** The frame of an aiming controller whose stick is at rest. *)
Lemma release_frame rig w c Cq Mp :
  isTeleporting w = true → connectedController w = Some c →
  createController.axis (connected_gamepad c) 2 = 0 →
  createController.axis (connected_gamepad c) 3 = 0 →
  store w !! controller_quaternion rig = Some (OQuat Cq) →
  store w !! marker_position rig = Some (OVec Mp) →
  ∃ h', createController.update rig w
        = (Ok tt,
           if marker_visible w
           then set_referenceSpace
                  (OffsetSpace (baseReferenceSpace rig)
                     (offsetOf Mp (teleportationAngle w)))
                  (set_store h'
                     (set_setOffset_calls
                        (setOffset_calls w ++ [(Mp, teleportationAngle w)])
                        (stopped w)))
           else stopped w).
Proof.
  intros Ht Ec Ea Eb Ecq Emp.
  rewrite (update_frame rig w c Cq Ec Ecq). cbv zeta.
  rewrite Ea, Eb, Ht, !bool_decide_eq_true_2 by done. cbn [andb].
  destruct (commit_run rig w Mp Emp) as (h' & _ & E). exists h'.
  destruct (marker_visible w).
  - erewrite bind_Ok by exact E. reflexivity.
  - reflexivity.
Qed.

(** ** Aiming, then letting go *)

(** X13. An aiming frame followed, once the stick is back at rest, by
    another frame ends idle with line and marker hidden.  If the
    trajectory of the aiming frame ended on a place to land, the second
    frame calls [setOffset] once, with the point of that collision and the
    heading of the aiming frame, and installs the base space offset for
    them; if not, it calls nothing and the reference space stays. *)
Theorem aim_then_release
    (rig : Rig) (w : World) (c c0 : ThreeXRConnectedController) (a b : R)
    (G Cp Mp : Vector3) (Cq Mq : Quaternion) :
  well_formed rig (store w) → state w = Aiming →
  connectedController w = Some c →
  createController.axis (connected_gamepad c) 2 = a →
  createController.axis (connected_gamepad c) 3 = b →
  ¬ (a = 0 ∧ b = 0) →
  createController.axis (connected_gamepad c0) 2 = 0 →
  createController.axis (connected_gamepad c0) 3 = 0 →
  store w !! gravity rig = Some (OVec G) →
  store w !! controller_position rig = Some (OVec Cp) →
  store w !! controller_quaternion rig = Some (OQuat Cq) →
  store w !! marker_position rig = Some (OVec Mp) →
  store w !! marker_quaternion rig = Some (OQuat Mq) →
  ∃ w1 w2,
    createController.update rig w = (Ok tt, w1) ∧
    createController.update rig (set_connectedController (Some c0) w1)
    = (Ok tt, w2) ∧
    state w2 = Idle ∧ line_visible w2 = false ∧ marker_visible w2 = false ∧
    (∀ hit, (Reference.trajectory G (house w) Cp Cq).2 = Some hit →
            validateIntersection rig hit = true →
            setOffset_calls w2
            = setOffset_calls w
              ++ [(hit_point hit,
                   Vector2.angle (- b) (- a) + Euler.yaw_YXZ Cq)] ∧
            referenceSpace w2
            = OffsetSpace (baseReferenceSpace rig)
                (offsetOf (hit_point hit)
                   (Vector2.angle (- b) (- a) + Euler.yaw_YXZ Cq))) ∧
    (landing rig (Reference.trajectory G (house w) Cp Cq).2 = false →
     setOffset_calls w2 = setOffset_calls w ∧
     referenceSpace w2 = referenceSpace w).
Proof.
  intros Hwf Hs Ec Ea Eb Hab Ea0 Eb0 Eg Ecp Ecq Emp Emq.
  assert (Ht : isTeleporting w = true)
    by (unfold state in Hs; by destruct (isTeleporting w)).
  clear Hs.
  set (heading := Vector2.angle (- b) (- a) + Euler.yaw_YXZ Cq).
  destruct (update_aiming_effect rig w (house w) heading
              G Cp Cq Mp Mq Hwf Ht Eg Ecp Ecq Emp Emq)
    as (h' & E & _ & _ & _ & Hcq & _ & _ & Hm & _).
  revert E Hm. generalize (Reference.trajectory G (house w) Cp Cq).
  intros T E Hm.
  set (w1 := set_line_visible true
               (set_marker_visible (landing rig T.2)
                  (set_line_geometry T.1
                     (set_store h' (set_teleportationAngle heading w))))).
  assert (E1 : createController.update rig w = (Ok tt, w1)).
  { rewrite (update_frame rig w c Cq Ec Ecq). cbv zeta.
    rewrite Ea, Eb, Ht, (not_released a b Hab).
    erewrite bind_Ok by exact E. reflexivity. }
  destruct (release_frame rig (set_connectedController (Some c0) w1) c0 Cq
              (placed_position rig T.2 Mp) Ht eq_refl Ea0 Eb0 Hcq Hm)
    as (h'' & E2).
  exists w1. eexists. split; [exact E1|]. split; [exact E2|].
  clear E E1 E2. subst w1.
  destruct w as [h mv lv lg it ta cc rs ho calls]. unfold state. wnorm.
  destruct (landing rig T.2) eqn:Hl.
  - split; [reflexivity|]. split; [reflexivity|]. split; [reflexivity|].
    split; [|intros [=]].
    intros hit Eh Hv. unfold placed_position. rewrite Eh, Hv. by split.
  - split; [reflexivity|]. split; [reflexivity|]. split; [reflexivity|].
    split; [|by split].
    intros hit Eh Hv. unfold landing in Hl. rewrite Eh in Hl. congruence.
Qed.

Lemma aim_then_release_witness :
  let w := example_world true false true (Some (example_controller 0.6 0)) in
  let G := mkVector3 0 (-0.1) 0 in
  let Cp := mkVector3 0 1 0 in
  let heading := Vector2.angle (- 0) (- (0.6)) + Euler.yaw_YXZ Quat.identity in
  ∃ w1 w2,
    createController.update example_rig w = (Ok tt, w1) ∧
    createController.update example_rig
      (set_connectedController (Some (example_controller 0 0)) w1)
    = (Ok tt, w2) ∧
    state w2 = Idle ∧ line_visible w2 = false ∧ marker_visible w2 = false ∧
    (∀ hit, (Reference.trajectory G (house w) Cp Quat.identity).2 = Some hit →
            validateIntersection example_rig hit = true →
            setOffset_calls w2
            = setOffset_calls w ++ [(hit_point hit, heading)] ∧
            referenceSpace w2
            = OffsetSpace (baseReferenceSpace example_rig)
                (offsetOf (hit_point hit) heading)) ∧
    (landing example_rig (Reference.trajectory G (house w) Cp Quat.identity).2
     = false →
     setOffset_calls w2 = setOffset_calls w ∧
     referenceSpace w2 = referenceSpace w).
Proof.
  intros w G Cp heading.
  apply (aim_then_release example_rig w (example_controller 0.6 0)
           (example_controller 0 0) 0.6 0 G Cp (mkVector3 5 0 2.5)
           Quat.identity Quat.identity); try reflexivity.
  - apply example_well_formed.
  - intros [H _]. lra.
Defined.

(** ** Teleports are absolute *)

Lemma offsetOf_geometry P angle :
  vy (position (offsetOf P angle)) = - vy P ∧
  Vec.length (position (offsetOf P angle)) = Vec.length P ∧
  Quat.length (orientation (offsetOf P angle)) = 1.
Proof.
  split; [|split]; [| |apply yaw_quaternion_unit].
  - unfold offsetOf. cbn [position]. rewrite yaw_quaternion_components.
    rewrite applyQuaternion_about_y. by destruct P.
  - unfold offsetOf, Vec.length. cbn [position].
    rewrite yaw_quaternion_components, applyQuaternion_about_y.
    pose proof (sin2_cos2 (- angle / 2)) as H. unfold Rsqr in H.
    generalize dependent (sin (- angle / 2)).
    generalize dependent (cos (- angle / 2)). intros c s H.
    destruct P as [a b d]. unfold Vec.negate. cbn [vx vy vz]. f_equal.
    assert (H1 : 4 * s * s * (a * a + d * d) * (s * s + c * c)
                 = 4 * s * s * (a * a + d * d)) by (rewrite H; ring).
    lra.
Qed.

(** X14. Every [setOffset] offsets the base space, not the space that is
    active: after two calls the active space is the base offset for the
    second target alone, as if the first call had not happened, and the
    log holds both calls in order. *)
Theorem setOffset_is_absolute
    (rig : Rig) (w : World) (p1 p2 : loc) (P1 P2 : Vector3) (a1 a2 : R) :
  store w !! p1 = Some (OVec P1) → store w !! p2 = Some (OVec P2) →
  ∃ w1 w2 w2',
    ThreeXRSession.setOffset rig p1 a1 w = (Ok tt, w1) ∧
    ThreeXRSession.setOffset rig p2 a2 w1 = (Ok tt, w2) ∧
    ThreeXRSession.setOffset rig p2 a2 w = (Ok tt, w2') ∧
    referenceSpace w2 = referenceSpace w2' ∧
    referenceSpace w2 = OffsetSpace (baseReferenceSpace rig) (offsetOf P2 a2) ∧
    setOffset_calls w2 = setOffset_calls w ++ [(P1, a1); (P2, a2)].
Proof.
  intros E1 E2.
  destruct (setOffset_run rig w p1 P1 a1 E1) as (h1 & Hp1 & R1).
  destruct (setOffset_run rig w p2 P2 a2 E2) as (h2' & _ & R2').
  destruct (setOffset_run rig
              (set_referenceSpace
                 (OffsetSpace (baseReferenceSpace rig) (offsetOf P1 a1))
                 (set_store h1
                    (set_setOffset_calls (setOffset_calls w ++ [(P1, a1)])
                       w))) p2 P2 a2) as (h2 & _ & R2).
  { destruct w. wnorm. by apply Hp1. }
  eexists _, _, _. split; [exact R1|]. split; [exact R2|].
  split; [exact R2'|]. clear R1 R2 R2'.
  destruct w. wnorm. split; [reflexivity|]. split; [reflexivity|].
  by rewrite <- app_assoc.
Qed.

Lemma setOffset_is_absolute_witness :
  let w := example_world false false false None in
  ∃ w1 w2 w2',
    ThreeXRSession.setOffset example_rig 1%nat 0 w = (Ok tt, w1) ∧
    ThreeXRSession.setOffset example_rig 5%nat PI w1 = (Ok tt, w2) ∧
    ThreeXRSession.setOffset example_rig 5%nat PI w = (Ok tt, w2') ∧
    referenceSpace w2 = referenceSpace w2' ∧
    referenceSpace w2
    = OffsetSpace (baseReferenceSpace example_rig)
        (offsetOf (mkVector3 0 1 0) PI) ∧
    setOffset_calls w2
    = setOffset_calls w ++ [(mkVector3 5 0 2.5, 0); (mkVector3 0 1 0, PI)].
Proof.
  intros w.
  apply (setOffset_is_absolute example_rig w 1%nat 5%nat
           (mkVector3 5 0 2.5) (mkVector3 0 1 0) 0 PI); reflexivity.
Defined.

(** X15. The offset that [setOffset] installs for a target [P] turns
    about the vertical axis only, by a unit quaternion, and its position
    is as far from the origin as [P] is, at the height [- P.y]. *)
Theorem setOffset_geometry
    (rig : Rig) (w : World) (p : loc) (P : Vector3) (angle : R) :
  store w !! p = Some (OVec P) →
  ∃ w' t, ThreeXRSession.setOffset rig p angle w = (Ok tt, w') ∧
    referenceSpace w' = OffsetSpace (baseReferenceSpace rig) t ∧
    qx (orientation t) = 0 ∧ qz (orientation t) = 0 ∧
    Quat.length (orientation t) = 1 ∧
    vy (position t) = - vy P ∧
    Vec.length (position t) = Vec.length P.
Proof.
  intros E. destruct (setOffset_run rig w p P angle E) as (h' & _ & R).
  eexists _, (offsetOf P angle). split; [exact R|]. clear R.
  destruct (offsetOf_geometry P angle) as (Hy & Hl & Hq).
  split; [by destruct w|]. repeat split; try done.
  - unfold offsetOf. cbn [orientation]. rewrite yaw_quaternion_components.
    reflexivity.
  - unfold offsetOf. cbn [orientation]. rewrite yaw_quaternion_components.
    reflexivity.
Qed.

Lemma setOffset_geometry_witness :
  let w := example_world false false false None in
  ∃ w' t, ThreeXRSession.setOffset example_rig 1%nat (PI / 2) w = (Ok tt, w') ∧
    referenceSpace w' = OffsetSpace (baseReferenceSpace example_rig) t ∧
    qx (orientation t) = 0 ∧ qz (orientation t) = 0 ∧
    Quat.length (orientation t) = 1 ∧
    vy (position t) = - vy (mkVector3 5 0 2.5) ∧
    Vec.length (position t) = Vec.length (mkVector3 5 0 2.5).
Proof.
  intros w.
  apply (setOffset_geometry example_rig w 1%nat (mkVector3 5 0 2.5) (PI / 2)).
  reflexivity.
Defined.

(** ** Every world the events reach *)

Lemma sound_set_connectedController rig w0 w cc :
  sound rig w0 w → sound rig w0 (set_connectedController cc w).
Proof. intros [? ? ? ?]. by destruct w. Qed.

Lemma handleControllerConnected_world data w r w' :
  ThreeXRController.handleControllerConnected data w = (r, w') →
  ∃ cc, w' = set_connectedController cc w.
Proof.
  intros E. destruct (handleControllerConnected_cases data w) as (Hok & Hth & _).
  destruct r as [[]|e].
  - apply Hok in E as (_ & g & mesh & _ & _ & _ & ->). by eexists.
  - apply Hth in E as ->. exists (connectedController w).
    by rewrite set_connectedController_id.
Qed.

Lemma handleControllerDisconnected_world w r w' :
  ThreeXRController.handleControllerDisconnected w = (r, w') →
  ∃ cc, w' = set_connectedController cc w.
Proof.
  unfold ThreeXRController.handleControllerDisconnected.
  rewrite gets_bind. destruct (connectedController w) as [c|] eqn:Ec.
  - intros [= _ <-]. by eexists.
  - intros [= _ <-]. exists None. rewrite <- Ec.
    by rewrite set_connectedController_id.
Qed.

Lemma well_formed_tracked rig h p q :
  well_formed rig h →
  well_formed rig (<[controller_quaternion rig := OQuat q]>
                     (<[controller_position rig := OVec p]> h)).
Proof.
  intros [[G Eg] [Mp Emp] [Mq Emq] [Ap Eap] [Aq Eaq] [Cp Ecp] [Cq Ecq] Hnd].
  pose proof Hnd as Hnd'. nodup_facts Hnd'.
  assert (Hother : ∀ l o, l ≠ controller_position rig →
                          l ≠ controller_quaternion rig → h !! l = Some o →
                          <[controller_quaternion rig := OQuat q]>
                            (<[controller_position rig := OVec p]> h) !! l
                          = Some o).
  { intros l o ? ? E. by rewrite !list_lookup_insert_ne by congruence. }
  constructor; try done.
  - exists G. apply Hother; congruence.
  - exists Mp. apply Hother; congruence.
  - exists Mq. apply Hother; congruence.
  - exists Ap. apply Hother; congruence.
  - exists Aq. apply Hother; congruence.
  - exists p. rewrite list_lookup_insert_ne by congruence.
    by eapply lookup_written.
  - exists q. eapply lookup_written.
    rewrite list_lookup_insert_ne by congruence. exact Ecq.
Qed.

Lemma tracked_sound rig w0 w p q :
  sound rig w0 w →
  sound rig w0
    (set_store (<[controller_quaternion rig := OQuat q]>
                  (<[controller_position rig := OVec p]> (store w))) w).
Proof.
  intros [Hwf Hh Hm Hc].
  pose proof (wf_distinct _ _ Hwf) as Hnd. nodup_facts Hnd.
  destruct w as [h mv lv lg it ta cc rs ho calls]. wnorm.
  constructor; wnorm; try done.
  - by apply well_formed_tracked.
  - intros Hv. destruct (Hm Hv) as (Ht & hit & Hf & Hval & E).
    split; [done|]. exists hit. split; [done|]. split; [done|].
    by rewrite !list_lookup_insert_ne by congruence.
Qed.

Lemma frame_sound rig w0 w r w' :
  sound rig w0 w → createController.update rig w = (r, w') → sound rig w0 w'.
Proof.
  intros Hs E. destruct (connectedController w) as [c|] eqn:Ec.
  2:{ unfold createController.update in E. rewrite gets_bind, Ec in E.
      by injection E as <- <-. }
  destruct Hs as [Hwf Hh Hm (cs & Hcs & Hall)].
  destruct (frame_outcome rig w c Hwf Ec)
    as (w'' & E' & Hwf' & Hh' & _ & Hcase).
  rewrite E' in E. injection E as <- <-.
  destruct Hcase as [(Ht & _ & ->)|[(Ht & _ & ->)
    |[(Ht & Hst & Hv & Mp & h' & Em & Hp & ->)
    |[(Ht & Hst & Hv & ->)|(Ht & Hst & Ht' & _ & Hcalls & _ & Hmark)]]]].
  - by constructor; [| | |exists cs].
  - constructor; [by destruct w|by destruct w| |by exists cs; destruct w].
    intros Hv. destruct w. wnorm. destruct (Hm Hv) as (_ & H). by split.
  - destruct (Hm Hv) as (_ & hit & Hf & Hval & Em').
    assert (Mp = hit_point hit) as -> by congruence.
    constructor; [done|by destruct w|by destruct w|].
    exists (cs ++ [(hit_point hit, teleportationAngle w)]).
    destruct w as [h mv lv lg it ta cc rs ho calls]. wnorm.
    split; [by rewrite Hcs, <- app_assoc|].
    apply Forall_app. split; [done|]. apply Forall_singleton.
    by exists hit.
  - constructor; [by destruct w|by destruct w|by destruct w|].
    exists cs. by destruct w.
  - constructor; [done|congruence| |].
    + intros Hv. split; [done|]. rewrite <- Hh. by apply Hmark.
    + exists cs. by rewrite Hcalls.
Qed.

Lemma step_sound rig w0 w w' :
  sound rig w0 w → step rig w w' → sound rig w0 w'.
Proof.
  intros Hs [r w1 E|data r w1 E|r w1 E|p q|c g Ec].
  - by eapply frame_sound.
  - apply handleControllerConnected_world in E as [cc ->].
    by apply sound_set_connectedController.
  - apply handleControllerDisconnected_world in E as [cc ->].
    by apply sound_set_connectedController.
  - by apply tracked_sound.
  - by apply sound_set_connectedController.
Qed.

Lemma reachable_sound rig w0 w :
  well_formed rig (store w0) → marker_visible w0 = false →
  reachable rig w0 w → sound rig w0 w.
Proof.
  intros Hwf Hv. induction 1 as [|w w' _ IH Hstep].
  - constructor; [done|done|congruence|].
    exists []. by rewrite app_nil_r.
  - by eapply step_sound.
Qed.

(** *** The run that teleports *)

Lemma floor_created_well_formed : well_formed floor_rig (store floor_created).
Proof.
  constructor; try by eexists.
  by apply (bool_decide_unpack _).
Qed.

(** On the floor the first ray hits at once, where it starts. *)
Lemma floor_collision G P Q :
  (Reference.trajectory G floor_scene P Q).2
  = Some (mkHit 0 P (Some (mkVector3 0 1 0)) "floor").
Proof. reflexivity. Qed.

Lemma floor_landing hit :
  hit_normal hit = Some (mkVector3 0 1 0) → isGroundIntersection hit = true.
Proof.
  intros E. unfold isGroundIntersection. rewrite E. cbn [vy].
  apply bool_decide_eq_true. lra.
Qed.

(** The frames of the run, one by one: the world after each of them, up
    to the store that the aiming frame and the last frame leave. *)
Lemma teleport_run_frames :
  ∃ (w3 : World) (h4 : heap),
    let c06 := mkThreeXRConnectedController (mkGamepad [0; 0; 0.6; 0] [])
                 TrackedPointerLine in
    let c00 := mkThreeXRConnectedController (mkGamepad [0; 0; 0; 0] [])
                 TrackedPointerLine in
    let w1 := set_connectedController (Some c06) floor_created in
    let w2 := set_isTeleporting true w1 in
    let w4 := set_referenceSpace
                (OffsetSpace (baseReferenceSpace floor_rig)
                   (offsetOf (mkVector3 0 1 0) teleport_run_heading))
                (set_store h4
                   (set_setOffset_calls
                      [(mkVector3 0 1 0, teleport_run_heading)]
                      (stopped (set_connectedController (Some c00) w3)))) in
    ThreeXRController.handleControllerConnected pushed_stick floor_created
    = (Ok tt, w1) ∧
    createController.update floor_rig w1 = (Ok tt, w2) ∧
    createController.update floor_rig w2 = (Ok tt, w3) ∧
    connectedController w3 = Some c06 ∧
    createController.update floor_rig (set_connectedController (Some c00) w3)
    = (Ok tt, w4).
Proof.
  set (c06 := mkThreeXRConnectedController (mkGamepad [0; 0; 0.6; 0] [])
                TrackedPointerLine).
  set (c00 := mkThreeXRConnectedController (mkGamepad [0; 0; 0; 0] [])
                TrackedPointerLine).
  set (w1 := set_connectedController (Some c06) floor_created).
  set (w2 := set_isTeleporting true w1).
  assert (E1 : ThreeXRController.handleControllerConnected pushed_stick
                 floor_created = (Ok tt, w1)).
  { apply (proj1 (handleControllerConnected_cases pushed_stick floor_created)).
    split; [done|]. exists (mkGamepad [0; 0; 0.6; 0] []), TrackedPointerLine.
    repeat split; [simpl; lia|by left]. }
  assert (E2 : createController.update floor_rig w1 = (Ok tt, w2)).
  { rewrite (update_frame floor_rig w1 c06 Quat.identity eq_refl eq_refl).
    cbv zeta.
    change (createController.axis (connected_gamepad c06) 2) with 0.6.
    change (createController.axis (connected_gamepad c06) 3) with 0.
    change (isTeleporting w1) with false. cbv iota.
    rewrite bool_decide_eq_true_2 by (apply magnitude_threshold; lra).
    reflexivity. }
  destruct (update_aiming_effect floor_rig w2 (house w2) teleport_run_heading
              (mkVector3 0 (-0.1) 0) (mkVector3 0 1 0) Quat.identity
              (mkVector3 0 0 0) Quat.identity
              floor_created_well_formed eq_refl eq_refl eq_refl eq_refl
              eq_refl eq_refl)
    as (h3 & E3 & _ & _ & _ & Hcq & _ & _ & Hm & _).
  change (house w2) with floor_scene in E3, Hm.
  rewrite floor_collision in E3, Hm.
  assert (Hl : landing floor_rig
                 (Some (mkHit 0 (mkVector3 0 1 0) (Some (mkVector3 0 1 0))
                          "floor")) = true)
    by (by apply floor_landing).
  unfold placed_position in Hm. rewrite Hl in E3.
  change (validateIntersection floor_rig) with isGroundIntersection in Hm.
  rewrite floor_landing in Hm by done. cbn [hit_point] in Hm.
  revert E3. generalize (Reference.trajectory (mkVector3 0 (-0.1) 0)
                           floor_scene (mkVector3 0 1 0) Quat.identity).1.
  intros line E3.
  set (w3 := set_line_visible true
               (set_marker_visible true
                  (set_line_geometry line
                     (set_store h3
                        (set_teleportationAngle teleport_run_heading w2)))))
    in *.
  destruct (release_frame floor_rig (set_connectedController (Some c00) w3)
              c00 Quat.identity (mkVector3 0 1 0)
              eq_refl eq_refl eq_refl eq_refl Hcq Hm) as (h4 & E4).
  exists w3, h4. cbv zeta. split; [exact E1|]. split; [exact E2|].
  split.
  { change (createController.update floor_rig w2 = (Ok tt, w3)).
    rewrite (update_frame floor_rig w2 c06 Quat.identity eq_refl eq_refl).
    cbv zeta.
    change (createController.axis (connected_gamepad c06) 2) with 0.6.
    change (createController.axis (connected_gamepad c06) 3) with 0.
    change (isTeleporting w2) with true. cbv iota.
    rewrite not_released by (intros [? _]; lra).
    erewrite bind_Ok by exact E3. reflexivity. }
  split; [reflexivity|]. exact E4.
Qed.

Lemma teleport_run_reachable : reachable floor_rig floor_created teleport_run.
Proof.
  destruct teleport_run_frames as (w3 & h4 & E1 & E2 & E3 & Ec & E4).
  cbv zeta in *. unfold teleport_run, after. rewrite E1. cbn [snd].
  rewrite E2. cbn [snd]. rewrite E3. cbn [snd].
  eapply reachable_step; [|by eapply step_frame, surjective_pairing].
  eapply reachable_step;
    [|exact (step_gamepad floor_rig w3 _ (mkGamepad [0; 0; 0; 0] []) Ec)].
  eapply reachable_step; [|by eapply step_frame].
  eapply reachable_step; [|by eapply step_frame].
  eapply reachable_step; [|by eapply step_connected].
  apply reachable_start.
Qed.

Lemma teleport_run_commits :
  setOffset_calls teleport_run = [(mkVector3 0 1 0, teleport_run_heading)].
Proof.
  destruct teleport_run_frames as (w3 & h4 & E1 & E2 & E3 & Ec & E4).
  cbv zeta in *. unfold teleport_run, after. rewrite E1. cbn [snd].
  rewrite E2. cbn [snd]. rewrite E3. cbn [snd]. rewrite E4. reflexivity.
Qed.

(** X16. From a world whose store holds the rig's objects and whose
    marker is hidden, whatever frames, connection events, controller
    movements and gamepad readings follow: the store keeps holding the
    rig's objects, so the next frame returns without throwing; the house
    is the same; and the marker is visible only while aiming. *)
Theorem marker_only_while_aiming (rig : Rig) (w0 w : World) :
  well_formed rig (store w0) → marker_visible w0 = false →
  reachable rig w0 w →
  well_formed rig (store w) ∧ house w = house w0 ∧
  (marker_visible w = true → state w = Aiming) ∧
  ∃ w', createController.update rig w = (Ok tt, w').
Proof.
  intros Hwf Hv Hr.
  destruct (reachable_sound rig w0 w Hwf Hv Hr) as [Hwf' Hh Hm _].
  split; [done|]. split; [done|]. split.
  - intros Hv'. destruct (Hm Hv') as [Ht _]. unfold state. by rewrite Ht.
  - destruct (connectedController w) as [c|] eqn:Ec.
    + destruct (frame_outcome rig w c Hwf' Ec) as (w' & E & _). by exists w'.
    + exists w. unfold createController.update. by rewrite gets_bind, Ec.
Qed.

Lemma marker_only_while_aiming_witness :
  let w0 := example_world false false true (Some (example_controller 0 0)) in
  let w := set_connectedController (Some (example_controller 0.6 0)) w0 in
  well_formed example_rig (store w) ∧ house w = house w0 ∧
  (marker_visible w = true → state w = Aiming) ∧
  ∃ w', createController.update example_rig w = (Ok tt, w').
Proof.
  intros w0 w.
  apply (marker_only_while_aiming example_rig w0 w
           (example_well_formed _ _ _ _) eq_refl).
  apply (reachable_step _ _ w0 w (reachable_start _ _)).
  apply (step_gamepad _ w0 (example_controller 0 0)
           (connected_gamepad (example_controller 0.6 0))).
  reflexivity.
Defined.

(** X17. From such a world, every [setOffset] call that the frames of
    this rig make has for target the point of a hit that a ray cast at
    the house reported first and that the rig's [validateIntersection]
    accepted. *)
Theorem teleports_land_on_accepted_hits (rig : Rig) (w0 w : World) :
  well_formed rig (store w0) → marker_visible w0 = false →
  reachable rig w0 w →
  ∃ calls, setOffset_calls w = setOffset_calls w0 ++ calls ∧
           Forall (lands_on_accepted_hit rig (house w0)) calls.
Proof.
  intros Hwf Hv Hr.
  by destruct (reachable_sound rig w0 w Hwf Hv Hr) as [_ _ _ H].
Qed.

Lemma teleports_land_on_accepted_hits_witness :
  reachable floor_rig floor_created teleport_run ∧
  setOffset_calls teleport_run = [(mkVector3 0 1 0, teleport_run_heading)] ∧
  ∃ calls, setOffset_calls teleport_run = setOffset_calls floor_created ++ calls ∧
           Forall (lands_on_accepted_hit floor_rig (house floor_created)) calls.
Proof.
  split; [apply teleport_run_reachable|].
  split; [apply teleport_run_commits|].
  apply (teleports_land_on_accepted_hits floor_rig floor_created teleport_run).
  - apply floor_created_well_formed.
  - reflexivity.
  - apply teleport_run_reachable.
Defined.

(** ** Building the rig *)

(** What [createController] builds. *)
Lemma createController_effect
    (cp cq : loc) (base : XRReferenceSpace) (w : World)
    (P : Vector3) (Q : Quaternion) :
  cp ≠ cq → store w !! cp = Some (OVec P) → store w !! cq = Some (OQuat Q) →
  ∃ rig w', createController cp cq base w = (Ok rig, w') ∧
    well_formed rig (store w') ∧ preserves (store w) (store w') ∧
    controller_position rig = cp ∧ controller_quaternion rig = cq ∧
    baseReferenceSpace rig = base ∧
    validateIntersection rig = isGroundIntersection ∧
    store w' !! gravity rig = Some (OVec (mkVector3 0 (-0.1) 0)) ∧
    state w' = Idle ∧ connectedController w' = None ∧
    marker_visible w' = false ∧
    line_visible w' = true ∧ line_geometry w' = [] ∧
    referenceSpace w' = referenceSpace w ∧
    setOffset_calls w' = setOffset_calls w ∧ house w' = house w.
Proof.
  intros Hne Ep Eq.
  destruct w as [h mv lv lg it ta cc rs ho calls]. wnorm.
  pose proof (lookup_lt_Some _ _ _ Ep) as Lp.
  pose proof (lookup_lt_Some _ _ _ Eq) as Lq.
  eexists _, _. split; [reflexivity|]. unfold state. wnorm.
  cbn [gravity marker_position marker_quaternion arc_position arc_quaternion
       controller_position controller_quaternion validateIntersection
       baseReferenceSpace].
  rewrite !length_app. cbn [length].
  assert (Hp : preserves h
                 (((((h ++ [OVec (mkVector3 0 0 0)]) ++ [OQuat Quat.identity])
                     ++ [OVec (mkVector3 0 (-0.1) 0)])
                     ++ [OVec (mkVector3 0 0 0)]) ++ [OQuat Quat.identity])).
  { repeat (eapply preserves_trans; [|apply preserves_app]).
    apply preserves_refl. }
  assert (Hat : ∀ n k o, n = (length h + k)%nat →
             [OVec (mkVector3 0 0 0); OQuat Quat.identity;
              OVec (mkVector3 0 (-0.1) 0); OVec (mkVector3 0 0 0);
              OQuat Quat.identity] !! k = Some o →
             (((((h ++ [OVec (mkVector3 0 0 0)]) ++ [OQuat Quat.identity])
                  ++ [OVec (mkVector3 0 (-0.1) 0)])
                  ++ [OVec (mkVector3 0 0 0)]) ++ [OQuat Quat.identity])
             !! n = Some o).
  { intros n k o -> E. rewrite <- !app_assoc. cbn [app].
    by rewrite lookup_app_r, Nat.add_comm, Nat.add_sub by lia. }
  split; [|split; [exact Hp|]].
  - constructor; cbn [gravity marker_position marker_quaternion arc_position
                      arc_quaternion controller_position controller_quaternion].
    + eexists. apply (Hat _ 2%nat); [lia|done].
    + eexists. apply (Hat _ 0%nat); [lia|done].
    + eexists. apply (Hat _ 1%nat); [lia|done].
    + eexists. apply (Hat _ 3%nat); [lia|done].
    + eexists. apply (Hat _ 4%nat); [lia|done].
    + eexists. by apply Hp.
    + eexists. by apply Hp.
    + repeat (apply NoDup_cons; split;
              [rewrite ?elem_of_cons, elem_of_nil; lia|]).
      apply NoDup_nil_2.
  - repeat split; try reflexivity. apply (Hat _ 2%nat); [lia|done].
Qed.

(** X18. [createController] never throws.  Given the position and the
    quaternion of the tracked controller as two distinct objects, the rig
    it builds names seven distinct objects of the store with the gravity
    [(0, -0.1, 0)], validates with [isGroundIntersection] against the
    session's base space, and leaves every object that was there as it
    was; the controls start idle with nobody connected and the marker
    hidden, while the new line is visible and has no points yet. *)
Theorem createController_establishes
    (cp cq : loc) (base : XRReferenceSpace) (w : World)
    (P : Vector3) (Q : Quaternion) :
  cp ≠ cq → store w !! cp = Some (OVec P) → store w !! cq = Some (OQuat Q) →
  ∃ rig w', createController cp cq base w = (Ok rig, w') ∧
    well_formed rig (store w') ∧ preserves (store w) (store w') ∧
    controller_position rig = cp ∧ controller_quaternion rig = cq ∧
    baseReferenceSpace rig = base ∧
    validateIntersection rig = isGroundIntersection ∧
    store w' !! gravity rig = Some (OVec (mkVector3 0 (-0.1) 0)) ∧
    state w' = Idle ∧ connectedController w' = None ∧
    marker_visible w' = false ∧
    line_visible w' = true ∧ line_geometry w' = [] ∧
    referenceSpace w' = referenceSpace w ∧
    setOffset_calls w' = setOffset_calls w ∧ house w' = house w.
Proof. apply createController_effect. Qed.

Lemma createController_establishes_witness :
  let w := example_world true true false (Some (example_controller 0 0)) in
  ∃ rig w', createController 5%nat 6%nat (NativeSpace "viewer") w = (Ok rig, w') ∧
    well_formed rig (store w') ∧ preserves (store w) (store w') ∧
    controller_position rig = 5%nat ∧ controller_quaternion rig = 6%nat ∧
    baseReferenceSpace rig = NativeSpace "viewer" ∧
    validateIntersection rig = isGroundIntersection ∧
    store w' !! gravity rig = Some (OVec (mkVector3 0 (-0.1) 0)) ∧
    state w' = Idle ∧ connectedController w' = None ∧
    marker_visible w' = false ∧
    line_visible w' = true ∧ line_geometry w' = [] ∧
    referenceSpace w' = referenceSpace w ∧
    setOffset_calls w' = setOffset_calls w ∧ house w' = house w.
Proof.
  intros w.
  apply (createController_establishes 5%nat 6%nat (NativeSpace "viewer") w
           (mkVector3 0 1 0) Quat.identity); [lia|reflexivity|reflexivity].
Defined.

(** ** The desktop camera *)

(** The direction that [getWorldDirection] reads off the matrix is the
    forward vector turned by the camera's quaternion. *)
Lemma direction_elements q :
  mkVector3 (- (qx q * (qz q + qz q) + qw q * (qy q + qy q)))
            (- (qy q * (qz q + qz q) - qw q * (qx q + qx q)))
            (- (1 - (qx q * (qx q + qx q) + qy q * (qy q + qy q))))
  = Vec.applyQuaternion Reference.forward q.
Proof.
  unfold Vec.applyQuaternion, Reference.forward. cbn [vx vy vz].
  f_equal; lra.
Qed.

Lemma getWorldDirection_run h q t Q T :
  h !! q = Some (OQuat Q) → h !! t = Some (OVec T) →
  Camera.getWorldDirection q t h
  = (Ok tt,
     <[t := OVec (Vec.normalize (Vec.applyQuaternion Reference.forward Q))]> h).
Proof.
  intros Eq Et. unfold Camera.getWorldDirection.
  run (get_Quaternion_run _ _ _ Eq). cbv zeta.
  run (set_Vector3_run _ _ _ _ Et).
  rewrite direction_elements.
  erewrite normalize_run by (by eapply lookup_written).
  by rewrite list_insert_insert_eq.
Qed.

Lemma new_Vector3_run h a b c :
  Vector3.new a b c h = (Ok (length h), h ++ [OVec (mkVector3 a b c)]).
Proof. reflexivity. Qed.

Ltac hrun lem := erewrite bind_Ok; [|eapply lem; heap_lookup].

(** [render] moves the camera by a tenth of the velocity that the keys
    and the view direction give, and leaves every other object that was
    there as it was. *)
Lemma render_camera_run kb cp cq h P Q :
  h !! cp = Some (OVec P) → h !! cq = Some (OQuat Q) →
  ∃ h', render_camera kb cp cq h = (Ok tt, h') ∧
    h' !! cp
    = Some (OVec
        (let L := Vec.normalize
                    (mkVector3 (bsign (kb !! "w") - bsign (kb !! "s")) 0
                               (bsign (kb !! "d") - bsign (kb !! "a"))) in
         let D := Vec.normalize (Vec.applyQuaternion Reference.forward Q) in
         Vec.addScaled P
           (Vec.addScaled (Vec.addScaled (mkVector3 0 0 0) D (vx L))
              (mkVector3 (- vz D) 0 (vx D)) (vz L))
           0.1)) ∧
    (∀ l o, l ≠ cp → h !! l = Some o → h' !! l = Some o).
Proof.
  intros Ep Eq.
  pose proof (lookup_lt_Some _ _ _ Ep) as Lp.
  pose proof (lookup_lt_Some _ _ _ Eq) as Lq.
  unfold render_camera. cbv zeta.
  erewrite bind_Ok; [|apply new_Vector3_run].
  hrun normalize_run.
  erewrite bind_Ok; [|apply new_Vector3_run].
  hrun getWorldDirection_run.
  erewrite bind_Ok; [|apply new_Vector3_run].
  hrun get_Vector3_run.
  hrun addScaledVector_run.
  hrun get_Vector3_run.
  erewrite bind_Ok; [|apply new_Vector3_run].
  hrun get_Vector3_run.
  hrun addScaledVector_run.
  eexists. split; [eapply addScaledVector_run; heap_lookup|].
  split; [heap_lookup|].
  intros l o Hl El. pose proof (lookup_lt_Some _ _ _ El) as Ll.
  rewrite list_lookup_insert_ne by done. heap_lookup.
Qed.

Lemma normalize_zero : Vec.normalize (mkVector3 0 0 0) = mkVector3 0 0 0.
Proof.
  unfold Vec.normalize, Vec.multiplyScalar. cbn [vx vy vz]. f_equal; lra.
Qed.

Lemma normalize_forward : Vec.normalize (mkVector3 2 0 0) = mkVector3 1 0 0.
Proof.
  assert (E : Vec.length (mkVector3 2 0 0) = 2).
  { unfold Vec.length. cbn [vx vy vz]. apply sqrt_lem_1; lra. }
  unfold Vec.normalize, Vec.multiplyScalar. rewrite E. cbn [vx vy vz].
  destruct (Req_dec_T 2 0); [lra|]. f_equal; lra.
Qed.

(** A normalized vector is no longer than 1. *)
Lemma normalize_sq v :
  vx (Vec.normalize v) * vx (Vec.normalize v)
  + vy (Vec.normalize v) * vy (Vec.normalize v)
  + vz (Vec.normalize v) * vz (Vec.normalize v) <= 1.
Proof.
  destruct v as [a b c].
  unfold Vec.normalize, Vec.length, Vec.multiplyScalar. cbn [vx vy vz].
  set (s := a * a + b * b + c * c). assert (Hs : 0 <= s) by (unfold s; nra).
  destruct (Req_dec_T (sqrt s) 0) as [E|N].
  - apply sqrt_eq_0 in E; [|done]. unfold s in E. nra.
  - pose proof (sqrt_sqrt s Hs) as Hl. set (l := sqrt s) in *.
    assert (Hi : l * (1 / l) = 1) by (by field).
    set (u := 1 / l) in *.
    assert (Hg : a * u * (a * u) + b * u * (b * u) + c * u * (c * u)
                 = l * u * (l * u)).
    { transitivity (s * (u * u)); [unfold s; ring|]. rewrite <- Hl. ring. }
    rewrite Hg, Hi. lra.
Qed.

Lemma bsign_agree (a b : option bool) :
  (a = Some true ↔ b = Some true) → bsign a = bsign b.
Proof.
  intros [H1 H2].
  destruct a as [[]|], b as [[]|]; simpl; try done;
    first [by specialize (H1 eq_refl)|by specialize (H2 eq_refl)].
Qed.

Lemma bsign_held (a : option bool) : a = Some true → bsign a = 1.
Proof. by intros ->. Qed.

Lemma bsign_not_held (a : option bool) : a ≠ Some true → bsign a = -1.
Proof. by destruct a as [[]|]. Qed.

Lemma camera_rest kb cp cq h P Q :
  bsign (kb !! "w") = bsign (kb !! "s") →
  bsign (kb !! "d") = bsign (kb !! "a") →
  h !! cp = Some (OVec P) → h !! cq = Some (OQuat Q) →
  ∃ h', render_camera kb cp cq h = (Ok tt, h') ∧
        h' !! cp = Some (OVec P) ∧
        (∀ l o, l ≠ cp → h !! l = Some o → h' !! l = Some o).
Proof.
  intros Ef Er Ep Eq.
  destruct (render_camera_run kb cp cq h P Q Ep Eq) as (h' & E & Hc & Hf).
  exists h'. split; [done|]. split; [|done]. rewrite Hc. cbv zeta.
  rewrite Ef, Er, !Rminus_diag, normalize_zero.
  generalize (Vec.normalize (Vec.applyQuaternion Reference.forward Q)).
  intros D. destruct P. unfold Vec.addScaled. cbn [vx vy vz].
  do 3 f_equal; lra.
Qed.

Lemma camera_forward kb cp cq h P Q :
  kb !! "w" = Some true → kb !! "s" ≠ Some true →
  bsign (kb !! "d") = bsign (kb !! "a") →
  h !! cp = Some (OVec P) → h !! cq = Some (OQuat Q) →
  ∃ h', render_camera kb cp cq h = (Ok tt, h') ∧
        h' !! cp
        = Some (OVec (Vec.addScaled P
                        (Vec.normalize
                           (Vec.applyQuaternion Reference.forward Q)) 0.1)) ∧
        (∀ l o, l ≠ cp → h !! l = Some o → h' !! l = Some o).
Proof.
  intros Ew Es Er Ep Eq.
  destruct (render_camera_run kb cp cq h P Q Ep Eq) as (h' & E & Hc & Hf).
  exists h'. split; [done|]. split; [|done]. rewrite Hc. cbv zeta.
  rewrite (bsign_held _ Ew), (bsign_not_held _ Es), Er, Rminus_diag.
  replace (1 - -1) with 2 by lra. rewrite normalize_forward.
  generalize (Vec.normalize (Vec.applyQuaternion Reference.forward Q)).
  intros D. destruct P. unfold Vec.addScaled. cbn [vx vy vz].
  do 3 f_equal; lra.
Qed.

(** X19. With no movement key held, or with opposite keys held
    together, a frame leaves the camera where it is: the zero vector
    survives [normalize], which divides by 1 instead of by its length.
    The frame does not throw and changes no other object that was
    there. *)
Theorem camera_rests_without_input
    (kb : gmap string bool) (cp cq : loc) (h : heap)
    (P : Vector3) (Q : Quaternion) :
  (kb !! "w" = Some true ↔ kb !! "s" = Some true) →
  (kb !! "d" = Some true ↔ kb !! "a" = Some true) →
  h !! cp = Some (OVec P) → h !! cq = Some (OQuat Q) →
  ∃ h', render_camera kb cp cq h = (Ok tt, h') ∧
        h' !! cp = Some (OVec P) ∧
        (∀ l o, l ≠ cp → h !! l = Some o → h' !! l = Some o).
Proof.
  intros Hf Hr. apply camera_rest; by apply bsign_agree.
Qed.

Lemma camera_rests_without_input_witness :
  ∃ h', render_camera {["w" := true; "s" := true]} 5%nat 6%nat example_objects
        = (Ok tt, h') ∧
        h' !! 5%nat = Some (OVec (mkVector3 0 1 0)) ∧
        (∀ l o, l ≠ 5%nat → example_objects !! l = Some o → h' !! l = Some o).
Proof.
  apply (camera_rests_without_input {["w" := true; "s" := true]} 5%nat 6%nat
           example_objects (mkVector3 0 1 0) Quat.identity);
    try reflexivity; by vm_compute.
Defined.

(** X20. Whatever keys are held and however the camera is turned, a
    frame moves the camera by at most 0.1: diagonal movement is no faster
    than straight movement. *)
Theorem camera_step_bounded
    (kb : gmap string bool) (cp cq : loc) (h : heap)
    (P : Vector3) (Q : Quaternion) :
  h !! cp = Some (OVec P) → h !! cq = Some (OQuat Q) →
  ∃ h' P', render_camera kb cp cq h = (Ok tt, h') ∧
           h' !! cp = Some (OVec P') ∧ Vec.distanceTo P' P <= 0.1.
Proof.
  intros Ep Eq.
  destruct (render_camera_run kb cp cq h P Q Ep Eq) as (h' & E & Hc & _).
  eexists _, _. split; [exact E|]. split; [exact Hc|]. cbv zeta.
  pose proof (normalize_sq (mkVector3 (bsign (kb !! "w") - bsign (kb !! "s")) 0
                              (bsign (kb !! "d") - bsign (kb !! "a")))) as HL.
  pose proof (normalize_sq (Vec.applyQuaternion Reference.forward Q)) as HD.
  revert HL HD.
  generalize (Vec.normalize
                (mkVector3 (bsign (kb !! "w") - bsign (kb !! "s")) 0
                   (bsign (kb !! "d") - bsign (kb !! "a")))).
  generalize (Vec.normalize (Vec.applyQuaternion Reference.forward Q)).
  intros [d1 d2 d3] [a1 a2 a3]. cbn [vx vy vz]. intros HL HD.
  unfold Vec.distanceTo, Vec.distanceToSquared, Vec.addScaled.
  cbn [vx vy vz]. destruct P as [p1 p2 p3]. cbn [vx vy vz].
  replace 0.1 with (1 / 10) by lra.
  replace (sqrt _)
    with (sqrt (a1 * a1 * (d1 * d1 + d2 * d2 + d3 * d3)
                + a3 * a3 * (d1 * d1 + d3 * d3)) * (1 / 10)).
  2:{ rewrite <- (sqrt_square (1 / 10)) at 1 by lra.
      rewrite <- sqrt_mult_alt by nra. f_equal. field. }
  assert (Hb : a1 * a1 * (d1 * d1 + d2 * d2 + d3 * d3)
               + a3 * a3 * (d1 * d1 + d3 * d3) <= 1).
  { assert (a1 * a1 * (d1 * d1 + d2 * d2 + d3 * d3) <= a1 * a1) by nra.
    assert (a3 * a3 * (d1 * d1 + d3 * d3) <= a3 * a3) by nra.
    nra. }
  apply sqrt_le_1_alt in Hb. rewrite sqrt_1 in Hb. lra.
Qed.

Lemma camera_step_bounded_witness :
  ∃ h' P', render_camera {["w" := true; "d" := true]} 5%nat 6%nat
             example_objects = (Ok tt, h') ∧
           h' !! 5%nat = Some (OVec P') ∧
           Vec.distanceTo P' (mkVector3 0 1 0) <= 0.1.
Proof.
  apply (camera_step_bounded {["w" := true; "d" := true]} 5%nat 6%nat
           example_objects (mkVector3 0 1 0) Quat.identity); reflexivity.
Defined.

(** X21. With the forward key alone (sideways keys cancelling), a frame
    moves the camera by 0.1 along its view direction, which is the
    forward vector [(0, 0, -1)] turned by the camera's quaternion and
    normalized: looking up or down, the camera climbs or sinks. *)
Theorem forward_key_walks_along_view
    (kb : gmap string bool) (cp cq : loc) (h : heap)
    (P : Vector3) (Q : Quaternion) :
  kb !! "w" = Some true → kb !! "s" ≠ Some true →
  (kb !! "d" = Some true ↔ kb !! "a" = Some true) →
  h !! cp = Some (OVec P) → h !! cq = Some (OQuat Q) →
  ∃ h', render_camera kb cp cq h = (Ok tt, h') ∧
        h' !! cp
        = Some (OVec (Vec.addScaled P
                        (Vec.normalize
                           (Vec.applyQuaternion Reference.forward Q)) 0.1)) ∧
        (∀ l o, l ≠ cp → h !! l = Some o → h' !! l = Some o).
Proof.
  intros Ew Es Hr. apply camera_forward; [done|done|by apply bsign_agree].
Qed.

Lemma forward_key_walks_along_view_witness :
  ∃ h', render_camera {["w" := true]} 5%nat 6%nat example_objects
        = (Ok tt, h') ∧
        h' !! 5%nat
        = Some (OVec (Vec.addScaled (mkVector3 0 1 0)
                        (Vec.normalize
                           (Vec.applyQuaternion Reference.forward
                              Quat.identity)) 0.1)) ∧
        (∀ l o, l ≠ 5%nat → example_objects !! l = Some o → h' !! l = Some o).
Proof.
  apply (forward_key_walks_along_view {["w" := true]} 5%nat 6%nat
           example_objects (mkVector3 0 1 0) Quat.identity);
    try reflexivity; by vm_compute.
Defined.

(** X22. Sideways movement keeps the camera's height, however the
    camera is turned: with the forward and backward keys cancelling, a
    frame leaves the [y] of the camera's position as it was. *)
Theorem strafing_keeps_height
    (kb : gmap string bool) (cp cq : loc) (h : heap)
    (P : Vector3) (Q : Quaternion) :
  (kb !! "w" = Some true ↔ kb !! "s" = Some true) →
  h !! cp = Some (OVec P) → h !! cq = Some (OQuat Q) →
  ∃ h' P', render_camera kb cp cq h = (Ok tt, h') ∧
           h' !! cp = Some (OVec P') ∧ vy P' = vy P.
Proof.
  intros Hf Ep Eq. apply bsign_agree in Hf.
  destruct (render_camera_run kb cp cq h P Q Ep Eq) as (h' & E & Hc & _).
  eexists _, _. split; [exact E|]. split; [exact Hc|]. cbv zeta.
  rewrite Hf, Rminus_diag.
  generalize (Vec.normalize (Vec.applyQuaternion Reference.forward Q)).
  intros D. unfold Vec.normalize at 1, Vec.multiplyScalar.
  unfold Vec.addScaled. cbn [vx vy vz]. lra.
Qed.

Lemma strafing_keeps_height_witness :
  ∃ h' P', render_camera {["d" := true]} 5%nat 6%nat example_objects
           = (Ok tt, h') ∧
           h' !! 5%nat = Some (OVec P') ∧ vy P' = vy (mkVector3 0 1 0).
Proof.
  apply (strafing_keeps_height {["d" := true]} 5%nat 6%nat
           example_objects (mkVector3 0 1 0) Quat.identity);
    try reflexivity; by vm_compute.
Defined.

(** X23. Pressing the forward key on a keyboard with no movement key
    held makes the next frame walk along the view direction, and
    releasing it again makes the frame after that leave the camera where
    it then is: [keyup] deletes the key, which then reads as not held. *)
Theorem key_press_and_release
    (kb : gmap string bool) (cp cq : loc) (h : heap)
    (P : Vector3) (Q : Quaternion) :
  (∀ k, k ∈ ["w"; "s"; "a"; "d"] → kb !! k ≠ Some true) →
  h !! cp = Some (OVec P) → h !! cq = Some (OQuat Q) → cp ≠ cq →
  let P' := Vec.addScaled P
              (Vec.normalize (Vec.applyQuaternion Reference.forward Q)) 0.1 in
  ∃ h1 h2,
    render_camera (keydown "w" kb) cp cq h = (Ok tt, h1) ∧
    h1 !! cp = Some (OVec P') ∧
    render_camera (keyup "w" (keydown "w" kb)) cp cq h1 = (Ok tt, h2) ∧
    h2 !! cp = Some (OVec P').
Proof.
  intros Hk Ep Eq Hne P'.
  assert (Hs : kb !! "s" ≠ Some true) by (apply Hk; set_solver).
  assert (Ha : kb !! "a" ≠ Some true) by (apply Hk; set_solver).
  assert (Hd : kb !! "d" ≠ Some true) by (apply Hk; set_solver).
  destruct (camera_forward (keydown "w" kb) cp cq h P Q)
    as (h1 & E1 & Hc1 & Hf1); try done.
  { apply lookup_insert_eq. }
  { unfold keydown. by rewrite lookup_insert_ne. }
  { unfold keydown. rewrite !lookup_insert_ne by done.
    by rewrite (bsign_not_held _ Hd), (bsign_not_held _ Ha). }
  destruct (camera_rest (keyup "w" (keydown "w" kb)) cp cq h1 P' Q)
    as (h2 & E2 & Hc2 & _); try done.
  { unfold keyup, keydown. rewrite lookup_delete_eq, lookup_delete_ne by done.
    rewrite lookup_insert_ne by done. by rewrite (bsign_not_held _ Hs). }
  { unfold keyup, keydown. rewrite !lookup_delete_ne by done.
    rewrite !lookup_insert_ne by done.
    by rewrite (bsign_not_held _ Hd), (bsign_not_held _ Ha). }
  { apply Hf1; [congruence|done]. }
  by exists h1, h2.
Qed.

Lemma key_press_and_release_witness :
  let P' := Vec.addScaled (mkVector3 0 1 0)
              (Vec.normalize
                 (Vec.applyQuaternion Reference.forward Quat.identity)) 0.1 in
  ∃ h1 h2,
    render_camera (keydown "w" ∅) 5%nat 6%nat example_objects = (Ok tt, h1) ∧
    h1 !! 5%nat = Some (OVec P') ∧
    render_camera (keyup "w" (keydown "w" ∅)) 5%nat 6%nat h1 = (Ok tt, h2) ∧
    h2 !! 5%nat = Some (OVec P').
Proof.
  apply (key_press_and_release ∅ 5%nat 6%nat example_objects
           (mkVector3 0 1 0) Quat.identity); try reflexivity; [|lia].
  intros k _. by rewrite lookup_empty.
Defined.

(** ** From the creation of the rig on *)

(** X24. For the rig that [createController] builds, whatever frames,
    connection events, controller movements and gamepad readings follow
    its creation, every [setOffset] call the frames make has for target
    the point of a hit that a ray cast at the house reported first and
    whose normal is there with [y] above 0.9: the controls never teleport
    onto a wall, a ceiling or a hit without normal. *)
Theorem teleports_land_on_ground
    (cp cq : loc) (base : XRReferenceSpace) (w w0 w1 : World) (rig : Rig)
    (P : Vector3) (Q : Quaternion) :
  cp ≠ cq → store w !! cp = Some (OVec P) → store w !! cq = Some (OQuat Q) →
  createController cp cq base w = (Ok rig, w0) →
  reachable rig w0 w1 →
  ∃ calls, setOffset_calls w1 = setOffset_calls w ++ calls ∧
    Forall (λ call, ∃ hit n, first_hit_of (house w) hit ∧
                             hit_normal hit = Some n ∧ vy n > 0.9 ∧
                             call.1 = hit_point hit) calls.
Proof.
  intros Hne Ep Eq E Hr.
  destruct (createController_effect cp cq base w P Q Hne Ep Eq)
    as (rig' & w' & E' & Hwf & _ & _ & _ & _ & Hval & _ & _ & _ & Hv & _ & _
        & _ & Hcalls & Hh).
  rewrite E in E'. injection E' as <- <-.
  destruct (reachable_sound rig w0 w1 Hwf Hv Hr)
    as [_ _ _ (calls & Ec & Hall)].
  exists calls. rewrite <- Hcalls. split; [done|].
  eapply Forall_impl; [exact Hall|].
  intros call (hit & Hf & Ha & Ecall). rewrite Hval in Ha.
  unfold isGroundIntersection in Ha. apply bool_decide_eq_true in Ha.
  destruct (hit_normal hit) as [n|] eqn:En; [|lra].
  exists hit, n. by rewrite <- Hh.
Qed.

Lemma teleports_land_on_ground_witness :
  createController 5%nat 6%nat (NativeSpace "local-floor") floor_world
  = (Ok floor_rig, floor_created) ∧
  reachable floor_rig floor_created teleport_run ∧
  setOffset_calls teleport_run = [(mkVector3 0 1 0, teleport_run_heading)] ∧
  ∃ calls, setOffset_calls teleport_run = setOffset_calls floor_world ++ calls ∧
    Forall (λ call, ∃ hit n, first_hit_of (house floor_world) hit ∧
                             hit_normal hit = Some n ∧ vy n > 0.9 ∧
                             call.1 = hit_point hit) calls.
Proof.
  split; [reflexivity|]. split; [apply teleport_run_reachable|].
  split; [apply teleport_run_commits|].
  apply (teleports_land_on_ground 5%nat 6%nat (NativeSpace "local-floor")
           floor_world floor_created teleport_run floor_rig
           (mkVector3 0 1 0) Quat.identity).
  - lia.
  - reflexivity.
  - reflexivity.
  - reflexivity.
  - apply teleport_run_reachable.
Defined.
